(** * Render pipeline and output store of the Remotion MCP server

    A shallow embedding of
    - class [UrlHandler] (src/output/urlHandler.ts), the local store,
    - class [DynamicBundler] (the bundler module of src/render), the
      build cache,
    - class [RenderEngine] (src/render/engine.ts), the render job,
    followed by the properties the specification states about them.

    Conventions of the embedding.
    - JavaScript numbers that hold integers (sizes, epoch milliseconds,
      configuration values, ports) are [Z]; scene durations and video
      settings, which may be fractional, are IEEE 754 doubles, as in
      JavaScript: the kernel's binary64 [float], with its own [+] and
      [*] ([JsNumber]).
    - A string is a sequence of code units below 256; [charCodeAt] is
      the code of the character.
    - A JavaScript [Map] keeps insertion order, and [findLRU] depends on
      it, so a [Map] is an association list ([JsMap]).
    - The file system is a finite map from paths to nodes ([Fs]).
    - [Date.now()], [randomUUID()] and [randomBytes()] are inputs of the
      operation that performs them, and so is the success of the system
      calls of the render job, of the bundler and of the store's write.
      The unlink of the store, whose failure the code ignores, is taken
      to go through on a file that is there; what is stated about the
      disk after a removal allows for a file left behind.
    - What the packages outside the repository do is an input too:
      [res.sendFile] of Express for the GET handler, the Remotion
      bundler and renderer and [JSON.stringify] for the render job, the
      storage service for the remote store.
    - A method that can throw returns an [outcome]; a [while] loop carries
      fuel and yields [Diverge] when it runs out. The loops of the store
      never do on a reachable state ([UrlFacts.store_wf]). *)

From Stdlib Require Import ZArith Lia ZifyBool Strings.Ascii Strings.Byte Floats
  HexadecimalString.
From stdpp Require Import gmap strings list pretty.

Local Open Scope string_scope.
Local Open Scope Z_scope.

#[local] Set Warnings "-inexact-float".

(** ** Results of fallible, possibly non-terminating code *)

Inductive outcome (A : Type) : Type :=
| Ok (a : A)
| Throw (msg : string)
| Diverge.

Arguments Ok {A} a.
Arguments Throw {A} msg.
Arguments Diverge {A}.

(** ** Insertion-ordered [Map<string, V>] *)

Module JsMap.

Abbreviation t V := (list (string * V)).

Section Ops.
Context {V : Type}.
Implicit Types m : t V.

Definition size m : Z := Z.of_nat (length m).

Fixpoint get (k : string) m : option V :=
  match m with
  | [] => None
  | (k', v) :: m' => if decide (k' = k) then Some v else get k m'
  end.

(** [Map.prototype.set]: an existing key keeps its position, a new
    key goes last. *)
Fixpoint set (k : string) (v : V) m : t V :=
  match m with
  | [] => [(k, v)]
  | (k', v') :: m' =>
      if decide (k' = k) then (k, v) :: m' else (k', v') :: set k v m'
  end.

Fixpoint delete (k : string) m : t V :=
  match m with
  | [] => []
  | (k', v') :: m' =>
      if decide (k' = k) then m' else (k', v') :: delete k m'
  end.

Definition values m : list V := snd <$> m.
Definition keys m : list string := fst <$> m.
End Ops.

End JsMap.

(** ** File system *)

Module Fs.

Inductive node : Type :=
| Dir
| File (data : list Byte.byte).

Abbreviation t := (gmap string node).

Definition is_file (n : node) : bool :=
  match n with File _ => true | Dir => false end.

(** [path.join(a, b)] for a normalised [a] and a plain name [b]. *)
Definition join (a b : string) : string := a ++ "/" ++ b.

(** [p] is [d] itself or lies below it. *)
Definition under (d p : string) : bool :=
  bool_decide (p = d) || String.prefix (d ++ "/") p.

Definition exists_ (p : string) (fs : t) : bool :=
  match fs !! p with Some _ => true | None => false end.

(** [fs.mkdir(p, {recursive: true})]: fails when [p] is a file. The
    ancestors of [p] are the configured roots, created at start-up. *)
Definition mkdir (p : string) (fs : t) : option t :=
  match fs !! p with
  | Some (File _) => None
  | Some Dir => Some fs
  | None => Some (<[p := Dir]> fs)
  end.

(** [fs.writeFile(p, data)]: fails when [p] is a directory. *)
Definition writeFile (p : string) (data : list Byte.byte) (fs : t) : option t :=
  match fs !! p with
  | Some Dir => None
  | _ => Some (<[p := File data]> fs)
  end.

Definition readFile (p : string) (fs : t) : option (list Byte.byte) :=
  match fs !! p with
  | Some (File data) => Some data
  | _ => None
  end.

(** [fs.unlink(p)]: fails unless [p] is a file. *)
Definition unlink (p : string) (fs : t) : option t :=
  match fs !! p with
  | Some (File _) => Some (delete p fs)
  | _ => None
  end.

(** [fs.rm(p, {recursive: true, force: true})] when the system call
    goes through: [p] and everything below it is gone; an absent [p] is
    not an error. *)
Definition rm_rf (p : string) (fs : t) : t :=
  filter (λ kv, under p kv.1 = false) fs.

End Fs.

(** ** The local store: [UrlHandler] (src/output/urlHandler.ts) *)

Module UrlHandler.

Definition Metadata := list (string * string).

Record FileData := {
  buffer : list Byte.byte;
  fd_mimeType : string;
  fd_metadata : option Metadata;
}.

Record FileEntry := {
  id : string;
  filename : string;
  filepath : string;
  token : string;
  mimeType : string;
  size : Z;
  createdAt : Z;
  expiresAt : Z;
  lastAccessedAt : Z;
  metadata : option Metadata;
}.

Record UrlOutputConfig := {
  port : Z;
  maxDiskBytes : Z;
  maxFiles : Z;
  ttlSeconds : Z;
  baseUrl : string;
  serveDir : string;
}.

(** [expiresAt] of the result is the instant that the source renders
    with [toISOString()]. *)
Record OutputResult := {
  url : string;
  or_metadata : option Metadata;
  or_expiresAt : Z;
}.

(** The mutable fields of the handler together with the disk. *)
Record State := {
  ready : bool;
  files : JsMap.t FileEntry;
  disk : Fs.t;
}.

Definition set_lastAccessedAt (now : Z) (e : FileEntry) : FileEntry :=
  {| id := id e; filename := filename e; filepath := filepath e;
     token := token e; mimeType := mimeType e; size := size e;
     createdAt := createdAt e; expiresAt := expiresAt e;
     lastAccessedAt := now; metadata := metadata e |}.

(** What the environment hands to one [store()] call, in the order the
    call consumes it. *)
Record StoreEnv := {
  now_sweep : Z;        (* Date.now() inside cleanup() *)
  uuid : string;        (* randomUUID() *)
  rand_token : string;  (* randomBytes(16).toString('hex') *)
  write_ok : bool;      (* does fs.writeFile go through *)
  now_entry : Z;        (* Date.now() for the new entry *)
}.

(** A value of [req.query.token]: absent, a string, or an array or
    object, which [!==] never finds equal to a string. *)
Inductive QueryValue : Type :=
| QUndefined
| QString (s : string)
| QOther.

Inductive Body : Type :=
| JsonError (error : string)      (* res.json({ error }) *)
| FileAt (path : string)          (* the content of the file at [path] *)
| ErrorPage.                      (* the error page of the framework *)

Record Response := {
  status : Z;
  headers : list (string * string);
  body : Body;
}.

(** [res.sendFile] of Express, which is not part of the repository: from
    the path it is given, the headers that the handler has set on [res]
    and the disk, it makes the response. The handler sets no status of
    its own before it calls it. What it answers may also depend on the
    request, so every call is given its own. *)
Definition SendFile : Type :=
  string → list (string * string) → Fs.t → Response.

(** [new UrlHandler(config)] next to a disk [d]. *)
Definition create (d : Fs.t) : State :=
  {| ready := false; files := []; disk := d |}.

Definition dquote : string := String (Ascii.ascii_of_nat 34) EmptyString.

(** A plain file directly inside [dir]. *)
Definition directly_in (dir p : string) : bool :=
  String.prefix (dir ++ "/") p &&
  negb (bool_decide (is_Some
          (String.index 0 "/" (String.substring (String.length dir + 1)
                                  (String.length p) p)))).

(** [initialize()], when every system call goes through: the files of
    the serve directory are unlinked and the handler is ready. *)
Definition initialize (cfg : UrlOutputConfig) (st : State) : State :=
  {| ready := true;
     files := files st;
     disk := filter (λ kv, directly_in (serveDir cfg) kv.1
                           && Fs.is_file kv.2 = false)
                    (<[serveDir cfg := Fs.Dir]> (disk st)) |}.

(** [map[mimeType] || '.bin']: the five keys of the table, and [.bin]
    for a string that is no key. (A string that names a member which
    every object inherits, such as constructor, is no MIME type; the
    look-up of the source finds that member for it.) *)
Definition getExtension (mime : string) : string :=
  if decide (mime = "video/mp4") then ".mp4"
  else if decide (mime = "video/webm") then ".webm"
  else if decide (mime = "image/gif") then ".gif"
  else if decide (mime = "image/png") then ".png"
  else if decide (mime = "image/jpeg") then ".jpg"
  else ".bin".

(** [removeFile(id)]. The entry goes whether or not the unlink went
    through. The unlink is taken to fail only where the file system
    itself refuses it, with no file at the path. *)
Definition removeFile (k : string) (st : State) : State :=
  match JsMap.get k (files st) with
  | None => st
  | Some entry =>
      {| ready := ready st;
         files := JsMap.delete k (files st);
         disk := match Fs.unlink (filepath entry) (disk st) with
                 | Some d => d
                 | None => disk st
                 end |}
  end.

Definition findLRU_step (lru : option FileEntry) (entry : FileEntry)
  : option FileEntry :=
  match lru with
  | None => Some entry
  | Some l =>
      if lastAccessedAt entry <? lastAccessedAt l then Some entry else Some l
  end.

Definition findLRU (st : State) : option FileEntry :=
  fold_left findLRU_step (JsMap.values (files st)) None.

Definition expired_ids (now : Z) (m : JsMap.t FileEntry) : list string :=
  fst <$> filter (λ kv, now > expiresAt kv.2) m.

Definition cleanup (now : Z) (st : State) : State :=
  fold_left (λ s k, removeFile k s) (expired_ids now (files st)) st.

Definition diskUsageBytes (st : State) : Z :=
  fold_left (λ sum f, sum + size f) (JsMap.values (files st)) 0.

Definition fileCount (st : State) : Z := JsMap.size (files st).

(** First loop of [enforceQuotas]. *)
Fixpoint evict_for_size (fuel : nat) (cfg : UrlOutputConfig)
    (incomingSize currentSize : Z) (st : State) : outcome unit * State :=
  if (currentSize + incomingSize >? maxDiskBytes cfg) && (fileCount st >? 0)
  then
    match findLRU st with
    | Some lru =>
        match fuel with
        | O => (Diverge, st)
        | S fuel' =>
            evict_for_size fuel' cfg incomingSize (currentSize - size lru)
                           (removeFile (id lru) st)
        end
    | None => (Ok tt, st)
    end
  else (Ok tt, st).

(** Second loop of [enforceQuotas]. *)
Fixpoint evict_for_count (fuel : nat) (cfg : UrlOutputConfig) (st : State)
  : outcome unit * State :=
  if fileCount st >=? maxFiles cfg then
    match findLRU st with
    | Some lru =>
        match fuel with
        | O => (Diverge, st)
        | S fuel' => evict_for_count fuel' cfg (removeFile (id lru) st)
        end
    | None => (Ok tt, st)
    end
  else (Ok tt, st).

(** Every iteration of either loop deletes a map entry, so the number of
    entries bounds the iterations. *)
Definition loop_fuel (st : State) : nat := length (files st).

Definition enforceQuotas (cfg : UrlOutputConfig) (now : Z) (incomingSize : Z)
    (st : State) : outcome unit * State :=
  let st1 := cleanup now st in
  let currentSize := diskUsageBytes st1 in
  if incomingSize >? maxDiskBytes cfg then
    (Throw ("File too large: " ++ pretty incomingSize ++ " bytes"), st1)
  else
    match evict_for_size (loop_fuel st1) cfg incomingSize currentSize st1 with
    | (Ok _, st2) => evict_for_count (loop_fuel st2) cfg st2
    | r => r
    end.

(** [new Date(t).toISOString()] throws a [RangeError] outside the range
    of [Date], 8.64e15 ms either side of the epoch. *)
Definition valid_time (t : Z) : bool := Z.abs t <=? 8640000000000000.

Definition store (cfg : UrlOutputConfig) (env : StoreEnv) (file : FileData)
    (st : State) : outcome OutputResult * State :=
  if negb (ready st) then (Throw "UrlHandler not initialized", st)
  else
    let incoming := Z.of_nat (length (buffer file)) in
    match enforceQuotas cfg (now_sweep env) incoming st with
    | (Throw msg, st1) => (Throw msg, st1)
    | (Diverge, st1) => (Diverge, st1)
    | (Ok _, st1) =>
        let ext := getExtension (fd_mimeType file) in
        let fname := uuid env ++ ext in
        let fpath := Fs.join (serveDir cfg) fname in
        match (if write_ok env
               then Fs.writeFile fpath (buffer file) (disk st1)
               else None) with
        | None => (Throw "writeFile failed", st1)
        | Some d =>
            let now := now_entry env in
            let entry :=
              {| id := uuid env; filename := fname; filepath := fpath;
                 token := rand_token env; mimeType := fd_mimeType file;
                 size := incoming; createdAt := now;
                 expiresAt := now + ttlSeconds cfg * 1000;
                 lastAccessedAt := now; metadata := fd_metadata file |} in
            let base :=
              if decide (baseUrl cfg = EmptyString)
              then "http://localhost:" ++ pretty (port cfg)
              else baseUrl cfg in
            let st2 :=
              {| ready := ready st1;
                 files := JsMap.set (uuid env) entry (files st1);
                 disk := d |} in
            if valid_time (expiresAt entry) then
              (Ok {| url := base ++ "/files/" ++ fname ++ "?token="
                            ++ rand_token env;
                     or_metadata := fd_metadata file;
                     or_expiresAt := expiresAt entry |}, st2)
            else (Throw "Invalid time value", st2)
        end
    end.

(** [entry.lastAccessedAt = now] on the object found by the handler:
    the first value of the map that satisfies [p]. *)
Fixpoint touch_first (p : FileEntry → bool) (now : Z)
    (m : JsMap.t FileEntry) : JsMap.t FileEntry :=
  match m with
  | [] => []
  | (k, e) :: m' =>
      if p e then (k, set_lastAccessedAt now e) :: m'
      else (k, e) :: touch_first p now m'
  end.

Definition token_matches (e : FileEntry) (q : QueryValue) : bool :=
  match q with
  | QString s => bool_decide (token e = s)
  | _ => false
  end.

(** [res.status(code).json({ error: msg })]: the handler sets no header
    of its own here. *)
Definition error_response (code : Z) (msg : string) : Response :=
  {| status := code; headers := []; body := JsonError msg |}.

(** The headers that the handler sets before it calls [res.sendFile]. *)
Definition file_headers (entry : FileEntry) : list (string * string) :=
  [("Content-Type", mimeType entry);
   ("Content-Disposition",
    "inline; filename=" ++ dquote ++ filename entry ++ dquote)].

(** The handler of [GET /files/:filename]. [now_check] and [now_touch]
    are its two readings of [Date.now()]. The three refusals are the
    handler's own answers; past them it sets [lastAccessedAt] and the
    two headers and leaves the response to [res.sendFile]. *)
Definition get_file (sendFile : SendFile) (fname : string) (q : QueryValue)
    (now_check now_touch : Z) (st : State) : Response * State :=
  let same_name := λ f, bool_decide (filename f = fname) in
  match List.find same_name (JsMap.values (files st)) with
  | None => (error_response 404 "File not found", st)
  | Some entry =>
      if negb (token_matches entry q) then
        (error_response 403 "Invalid token", st)
      else if now_check >? expiresAt entry then
        (error_response 410 "File expired", st)
      else
        (sendFile (filepath entry) (file_headers entry) (disk st),
         {| ready := ready st;
            files := touch_first same_name now_touch (files st);
            disk := disk st |})
  end.

End UrlHandler.

(** ** JavaScript numbers *)

Module JsNumber.

(** A [number] is a double. *)
Abbreviation number := float.

(** The double of an integer below [2^53]. *)
Definition of_Z (n : Z) : number := PrimFloat.of_uint63 (Uint63.of_Z n).

(** [Math.ceil]: the least integer that is not below [x], as a double.
    NaN, the infinities and the zeros come back as they are; a double
    with no fractional bits is an integer already; a result of zero
    from a negative [x] is [-0]. A finite [x] is [m * 2^e] up to sign,
    with [m] of at most 53 bits, so all integers built here are below
    [2^53 + 1] and exact. *)
Definition Math_ceil (x : number) : number :=
  match Prim2SF x with
  | S754_finite negative m e =>
      if 0 <=? e then x
      else
        let d := 2 ^ (- e) in
        let q := Z.pos m / d in
        if negative then (- of_Z q)%float
        else of_Z (if Z.pos m mod d =? 0 then q else q + 1)
  | _ => x
  end.

(** A number that counts as false in [x || d]: [0], [-0] and NaN. *)
Definition falsy (x : number) : bool :=
  PrimFloat.is_zero x || PrimFloat.is_nan x.

End JsNumber.

(** ** The state monad of the render pipeline *)

(** Calls into the Remotion packages are recorded in the order made. *)
Inductive Codec : Type := H264 | Vp8 | GifCodec.

Record Composition := {
  comp_id : string;
  comp_width : JsNumber.number;
  comp_height : JsNumber.number;
  comp_fps : JsNumber.number;
  comp_durationInFrames : JsNumber.number;
  comp_props : string;       (* the remaining fields, kept by the spread *)
}.

Inductive BackendCall : Type :=
| CallBundle (entryPoint outDir : string)
| CallSelectComposition (serveUrl compositionId : string)
| CallRenderMedia (composition : Composition) (serveUrl : string)
    (codec : Codec) (outputLocation : string) (concurrency : Z)
| CallRenderStill (composition : Composition) (serveUrl : string)
    (output : string) (frame : Z) (imageFormat : string).

Record World := {
  fs : Fs.t;
  bundleCache : gmap string string;
  calls : list BackendCall;
}.

Definition M (A : Type) : Type := World → outcome A * World.

Definition ret {A} (a : A) : M A := λ w, (Ok a, w).
Definition throw {A} (msg : string) : M A := λ w, (Throw msg, w).

Definition bind {A B} (m : M A) (k : A → M B) : M B :=
  λ w, match m w with
       | (Ok a, w') => k a w'
       | (Throw msg, w') => (Throw msg, w')
       | (Diverge, w') => (Diverge, w')
       end.

Notation "x <- m ;; k" := (bind m (λ x, k))
  (at level 100, m at next level, right associativity).
Notation "m ;;; k" := (bind m (λ _, k))
  (at level 100, right associativity).

(** [try { body } finally { fin }] for a [fin] that cannot throw. *)
Definition try_finally {A} (body : M A) (fin : World → World) : M A :=
  λ w, let (r, w') := body w in (r, fin w').

(** [try { body } catch (err) { handler; throw err }]. *)
Definition on_error {A} (body : M A) (handler : World → World) : M A :=
  λ w, match body w with
       | (Throw msg, w') => (Throw msg, handler w')
       | r => r
       end.

Definition set_fs (d : Fs.t) (w : World) : World :=
  {| fs := d; bundleCache := bundleCache w; calls := calls w |}.

Definition set_cache (c : gmap string string) (w : World) : World :=
  {| fs := fs w; bundleCache := c; calls := calls w |}.

Definition record_call (c : BackendCall) : M unit :=
  λ w, (Ok tt, {| fs := fs w; bundleCache := bundleCache w;
                  calls := (calls w ++ [c])%list |}).

(** A system call that the environment lets through ([ok]) and that the
    file system accepts; otherwise it throws. *)
Definition syscall (name : string) (ok : bool) (op : Fs.t → option Fs.t)
  : M unit :=
  λ w, match (if ok then op (fs w) else None) with
       | Some d => (Ok tt, set_fs d w)
       | None => (Throw name, w)
       end.

(** [fs.rm(p, {recursive: true, force: true}).catch(() => {})]: a
    failed removal leaves the tree as it is and is not reported. *)
Definition rm_quiet (ok : bool) (p : string) (w : World) : World :=
  if ok then set_fs (Fs.rm_rf p (fs w)) w else w.

(** ** The build cache: [DynamicBundler] (src/render/bundler.ts) *)

Module DynamicBundler.

(** [@remotion/bundler]: [bundle({entryPoint, outDir})] works on the
    file system and resolves to the bundle path, or rejects. *)
Record BundlerModule := {
  bundle_impl : string → string → Fs.t → outcome string * Fs.t;
}.

(** The fixed texts that [createProjectStructure] writes. *)
Record Scaffold := {
  package_json : list Byte.byte;
  remotion_config_ts : list Byte.byte;
  root_tsx : list Byte.byte;
  index_ts : list Byte.byte;
  tsconfig_json : list Byte.byte;
}.

Record Bundler := {
  cacheDir : string;
  bundler : option BundlerModule;
  scaffold : Scaffold;
}.

(** The environment of one [bundle()] call. *)
Record BundleEnv := {
  project_uuid : string;   (* randomUUID() *)
  scaffold_ok : bool;      (* do the mkdir / writeFile calls go through *)
  rm_project_ok : bool;    (* the two fs.rm calls of the catch block *)
  rm_bundle_ok : bool;
}.

(** The [cleanup] closure of a [BundleResult]. *)
Inductive Cleanup : Type :=
| KeepCached
| RmProject (projectDir : string).

Record BundleResult := {
  bundlePath : string;
  cleanup : Cleanup;
}.

Definition run_cleanup (c : Cleanup) (rm_ok : bool) (w : World) : World :=
  match c with
  | KeepCached => w
  | RmProject projectDir => rm_quiet rm_ok projectDir w
  end.

(** [ToInt32]. *)
Definition toInt32 (z : Z) : Z := (z + 2 ^ 31) mod 2 ^ 32 - 2 ^ 31.

Definition charCode (c : Ascii.ascii) : Z := Z.of_N (Ascii.N_of_ascii c).

Definition hash_step (hash : Z) (c : Ascii.ascii) : Z :=
  let char := charCode c in
  let hash1 := (toInt32 (Z.shiftl (toInt32 hash) 5) - hash) + char in
  Z.land (toInt32 hash1) (toInt32 hash1).

(** [n.toString(16)] for a non-negative integer. *)
Definition toString16 (n : Z) : string :=
  NilZero.string_of_uint (N.to_hex_uint (Z.to_N n)).

Definition hashCode (str : string) : string :=
  toString16 (Z.abs (fold_left hash_step (String.list_ascii_of_string str) 0)).

Definition cacheKey (templateCode templateName : string) : string :=
  templateName ++ "-" ++ hashCode templateCode.

Definition createProjectStructure (b : Bundler) (ok : bool)
    (projectDir templateCode : string) : M unit :=
  let srcDir := Fs.join projectDir "src" in
  let sc := scaffold b in
  syscall "mkdir" ok (Fs.mkdir srcDir) ;;;
  syscall "writeFile" ok
    (Fs.writeFile (Fs.join projectDir "package.json") (package_json sc)) ;;;
  syscall "writeFile" ok
    (Fs.writeFile (Fs.join projectDir "remotion.config.ts")
                  (remotion_config_ts sc)) ;;;
  syscall "writeFile" ok
    (Fs.writeFile (Fs.join srcDir "Template.tsx")
                  (String.list_byte_of_string templateCode)) ;;;
  syscall "writeFile" ok
    (Fs.writeFile (Fs.join srcDir "Root.tsx") (root_tsx sc)) ;;;
  syscall "writeFile" ok
    (Fs.writeFile (Fs.join srcDir "index.ts") (index_ts sc)) ;;;
  syscall "writeFile" ok
    (Fs.writeFile (Fs.join projectDir "tsconfig.json") (tsconfig_json sc)).

Definition call_bundler (m : BundlerModule) (entryPoint outDir : string)
  : M string :=
  record_call (CallBundle entryPoint outDir) ;;;
  λ w, let (r, d) := bundle_impl m entryPoint outDir (fs w) in (r, set_fs d w).

(** The cache probe at the head of [bundle]: a hit needs a truthy
    cached path that [fs.access] finds; a stale entry is dropped. *)
Definition probe_cache (key : string) : M (option string) :=
  λ w, match bundleCache w !! key with
       | Some cachedPath =>
           if decide (cachedPath = EmptyString) then (Ok None, w)
           else if Fs.exists_ cachedPath (fs w) then (Ok (Some cachedPath), w)
           else (Ok None, set_cache (delete key (bundleCache w)) w)
       | None => (Ok None, w)
       end.

Definition bundle (b : Bundler) (env : BundleEnv)
    (templateCode templateName : string) : M BundleResult :=
  let key := cacheKey templateCode templateName in
  hit <- probe_cache key ;;
  match hit with
  | Some cachedPath =>
      ret {| bundlePath := cachedPath; cleanup := KeepCached |}
  | None =>
      match bundler b with
      | None => throw "Bundler not available"
      | Some m =>
          let projectDir :=
            Fs.join (cacheDir b) ("project-" ++ project_uuid env) in
          let bundleDir := Fs.join (cacheDir b) ("bundle-" ++ key) in
          on_error
            (createProjectStructure b (scaffold_ok env) projectDir
                                    templateCode ;;;
             path <- call_bundler m
                       (Fs.join (Fs.join projectDir "src") "index.ts")
                       bundleDir ;;
             (λ w, (Ok tt, set_cache (<[key := path]> (bundleCache w)) w)) ;;;
             ret {| bundlePath := path; cleanup := RmProject projectDir |})
            (λ w, rm_quiet (rm_bundle_ok env) bundleDir
                    (rm_quiet (rm_project_ok env) projectDir w))
      end
  end.

End DynamicBundler.

(** ** The render job: [RenderEngine] (src/render/engine.ts) *)

Module RenderEngine.

Inductive SceneType : Type :=
| title | text | counter | image | split | list_ | stats | intro | outro | cta.

(** A JSON value, for the free-form [content] of a scene. *)
#[local] Unset Elimination Schemes.
Inductive Json : Type :=
| JNull
| JBool (b : bool)
| JNumber (x : JsNumber.number)
| JString (s : string)
| JArray (items : list Json)
| JObject (fields : list (string * Json)).
#[local] Set Elimination Schemes.

Record Scene := {
  type : SceneType;
  duration : JsNumber.number;
  content : Json;
}.

Record Theme := {
  primaryColor : option string;
  secondaryColor : option string;
  backgroundColor : option string;
  fontFamily : option string;
}.

Inductive VideoFormat : Type := mp4 | webm | gif.
Inductive ImageFormat : Type := png | jpeg.

Record VideoSettings := {
  vs_width : option JsNumber.number;
  vs_height : option JsNumber.number;
  vs_fps : option JsNumber.number;
  vs_format : option VideoFormat;
}.

Record ImageSettings := {
  is_width : option JsNumber.number;
  is_height : option JsNumber.number;
  is_format : option ImageFormat;
}.

Record RenderVideoParams := {
  scenes : list Scene;
  rv_theme : option Theme;
  rv_settings : option VideoSettings;
}.

Record RenderImageParams := {
  scene : Scene;
  ri_theme : option Theme;
  ri_settings : option ImageSettings;
  ri_frame : option Z;
}.

Record ResultMetadata := {
  md_duration : option JsNumber.number;
  md_width : JsNumber.number;
  md_height : JsNumber.number;
  md_fps : option JsNumber.number;
}.

Record RenderResult := {
  rr_buffer : list Byte.byte;
  rr_mimeType : string;
  rr_metadata : ResultMetadata;
}.

Record InputProps := {
  ip_scenes : list Scene;
  ip_theme : Theme;
}.

(** [@remotion/renderer]. *)
Record RendererModule := {
  selectComposition_impl :
    string → string → InputProps → Fs.t → outcome Composition * Fs.t;
  renderMedia_impl :
    Composition → string → Codec → string → InputProps → Z → Fs.t
    → outcome unit * Fs.t;
  renderStill_impl :
    Composition → string → string → Z → InputProps → ImageFormat → Fs.t
    → outcome unit * Fs.t;
}.

Record RenderConfig := {
  concurrency : Z;
  timeoutPerFrame : Z;
  logLevel : string;
  workDir : string;
}.

(** The engine after [initialize()]. [JSON.stringify] is the host's. *)
Record Engine := {
  config : RenderConfig;
  renderer : option RendererModule;
  bundler : DynamicBundler.Bundler;
  defaultTemplateCode : string;
  stringify_video : RenderVideoParams → string;
  stringify_image : RenderImageParams → string;
}.

(** The environment of one render call. *)
Record RenderEnv := {
  job_uuid : string;                       (* randomUUID() *)
  mkdir_ok : bool;
  bundle_env : DynamicBundler.BundleEnv;
  release_rm_ok : bool;                    (* fs.rm inside cleanup() *)
  write_ok : bool;
  read_ok : bool;
  rm_workDir_ok : bool;                    (* fs.rm of the finally block *)
}.

Definition empty_theme : Theme :=
  {| primaryColor := None; secondaryColor := None;
     backgroundColor := None; fontFamily := None |}.

(** [x || d] on an optional number: [undefined], [0], [-0] and NaN give
    [d]. *)
Definition num_or (x : option JsNumber.number) (d : JsNumber.number)
  : JsNumber.number :=
  match x with
  | Some v => if JsNumber.falsy v then d else v
  | None => d
  end.

(** [x || d] on an optional string: [undefined] and the empty string
    give [d]. *)
Definition str_or (x : option string) (d : string) : string :=
  match x with
  | Some s => if decide (s = EmptyString) then d else s
  | None => d
  end.

Definition video_format_name (f : VideoFormat) : string :=
  match f with mp4 => "mp4" | webm => "webm" | gif => "gif" end.

Definition image_format_name (f : ImageFormat) : string :=
  match f with png => "png" | jpeg => "jpeg" end.

Definition getCodec (format : VideoFormat) : Codec :=
  match format with webm => Vp8 | gif => GifCodec | mp4 => H264 end.

Definition getMimeType (format : VideoFormat) : string :=
  match format with
  | webm => "video/webm"
  | gif => "image/gif"
  | mp4 => "video/mp4"
  end.

(** [scenes.reduce((sum, s) => sum + s.duration, 0)]. *)
Definition totalDuration (ss : list Scene) : JsNumber.number :=
  fold_left (λ sum s, sum + duration s)%float ss 0%float.

(** [Math.ceil(totalDuration * fps)]. *)
Definition durationInFrames (ss : list Scene) (fps : JsNumber.number)
  : JsNumber.number :=
  JsNumber.Math_ceil (totalDuration ss * fps)%float.

Definition with_settings (c : Composition)
    (width height fps frames : JsNumber.number) : Composition :=
  {| comp_id := comp_id c; comp_width := width; comp_height := height;
     comp_fps := fps; comp_durationInFrames := frames;
     comp_props := comp_props c |}.

Definition call_selectComposition (r : RendererModule)
    (serveUrl : string) (props : InputProps) : M Composition :=
  record_call (CallSelectComposition serveUrl "Main") ;;;
  λ w, let (res, d) := selectComposition_impl r serveUrl "Main" props (fs w)
       in (res, set_fs d w).

Definition call_renderMedia (r : RendererModule) (c : Composition)
    (serveUrl : string) (codec : Codec) (out : string) (props : InputProps)
    (conc : Z) : M unit :=
  record_call (CallRenderMedia c serveUrl codec out conc) ;;;
  λ w, let (res, d) := renderMedia_impl r c serveUrl codec out props conc (fs w)
       in (res, set_fs d w).

Definition call_renderStill (r : RendererModule) (c : Composition)
    (serveUrl out : string) (frame : Z) (props : InputProps)
    (format : ImageFormat) : M unit :=
  record_call (CallRenderStill c serveUrl out frame
                               (image_format_name format)) ;;;
  λ w, let (res, d) := renderStill_impl r c serveUrl out frame props format (fs w)
       in (res, set_fs d w).

Definition readFile (ok : bool) (p : string) : M (list Byte.byte) :=
  λ w, match (if ok then Fs.readFile p (fs w) else None) with
       | Some data => (Ok data, w)
       | None => (Throw "readFile", w)
       end.

Definition job_workDir (e : Engine) (env : RenderEnv) : string :=
  Fs.join (workDir (config e)) (job_uuid env).

Definition renderVideo (e : Engine) (env : RenderEnv)
    (params : RenderVideoParams) (templateCode : option string)
  : M RenderResult :=
  let wd := job_workDir e env in
  let format :=
    match rv_settings params with
    | Some s => default mp4 (vs_format s)
    | None => mp4
    end in
  let outputPath := Fs.join wd ("output." ++ video_format_name format) in
  let width := num_or (rv_settings params ≫= vs_width) 1920%float in
  let height := num_or (rv_settings params ≫= vs_height) 1080%float in
  let fps := num_or (rv_settings params ≫= vs_fps) 30%float in
  let total := totalDuration (scenes params) in
  let frames := JsNumber.Math_ceil (total * fps)%float in
  try_finally
    (syscall "mkdir" (mkdir_ok env) (Fs.mkdir wd) ;;;
     match renderer e with
     | Some r =>
         let code := str_or templateCode (defaultTemplateCode e) in
         b <- DynamicBundler.bundle (bundler e) (bundle_env env)
                code "universal" ;;
         try_finally
           (let inputProps :=
              {| ip_scenes := scenes params;
                 ip_theme := default empty_theme (rv_theme params) |} in
            composition <- call_selectComposition r
                             (DynamicBundler.bundlePath b) inputProps ;;
            call_renderMedia r
              (with_settings composition width height fps frames)
              (DynamicBundler.bundlePath b) (getCodec format) outputPath
              inputProps (concurrency (config e)))
           (DynamicBundler.run_cleanup (DynamicBundler.cleanup b)
                                       (release_rm_ok env))
     | None =>
         let mockData :=
           String.list_byte_of_string
             ("Mock video: " ++ stringify_video e params) in
         syscall "writeFile" (write_ok env) (Fs.writeFile outputPath mockData)
     end ;;;
     buffer <- readFile (read_ok env) outputPath ;;
     ret {| rr_buffer := buffer;
            rr_mimeType := getMimeType format;
            rr_metadata := {| md_duration := Some total; md_width := width;
                              md_height := height; md_fps := Some fps |} |})
    (rm_quiet (rm_workDir_ok env) wd).

Definition renderImage (e : Engine) (env : RenderEnv)
    (params : RenderImageParams) (templateCode : option string)
  : M RenderResult :=
  let wd := job_workDir e env in
  let format :=
    match ri_settings params with
    | Some s => default png (is_format s)
    | None => png
    end in
  let outputPath := Fs.join wd ("output." ++ image_format_name format) in
  let width := num_or (ri_settings params ≫= is_width) 1920%float in
  let height := num_or (ri_settings params ≫= is_height) 1080%float in
  try_finally
    (syscall "mkdir" (mkdir_ok env) (Fs.mkdir wd) ;;;
     match renderer e with
     | Some r =>
         let code := str_or templateCode (defaultTemplateCode e) in
         b <- DynamicBundler.bundle (bundler e) (bundle_env env)
                code "universal" ;;
         try_finally
           (let inputProps :=
              {| ip_scenes := [scene params];
                 ip_theme := default empty_theme (ri_theme params) |} in
            composition <- call_selectComposition r
                             (DynamicBundler.bundlePath b) inputProps ;;
            call_renderStill r
              (with_settings composition width height 30%float
                 (JsNumber.Math_ceil (duration (scene params) * 30)%float))
              (DynamicBundler.bundlePath b) outputPath
              (default 15 (ri_frame params)) inputProps format)
           (DynamicBundler.run_cleanup (DynamicBundler.cleanup b)
                                       (release_rm_ok env))
     | None =>
         let mockData :=
           String.list_byte_of_string
             ("Mock image: " ++ stringify_image e params) in
         syscall "writeFile" (write_ok env) (Fs.writeFile outputPath mockData)
     end ;;;
     buffer <- readFile (read_ok env) outputPath ;;
     ret {| rr_buffer := buffer;
            rr_mimeType := match format with
                           | jpeg => "image/jpeg"
                           | png => "image/png"
                           end;
            rr_metadata := {| md_duration := None; md_width := width;
                              md_height := height; md_fps := None |} |})
    (rm_quiet (rm_workDir_ok env) wd).

End RenderEngine.

(** ** Reachable states of the local store *)

Module UrlInv.
Import UrlHandler.

(** Each key is the [id] of its entry and no key repeats: the shape that
    [files.set(id, entry)] gives the map. *)
Definition keyed (m : JsMap.t FileEntry) : Prop :=
  Forall (λ kv, kv.1 = id kv.2) m ∧ NoDup (JsMap.keys m).

Definition sizes_nonneg (m : JsMap.t FileEntry) : Prop :=
  Forall (λ kv, 0 ≤ size kv.2) m.

Definition wf (st : State) : Prop :=
  ready st = true ∧ keyed (files st) ∧ sizes_nonneg (files st).

(** Sum of the sizes of the tracked entries. *)
Definition total_size (m : JsMap.t FileEntry) : Z :=
  foldr (λ kv acc, size kv.2 + acc) 0 m.

Definition expired (now : Z) (kv : string * FileEntry) : Prop :=
  now > expiresAt kv.2.

#[global] Instance expired_dec now kv : Decision (expired now kv).
Proof. unfold expired. apply _. Defined.

(** What can happen to an initialized store: a [store()] call, a
    [GET /files/:filename] request, a tick of the sweep timer. *)
Inductive step (cfg : UrlOutputConfig) : State → State → Prop :=
| step_store env file r st st' :
    store cfg env file st = (r, st') → step cfg st st'
| step_get sendFile fname q now1 now2 r st st' :
    get_file sendFile fname q now1 now2 st = (r, st') → step cfg st st'
| step_sweep now st :
    step cfg st (cleanup now st).

Definition reachable (cfg : UrlOutputConfig) (st : State) : Prop :=
  ∃ d, rtc (step cfg) (initialize cfg (create d)) st.

(** What either loop may do to a state: drop entries and their files. *)
Definition shrinks (st st' : State) : Prop :=
  ready st' = ready st ∧ files st' `sublist_of` files st
  ∧ disk st' ⊆ disk st.

(** The text before the last dot of a file name. *)
Fixpoint stem (s : string) : option string :=
  match s with
  | EmptyString => None
  | String c s' =>
      match stem s' with
      | Some t => Some (String c t)
      | None => if decide (c = "."%char) then Some EmptyString else None
      end
  end.

(** An entry as [store] makes it: its path is derived from its key and
    MIME type, and the disk holds a file of its size there. *)
Definition on_disk (cfg : UrlOutputConfig) (d : Fs.t)
    (kv : string * FileEntry) : Prop :=
  filepath kv.2
  = Fs.join (serveDir cfg) (kv.1 ++ getExtension (mimeType kv.2))
  ∧ ∃ data, d !! filepath kv.2 = Some (Fs.File data)
            ∧ size kv.2 = Z.of_nat (length data).

Definition all_on_disk (cfg : UrlOutputConfig) (st : State) : Prop :=
  NoDup (JsMap.keys (files st)) ∧ Forall (on_disk cfg (disk st)) (files st).

(** The first tracked entry, in map order, with the given file name. *)
Definition lookup_by_name (fname : string) (st : State) : option FileEntry :=
  List.find (λ f, bool_decide (filename f = fname)) (JsMap.values (files st)).

Fixpoint header (name : string) (hs : list (string * string))
  : option string :=
  match hs with
  | [] => None
  | (n, v) :: hs' => if decide (n = name) then Some v else header name hs'
  end.

(** The entry that a successful [store] inserts. *)
Definition new_entry (cfg : UrlOutputConfig) (env : StoreEnv)
    (file : FileData) : FileEntry :=
  let fname := uuid env ++ getExtension (fd_mimeType file) in
  {| id := uuid env; filename := fname;
     filepath := Fs.join (serveDir cfg) fname;
     token := rand_token env; mimeType := fd_mimeType file;
     size := Z.of_nat (length (buffer file)); createdAt := now_entry env;
     expiresAt := now_entry env + ttlSeconds cfg * 1000;
     lastAccessedAt := now_entry env; metadata := fd_metadata file |}.

End UrlInv.

(** ** Names for the paths and counts of the build cache *)

Module BundleSpec.
Import DynamicBundler.

(** The output directory that [bundle] hands to the backend. *)
Definition bundleDir (b : Bundler) (templateCode templateName : string)
  : string :=
  Fs.join (cacheDir b) ("bundle-" ++ cacheKey templateCode templateName).

(** The scaffold directory of one [bundle] call. *)
Definition projectDir (b : Bundler) (env : BundleEnv) : string :=
  Fs.join (cacheDir b) ("project-" ++ project_uuid env).

Definition is_bundle_call (c : BackendCall) : bool :=
  match c with CallBundle _ _ => true | _ => false end.

(** How often the backend was asked to compile. *)
Definition compile_count (w : World) : nat :=
  length (List.filter is_bundle_call (calls w)).

(** A computation that neither calls the backend nor touches the
    cache table. *)
Definition quiet {A} (m : M A) : Prop :=
  ∀ w r w', m w = (r, w') →
    calls w' = calls w ∧ bundleCache w' = bundleCache w.

End BundleSpec.

(** ** Names for the render job *)

Module RenderSpec.
Import RenderEngine.

(** The same environment, with the outcome of the final [fs.rm] set. *)
Definition with_rm_workDir_ok (ok : bool) (env : RenderEnv) : RenderEnv :=
  {| job_uuid := job_uuid env; mkdir_ok := mkdir_ok env;
     bundle_env := bundle_env env; release_rm_ok := release_rm_ok env;
     write_ok := write_ok env; read_ok := read_ok env;
     rm_workDir_ok := ok |}.

(** The resolved frame rate of a video request. *)
Definition resolved_fps (params : RenderVideoParams) : JsNumber.number :=
  num_or (rv_settings params ≫= vs_fps) 30%float.

Definition resolved_format (params : RenderVideoParams) : VideoFormat :=
  match rv_settings params with
  | Some s => default mp4 (vs_format s)
  | None => mp4
  end.

Definition resolved_width (params : RenderVideoParams) : JsNumber.number :=
  num_or (rv_settings params ≫= vs_width) 1920%float.

Definition resolved_height (params : RenderVideoParams) : JsNumber.number :=
  num_or (rv_settings params ≫= vs_height) 1080%float.

(** Where [renderVideo] has the backend or the mock write its output. *)
Definition video_outputPath (e : Engine) (env : RenderEnv)
    (params : RenderVideoParams) : string :=
  Fs.join (job_workDir e env)
          ("output." ++ video_format_name (resolved_format params)).

(** The placeholder payload of mock mode. *)
Definition mock_video (e : Engine) (params : RenderVideoParams)
  : list Byte.byte :=
  String.list_byte_of_string ("Mock video: " ++ stringify_video e params).




End RenderSpec.

(** ** The hash of the cache key, by its arithmetic *)

Module HashSpec.

(** The 32-bit rolling hash: [h ← int32(31·h + code unit)], from [0]. *)
Definition rolling_hash32 (str : string) : Z :=
  fold_left (λ h c, DynamicBundler.toInt32 (31 * h + DynamicBundler.charCode c))
            (String.list_ascii_of_string str) 0.

Definition int32 (z : Z) : Prop := - 2 ^ 31 ≤ z < 2 ^ 31.

End HashSpec.

(** ** Sample inputs *)

Module Samples.
Import UrlHandler.

Definition cfg (cap : Z) (ttl : Z) : UrlOutputConfig :=
  {| port := 8081; maxDiskBytes := 1000; maxFiles := cap;
     ttlSeconds := ttl; baseUrl := EmptyString; serveDir := "/srv" |}.

Definition fresh (c : UrlOutputConfig) : State := initialize c (create ∅).

Definition clip : FileData :=
  {| buffer := [x00; x01; x02]%byte; fd_mimeType := "video/mp4";
     fd_metadata := None |}.

Definition env (name : string) (now : Z) : StoreEnv :=
  {| now_sweep := now; uuid := name; rand_token := "tok-" ++ name;
     write_ok := true; now_entry := now |}.

(** A [res.sendFile] in the manner of Express: a path that does not
    start at the root is refused, which the framework answers with 500;
    a path that holds no file is answered 404; otherwise the file is
    sent with status 200 and the headers that were set. *)
Definition sendFile : SendFile :=
  λ path hs d,
    match path with
    | String "/" _ =>
        match d !! path with
        | Some (Fs.File _) =>
            {| status := 200; headers := hs; body := FileAt path |}
        | _ => {| status := 404; headers := []; body := ErrorPage |}
        end
    | _ => {| status := 500; headers := []; body := ErrorPage |}
    end.


(** The store after one clip was stored at time [0] with a TTL of one
    second: file a.mp4, token tok-a, expiring at [1000]. *)
Definition one_clip : State :=
  (store (cfg 3 1) (env "a" 0) clip (fresh (cfg 3 1))).2.


(** A backend that writes its output directory and returns it. *)
Definition backend : DynamicBundler.BundlerModule :=
  {| DynamicBundler.bundle_impl :=
       λ _ outDir d, (Ok outDir, <[outDir := Fs.Dir]> d) |}.

Definition no_scaffold : DynamicBundler.Scaffold :=
  {| DynamicBundler.package_json := [];
     DynamicBundler.remotion_config_ts := [];
     DynamicBundler.root_tsx := [];
     DynamicBundler.index_ts := [];
     DynamicBundler.tsconfig_json := [] |}.

Definition bundler : DynamicBundler.Bundler :=
  {| DynamicBundler.cacheDir := "/work/bundles";
     DynamicBundler.bundler := Some backend;
     DynamicBundler.scaffold := no_scaffold |}.

Definition bundle_env (name : string) : DynamicBundler.BundleEnv :=
  {| DynamicBundler.project_uuid := name;
     DynamicBundler.scaffold_ok := true;
     DynamicBundler.rm_project_ok := true;
     DynamicBundler.rm_bundle_ok := true |}.

Definition empty_world : World :=
  {| fs := ∅; bundleCache := ∅; calls := [] |}.

(** The request of the end-to-end example: one text scene of two
    seconds titled Hi, at 30 frames per second. *)
Definition hi_params : RenderEngine.RenderVideoParams :=
  {| RenderEngine.scenes :=
       [{| RenderEngine.type := RenderEngine.text;
           RenderEngine.duration := 2%float;
           RenderEngine.content :=
             RenderEngine.JObject [("title", RenderEngine.JString "Hi")] |}];
     RenderEngine.rv_theme := None;
     RenderEngine.rv_settings :=
       Some {| RenderEngine.vs_width := None; RenderEngine.vs_height := None;
               RenderEngine.vs_fps := Some 30%float;
               RenderEngine.vs_format := None |} |}.

(** A text scene of [d] seconds. *)
Definition scene_of (d : JsNumber.number) : RenderEngine.Scene :=
  {| RenderEngine.type := RenderEngine.text;
     RenderEngine.duration := d;
     RenderEngine.content := RenderEngine.JNull |}.

Definition render_config : RenderEngine.RenderConfig :=
  {| RenderEngine.concurrency := 2; RenderEngine.timeoutPerFrame := 30000;
     RenderEngine.logLevel := "error"; RenderEngine.workDir := "/work" |}.

(** A renderer whose [renderMedia] writes a file below the job
    directory and then throws. *)
Definition failing_renderer : RenderEngine.RendererModule :=
  {| RenderEngine.selectComposition_impl :=
       λ _ cid _ d,
         (Ok {| comp_id := cid; comp_width := 1920%float;
                comp_height := 1080%float; comp_fps := 30%float;
                comp_durationInFrames := 300%float;
                comp_props := "{}" |}, d);
     RenderEngine.renderMedia_impl :=
       λ _ _ _ out _ _ d,
         (Throw "render failed", <[out := Fs.File [x00%byte]]> d);
     RenderEngine.renderStill_impl :=
       λ _ _ out _ _ _ d,
         (Throw "render failed", <[out := Fs.File [x00%byte]]> d) |}.

Definition engine (r : option RenderEngine.RendererModule)
  : RenderEngine.Engine :=
  {| RenderEngine.config := render_config;
     RenderEngine.renderer := r;
     RenderEngine.bundler := bundler;
     RenderEngine.defaultTemplateCode := "export const Main = 1";
     RenderEngine.stringify_video := λ _, "{...}";
     RenderEngine.stringify_image := λ _, "{...}" |}.

Definition render_env (job : string) : RenderEngine.RenderEnv :=
  {| RenderEngine.job_uuid := job; RenderEngine.mkdir_ok := true;
     RenderEngine.bundle_env := bundle_env "p1";
     RenderEngine.release_rm_ok := true; RenderEngine.write_ok := true;
     RenderEngine.read_ok := true; RenderEngine.rm_workDir_ok := true |}.

Definition big_clip : FileData :=
  {| buffer := replicate 1001 x00%byte; fd_mimeType := "video/mp4";
     fd_metadata := None |}.

(** Three clips a, b, c stored at times [1], [2], [3] (TTL one minute),
    then b fetched at time [5]: last accesses [1], [5], [3]. *)
Definition abc_1 : State :=
  (store (cfg 3 60) (env "a" 1) clip (fresh (cfg 3 60))).2.
Definition abc_2 : State := (store (cfg 3 60) (env "b" 2) clip abc_1).2.
Definition abc_3 : State := (store (cfg 3 60) (env "c" 3) clip abc_2).2.
Definition abc : State :=
  (get_file sendFile "b.mp4" (QString "tok-b") 5 5 abc_3).2.

Definition entry_a : FileEntry := UrlInv.new_entry (cfg 3 60) (env "a" 1) clip.
Definition entry_b : FileEntry :=
  set_lastAccessedAt 5 (UrlInv.new_entry (cfg 3 60) (env "b" 2) clip).
Definition entry_c : FileEntry := UrlInv.new_entry (cfg 3 60) (env "c" 3) clip.

End Samples.


(** ** Further notions of the local store *)

Module UrlMore.
Import UrlHandler UrlInv.

(** An entry as [store] names it: file name from key and MIME type. *)
Definition named (kv : string * FileEntry) : Prop :=
  filename kv.2 = kv.1 ++ getExtension (mimeType kv.2).

(** The MIME types that the table of [getExtension] has as keys, which
    are the ones that the render engine produces. *)
Definition mapped_type (mime : string) : Prop :=
  mime ∈ ["video/mp4"; "video/webm"; "image/gif"; "image/png"; "image/jpeg"].

(** The bytes that the tracked files really take on the disk. *)
Definition bytes_on_disk (st : State) : Z :=
  foldr (λ kv acc,
           match disk st !! filepath kv.2 with
           | Some (Fs.File data) => Z.of_nat (length data) + acc
           | _ => acc
           end) 0 (files st).

Record OutputStatus := {
  os_mode : string;
  os_ready : bool;
  os_diskUsageBytes : Z;
  os_fileCount : Z;
  os_port : Z;
}.

Definition getStatus (cfg : UrlOutputConfig) (st : State) : OutputStatus :=
  {| os_mode := "url"; os_ready := ready st;
     os_diskUsageBytes := diskUsageBytes st;
     os_fileCount := JsMap.size (files st);
     os_port := port cfg |}.

(** Nothing tracked has expired at [now]. *)
Definition all_live (now : Z) (st : State) : Prop :=
  Forall (λ kv, now ≤ expiresAt kv.2) (files st).

(** The base of the URLs that [store] hands out. *)
Definition url_base (cfg : UrlOutputConfig) : string :=
  if decide (baseUrl cfg = EmptyString)
  then "http://localhost:" ++ pretty (port cfg)
  else baseUrl cfg.

End UrlMore.

(** ** Further names of the build cache *)

Module BundleMore.
Import DynamicBundler BundleSpec.

(** The entry point that [bundle] hands to the backend. *)
Definition entryPoint (b : Bundler) (env : BundleEnv) : string :=
  Fs.join (Fs.join (projectDir b env) "src") "index.ts".

(** The cache holds no path for [key] that a probe would accept. *)
Definition cache_miss (key : string) (w : World) : Prop :=
  ∀ path, bundleCache w !! key = Some path →
          path = EmptyString ∨ Fs.exists_ path (fs w) = false.

End BundleMore.

(** ** Further sample values *)

Module MoreSamples.

(** A backend that writes into its output directory and then rejects. *)
Definition failing_backend : DynamicBundler.BundlerModule :=
  {| DynamicBundler.bundle_impl :=
       λ _ outDir d,
         (Throw "bundle failed",
          <[Fs.join outDir "index.html" := Fs.File []]> d) |}.

Definition broken_bundler : DynamicBundler.Bundler :=
  {| DynamicBundler.cacheDir := "/work/bundles";
     DynamicBundler.bundler := Some failing_backend;
     DynamicBundler.scaffold := Samples.no_scaffold |}.

(** The bundler whose module failed to load. *)
Definition absent_bundler : DynamicBundler.Bundler :=
  {| DynamicBundler.cacheDir := "/work/bundles";
     DynamicBundler.bundler := None;
     DynamicBundler.scaffold := Samples.no_scaffold |}.

(** One still: a title scene of two seconds, as jpeg. *)
Definition hi_still : RenderEngine.RenderImageParams :=
  {| RenderEngine.scene :=
       {| RenderEngine.type := RenderEngine.title;
          RenderEngine.duration := 2%float;
          RenderEngine.content :=
            RenderEngine.JObject [("title", RenderEngine.JString "Hi")] |};
     RenderEngine.ri_theme := None;
     RenderEngine.ri_settings :=
       Some {| RenderEngine.is_width := Some 640%float;
               RenderEngine.is_height := None;
               RenderEngine.is_format := Some RenderEngine.jpeg |};
     RenderEngine.ri_frame := None |}.

(** A renderer that writes one byte to the requested output. *)
Definition renderer : RenderEngine.RendererModule :=
  {| RenderEngine.selectComposition_impl :=
       λ _ cid _ d,
         (Ok {| comp_id := cid; comp_width := 1280%float;
                comp_height := 720%float; comp_fps := 25%float;
                comp_durationInFrames := 1%float;
                comp_props := "{}" |}, d);
     RenderEngine.renderMedia_impl :=
       λ _ _ _ out _ _ d, (Ok tt, <[out := Fs.File [x01%byte]]> d);
     RenderEngine.renderStill_impl :=
       λ _ _ out _ _ _ d, (Ok tt, <[out := Fs.File [x02%byte]]> d) |}.

(** A file system that holds the engine's work directory and nothing
    else. *)
Definition work_world : World :=
  {| fs := {[ "/work" := Fs.Dir ]}; bundleCache := ∅; calls := [] |}.

End MoreSamples.

(** ** Further names for the render job *)

Module RenderMore.
Import RenderEngine.

Definition resolved_image_format (params : RenderImageParams) : ImageFormat :=
  match ri_settings params with
  | Some s => default png (is_format s)
  | None => png
  end.

Definition resolved_image_width (params : RenderImageParams)
  : JsNumber.number :=
  num_or (ri_settings params ≫= is_width) 1920%float.

Definition resolved_image_height (params : RenderImageParams)
  : JsNumber.number :=
  num_or (ri_settings params ≫= is_height) 1080%float.

(** Where [renderImage] has the backend or the mock write its output. *)
Definition image_outputPath (e : Engine) (env : RenderEnv)
    (params : RenderImageParams) : string :=
  Fs.join (job_workDir e env)
          ("output." ++ image_format_name (resolved_image_format params)).

Definition image_mimeType (f : ImageFormat) : string :=
  match f with jpeg => "image/jpeg" | png => "image/png" end.

(** The placeholder payload of a mock still. *)
Definition mock_image (e : Engine) (params : RenderImageParams)
  : list Byte.byte :=
  String.list_byte_of_string ("Mock image: " ++ stringify_image e params).

(** The template source that a render compiles: [templateCode ||
    this.defaultTemplateCode]. *)
Definition template_source (e : Engine) (templateCode : option string)
  : string :=
  str_or templateCode (defaultTemplateCode e).

(** A computation that calls no backend, leaves the cache table alone
    and changes no path outside [d]. *)
Definition confined {A} (d : string) (m : M A) : Prop :=
  ∀ w r w', m w = (r, w') →
    calls w' = calls w ∧ bundleCache w' = bundleCache w
    ∧ ∀ p, Fs.under d p = false → fs w' !! p = fs w !! p.

(** The composition that [renderVideo] hands to [renderMedia]. *)
Definition video_composition (params : RenderVideoParams)
    (c : Composition) : Composition :=
  with_settings c (RenderSpec.resolved_width params)
    (RenderSpec.resolved_height params) (RenderSpec.resolved_fps params)
    (JsNumber.Math_ceil
       (totalDuration (scenes params) * RenderSpec.resolved_fps params)%float).

(** The composition that [renderImage] hands to [renderStill]. *)
Definition still_composition (params : RenderImageParams)
    (c : Composition) : Composition :=
  with_settings c (resolved_image_width params)
    (resolved_image_height params) 30%float
    (JsNumber.Math_ceil (duration (scene params) * 30)%float).

End RenderMore.

(** ** The remote store: [StorageHandler] (src/output/storageHandler.ts) *)

Module StorageHandler.

Record StorageOutputConfig := {
  endpoint : string;
  apiKey : string;
}.

Record FileData := {
  buffer : list Byte.byte;
  mimeType : string;
  filename : string;
  metadata : option UrlHandler.Metadata;
}.

Record OutputResult := {
  url : string;
  or_metadata : option UrlHandler.Metadata;
  or_expiresAt : option string;
}.

(** A tool argument: a string, or the base64 text of a buffer. *)
Inductive ArgValue : Type :=
| ArgText (s : string)
| ArgBase64 (data : list Byte.byte).

(** The JSON-RPC method of a request with its [params]. *)
Inductive RpcCall : Type :=
| ToolsList
| ToolsCall (name : string) (arguments : list (string * ArgValue)).

(** One [fetch]: always a POST of JSON; what varies is the URL, the
    [Authorization] header, the [id] and the call. *)
Record Request := {
  rq_url : string;
  rq_authorization : string;
  rq_id : Z;
  rq_call : RpcCall;
}.

Record ContentItem := {
  ci_type : string;
  ci_text : option string;
}.

Record ResultBody := {
  content : option (list ContentItem);
}.

(** The parsed body, of the type that [callTool] casts it to. *)
Record RpcReply := {
  rp_result : option ResultBody;
  rp_error : option string;      (* error.message *)
}.

Record HttpResponse := {
  rs_ok : bool;
  rs_status : Z;
  rs_statusText : string;
  rs_json : outcome RpcReply;    (* response.json() *)
}.

(** The service, as one [fetch] sees it. *)
Definition Remote := Request → outcome HttpResponse.

Record StorageClient := {
  cl_endpoint : string;
  cl_apiKey : string;
}.

(** The fields of the handler, and the requests it has sent so far. *)
Record State := {
  config : StorageOutputConfig;
  client : option StorageClient;
  ready : bool;
  error : option string;
  sent : list Request;
}.

Definition create (cfg : StorageOutputConfig) : State :=
  {| config := cfg; client := None; ready := false; error := None;
     sent := [] |}.

Definition set_error (msg : string) (st : State) : State :=
  {| config := config st; client := client st; ready := ready st;
     error := Some msg; sent := sent st |}.

Definition set_client (c : StorageClient) (st : State) : State :=
  {| config := config st; client := Some c; ready := ready st;
     error := error st; sent := sent st |}.

Definition set_ready (st : State) : State :=
  {| config := config st; client := client st; ready := true;
     error := error st; sent := sent st |}.

Definition mk_request (c : StorageClient) (now : Z) (call : RpcCall)
  : Request :=
  {| rq_url := cl_endpoint c;
     rq_authorization := "Bearer " ++ cl_apiKey c;
     rq_id := now;
     rq_call := call |}.

(** [fetch(...)]: the request goes out, the service answers or the call
    rejects. *)
Definition fetch (remote : Remote) (rq : Request) (st : State)
  : outcome HttpResponse * State :=
  (remote rq,
   {| config := config st; client := client st; ready := ready st;
      error := error st; sent := (sent st ++ [rq])%list |}).

(** The part of [callTool] after the body is parsed. *)
Definition extract_url (result : RpcReply) : outcome string :=
  match rp_error result with
  | Some message => Throw ("Storage service error: " ++ message)
  | None =>
      match rp_result result ≫= content with
      | None | Some [] =>
          Throw "Invalid storage service response: no content"
      | Some items =>
          match List.find (λ c, bool_decide (ci_type c = "text")) items with
          | Some textContent =>
              match ci_text textContent with
              | Some text =>
                  if decide (text = EmptyString)
                  then Throw "Invalid storage service response: no URL"
                  else Ok text
              | None => Throw "Invalid storage service response: no URL"
              end
          | None => Throw "Invalid storage service response: no URL"
          end
      end
  end.

Definition callTool (c : StorageClient) (now : Z) (remote : Remote)
    (name : string) (params : list (string * ArgValue)) (st : State)
  : outcome string * State :=
  match fetch remote (mk_request c now (ToolsCall name params)) st with
  | (Ok response, st1) =>
      if negb (rs_ok response)
      then (Throw ("Storage service error: " ++ pretty (rs_status response)
                   ++ " " ++ rs_statusText response), st1)
      else match rs_json response with
           | Ok result => (extract_url result, st1)
           | Throw msg => (Throw msg, st1)
           | Diverge => (Diverge, st1)
           end
  | (Throw msg, st1) => (Throw msg, st1)
  | (Diverge, st1) => (Diverge, st1)
  end.

Definition healthCheck (c : StorageClient) (now : Z) (remote : Remote)
    (st : State) : outcome bool * State :=
  match fetch remote (mk_request c now ToolsList) st with
  | (Ok response, st1) => (Ok (rs_ok response), st1)
  | (Throw _, st1) => (Ok false, st1)
  | (Diverge, st1) => (Diverge, st1)
  end.

Definition initialize (now : Z) (remote : Remote) (st : State)
  : outcome unit * State :=
  if decide (endpoint (config st) = EmptyString)
  then (Throw "No storage endpoint configured",
        set_error "No storage endpoint configured" st)
  else if decide (apiKey (config st) = EmptyString)
  then (Throw "No storage API key configured",
        set_error "No storage API key configured" st)
  else
    let c := {| cl_endpoint := endpoint (config st);
                cl_apiKey := apiKey (config st) |} in
    match healthCheck c now remote (set_client c st) with
    | (Ok healthy, st1) =>
        if negb healthy
        then (Throw "Cannot connect to storage service",
              set_error "Cannot connect to storage service" st1)
        else (Ok tt, set_ready st1)
    | (Throw msg, st1) => (Throw msg, st1)
    | (Diverge, st1) => (Diverge, st1)
    end.

Definition store_arguments (file : FileData) : list (string * ArgValue) :=
  [("data", ArgBase64 (buffer file));
   ("mimeType", ArgText (mimeType file));
   ("filename", ArgText (filename file))].

Definition store (now : Z) (remote : Remote) (file : FileData) (st : State)
  : outcome OutputResult * State :=
  match ready st, client st with
  | true, Some c =>
      match callTool c now remote "storage_store" (store_arguments file) st
      with
      | (Ok result_url, st1) =>
          (Ok {| url := result_url; or_metadata := metadata file;
                 or_expiresAt := None |}, st1)
      | (Throw msg, st1) => (Throw msg, st1)
      | (Diverge, st1) => (Diverge, st1)
      end
  | _, _ => (Throw "StorageHandler not initialized", st)
  end.

(** What can happen to a handler: an [initialize()] or a [store()], with
    any clock and any behaviour of the service. *)
Inductive step : State → State → Prop :=
| step_initialize now remote r st st' :
    initialize now remote st = (r, st') → step st st'
| step_store now remote file r st st' :
    store now remote file st = (r, st') → step st st'.

Definition reachable (cfg : StorageOutputConfig) (st : State) : Prop :=
  rtc step (create cfg) st.

Definition is_health_check (rq : Request) : Prop := rq_call rq = ToolsList.

(** A request addressed and authorised as [cfg] says. *)
Definition addressed (cfg : StorageOutputConfig) (rq : Request) : Prop :=
  rq_url rq = endpoint cfg ∧ rq_authorization rq = "Bearer " ++ apiKey cfg.

(** The upload that [store] sends for [file] at time [now]. *)
Definition upload (cfg : StorageOutputConfig) (now : Z) (file : FileData)
  : Request :=
  {| rq_url := endpoint cfg;
     rq_authorization := "Bearer " ++ apiKey cfg;
     rq_id := now;
     rq_call := ToolsCall "storage_store" (store_arguments file) |}.

(** The health check that [initialize] sends at time [now]. *)
Definition health_request (cfg : StorageOutputConfig) (now : Z) : Request :=
  {| rq_url := endpoint cfg;
     rq_authorization := "Bearer " ++ apiKey cfg;
     rq_id := now;
     rq_call := ToolsList |}.

(** The first content item of type text. *)
Definition first_text (items : list ContentItem) : option ContentItem :=
  List.find (λ c, bool_decide (ci_type c = "text")) items.

(** The invariant of the handler's fields and traffic. *)
Definition inv (cfg : StorageOutputConfig) (st : State) : Prop :=
  config st = cfg
  ∧ match client st with
    | None => sent st = [] ∧ ready st = false
    | Some c =>
        c = {| cl_endpoint := endpoint cfg; cl_apiKey := apiKey cfg |}
        ∧ endpoint cfg ≠ EmptyString ∧ apiKey cfg ≠ EmptyString
        ∧ ∃ rq rest, sent st = rq :: rest ∧ is_health_check rq
    end
  ∧ Forall (addressed cfg) (sent st)
  ∧ (ready st = false → Forall is_health_check (sent st)).

End StorageHandler.

Module StorageSamples.
Import StorageHandler.

Definition cfg : StorageOutputConfig :=
  {| endpoint := "https://store.example/mcp"; apiKey := "bf_test" |}.

(** A configuration without API key. *)
Definition no_key : StorageOutputConfig :=
  {| endpoint := "https://store.example/mcp"; apiKey := EmptyString |}.

Definition reply : RpcReply :=
  {| rp_result :=
       Some {| content :=
                 Some [{| ci_type := "resource"; ci_text := Some "ignored" |};
                       {| ci_type := "text";
                          ci_text := Some "https://files.example/1" |}] |};
     rp_error := None |}.

(** A service that is up and stores what it is sent. *)
Definition service : Remote :=
  λ rq, Ok {| rs_ok := true; rs_status := 200; rs_statusText := "OK";
              rs_json := Ok reply |}.

(** A service that cannot be reached. *)
Definition down : Remote := λ rq, Throw "fetch failed".

Definition clip : FileData :=
  {| buffer := [x00; x01; x02]%byte; mimeType := "video/mp4";
     filename := "video.mp4"; metadata := None |}.

(** The handler after a successful [initialize()] at time [1]. *)
Definition connected : State := (initialize 1 service (create cfg)).2.

End StorageSamples.
(** * Properties *)

(** ** Facts about insertion-ordered maps *)

Module JsMapFacts.
Import JsMap.

Section Facts.
Context {V : Type}.
Implicit Types (m : JsMap.t V) (k : string) (v : V).

Lemma get_elem_of k v m : get k m = Some v → (k, v) ∈ m.
Proof.
  induction m as [|[k' v'] m IH]; simpl; [done|].
  case_decide as Hk.
  - intros [= ->]. subst. left.
  - intros Hg. right. auto.
Qed.

Lemma elem_of_keys k v m : (k, v) ∈ m → k ∈ keys m.
Proof. intros Hin. apply (list_elem_of_fmap_2 fst) in Hin. exact Hin. Qed.

Lemma elem_of_get k v m : NoDup (keys m) → (k, v) ∈ m → get k m = Some v.
Proof.
  induction m as [|[k' v'] m IH]; simpl; intros Hnd Hin.
  - by apply elem_of_nil in Hin.
  - apply NoDup_cons in Hnd as [Hk' Hnd].
    apply elem_of_cons in Hin as [[= <- <-]|Hin].
    + by rewrite decide_True.
    + rewrite decide_False; [by apply IH|].
      intros ->. apply Hk'. by eapply elem_of_keys.
Qed.

Lemma get_None_keys k m : k ∉ keys m → get k m = None.
Proof.
  induction m as [|[k' v'] m IH]; simpl; [done|].
  intros Hk. apply not_elem_of_cons in Hk as [Hne Hk].
  rewrite decide_False by done. by apply IH.
Qed.

Lemma delete_sublist k m : delete k m `sublist_of` m.
Proof.
  induction m as [|[k' v'] m IH]; simpl; [done|].
  case_decide.
  - by apply sublist_cons.
  - by apply sublist_skip.
Qed.

Lemma delete_length k v m :
  get k m = Some v → S (length (delete k m)) = length m.
Proof.
  induction m as [|[k' v'] m IH]; simpl; [done|].
  case_decide; [done|]. intros Hg. simpl. f_equal. auto.
Qed.

Lemma delete_absent k m : get k m = None → delete k m = m.
Proof.
  induction m as [|[k' v'] m IH]; simpl; [done|].
  case_decide; [done|]. intros Hg. f_equal. auto.
Qed.

Lemma Forall_sublist (P : string * V → Prop) m1 m2 :
  m1 `sublist_of` m2 → Forall P m2 → Forall P m1.
Proof.
  induction 1 as [|x l1 l2 _ IH|x l1 l2 _ IH]; intros HF; [done|..].
  - apply Forall_cons in HF as [? ?]. constructor; auto.
  - apply Forall_cons in HF as [? ?]. auto.
Qed.

Lemma keys_sublist m1 m2 :
  m1 `sublist_of` m2 → keys m1 `sublist_of` keys m2.
Proof. intros Hs. unfold keys. by apply fmap_sublist. Qed.

(** Without repeated keys, deleting [k] filters it out. *)
Lemma delete_filter k m :
  NoDup (keys m) → delete k m = filter (λ kv, kv.1 ≠ k) m.
Proof.
  induction m as [|[k' v'] m IH]; intros Hnd; [done|].
  apply NoDup_cons in Hnd as [Hk' Hnd].
  rewrite filter_cons. cbn [delete fst].
  destruct (decide (k' = k)) as [->|Hk].
  - rewrite decide_False by (intros Hne; by apply Hne).
    rewrite <- IH by done. symmetry. apply delete_absent.
    by apply get_None_keys.
  - rewrite decide_True by done. f_equal. auto.
Qed.

Lemma set_keys k v m :
  keys (set k v m) = if decide (k ∈ keys m) then keys m
                     else (keys m ++ [k])%list.
Proof.
  unfold keys. induction m as [|[k' v'] m IH]; [done|].
  cbn [set fmap list_fmap fst].
  destruct (decide (k' = k)) as [->|Hk]; cbn [fmap list_fmap fst].
  - rewrite decide_True by constructor. done.
  - rewrite IH. destruct (decide (k ∈ m.*1)) as [Hin|Hin].
    + rewrite decide_True by (by constructor). done.
    + rewrite decide_False; [done|].
      intros [->|?]%elem_of_cons; done.
Qed.

Lemma set_NoDup k v m : NoDup (keys m) → NoDup (keys (set k v m)).
Proof.
  intros Hnd. rewrite set_keys. case_decide; [done|].
  apply NoDup_app. split_and!; [done| |apply NoDup_singleton].
  intros x Hx [->|Hn]%elem_of_cons; [done|by apply elem_of_nil in Hn].
Qed.

Lemma set_Forall (P : string * V → Prop) k v m :
  P (k, v) → Forall P m → Forall P (set k v m).
Proof.
  intros Hkv. induction m as [|[k' v'] m IH]; simpl; intros HF.
  - by constructor.
  - apply Forall_cons in HF as [? ?].
    case_decide; constructor; auto.
Qed.

Lemma set_length k v m : (length (set k v m) ≤ S (length m))%nat.
Proof.
  induction m as [|[k' v'] m IH]; simpl; [lia|].
  case_decide; simpl; lia.
Qed.

Lemma set_fresh k v m : k ∉ keys m → set k v m = (m ++ [(k, v)])%list.
Proof.
  unfold keys. induction m as [|[k' v'] m IH]; [done|].
  cbn [set fmap list_fmap fst]. intros [Hne Hk]%not_elem_of_cons.
  rewrite decide_False by done. cbn [app]. f_equal. by apply IH.
Qed.

Lemma find_set_fresh (p : V → bool) k v m :
  p v = true → Forall (λ kv, p kv.2 = false) m →
  List.find p (values (set k v m)) = Some v.
Proof.
  intros Hv. unfold values.
  induction 1 as [|[k' v'] m Hv' _ IH]; simpl; [by rewrite Hv|].
  case_decide; simpl in *.
  - by rewrite Hv.
  - by rewrite Hv'.
Qed.

End Facts.
End JsMapFacts.

(** ** Paths *)

Module FsFacts.

Lemma app_cons (c : Ascii.ascii) (a b : string) :
  String c a ++ b = String c (a ++ b).
Proof. reflexivity. Qed.

Lemma app_nil_l (b : string) : EmptyString ++ b = b.
Proof. reflexivity. Qed.

Lemma app_nil_r (a : string) : a ++ EmptyString = a.
Proof.
  induction a as [|x a IH]; [done|]. rewrite app_cons. by rewrite IH.
Qed.

Lemma app_assoc (a b c : string) : (a ++ b) ++ c = a ++ (b ++ c).
Proof.
  induction a as [|x a IH]; [done|]. rewrite !app_cons. by rewrite IH.
Qed.

Lemma prefix_app_cancel (a x y : string) :
  String.prefix (a ++ x) (a ++ y) = String.prefix x y.
Proof.
  induction a as [|c a IH]; [done|]. rewrite !app_cons. simpl.
  destruct (Ascii.ascii_dec c c); [done|congruence].
Qed.

Lemma prefix_split (s1 s2 : string) :
  String.prefix s1 s2 = true → ∃ r, s2 = s1 ++ r.
Proof.
  revert s2. induction s1 as [|c s1 IH]; intros s2.
  - intros _. by exists s2.
  - destruct s2 as [|c' s2]; simpl; [done|].
    destruct (Ascii.ascii_dec c c') as [<-|]; [|done].
    intros [r ->]%IH. exists r. by rewrite app_cons.
Qed.

(** A path at or below [d] is [d] followed by nothing or by a slash and
    more. *)
Lemma under_split (d p : string) :
  Fs.under d p = true → ∃ r, p = d ++ r.
Proof.
  unfold Fs.under. intros [Heq|Hpre]%orb_true_iff.
  - apply bool_decide_eq_true in Heq as ->. exists EmptyString.
    by rewrite app_nil_r.
  - apply prefix_split in Hpre as [r ->]. exists ("/" ++ r).
    by rewrite app_assoc.
Qed.

(** Two children of one directory whose names differ in the first
    character: nothing is at or below both. *)
Lemma under_siblings (root : string) (c1 c2 : Ascii.ascii) (n1 n2 p : string) :
  c1 ≠ c2 →
  Fs.under (Fs.join root (String c2 n2)) p = true →
  Fs.under (Fs.join root (String c1 n1)) p = false.
Proof.
  intros Hne [r ->]%under_split. unfold Fs.under, Fs.join.
  apply orb_false_iff. split.
  - apply bool_decide_eq_false. rewrite !app_assoc.
    intros Heq%String.app_inj. rewrite !app_cons, !app_nil_l in Heq.
    congruence.
  - rewrite !app_assoc, prefix_app_cancel. rewrite !app_cons, !app_nil_l.
    simpl.
    destruct (Ascii.ascii_dec _ _); [|done].
    by destruct (Ascii.ascii_dec c1 c2).
Qed.

Lemma prefix_app (a x : string) : String.prefix a (a ++ x) = true.
Proof.
  induction a as [|c a IH].
  - rewrite app_nil_l. by destruct x.
  - rewrite app_cons. simpl. destruct (Ascii.ascii_dec c c); [done|congruence].
Qed.

Lemma under_join (d name : string) : Fs.under d (Fs.join d name) = true.
Proof.
  unfold Fs.under, Fs.join. apply orb_true_iff. right.
  rewrite <- app_assoc. apply prefix_app.
Qed.

Lemma under_refl (d : string) : Fs.under d d = true.
Proof. unfold Fs.under. by rewrite bool_decide_eq_true_2. Qed.

Lemma app_cons_ne (a : string) (c : Ascii.ascii) (s : string) :
  a ++ String c s ≠ a.
Proof.
  intros Heq. apply (f_equal String.length) in Heq.
  revert Heq. induction a as [|x a IH]; [done|].
  rewrite app_cons. simpl. intros [= Heq]. auto.
Qed.

Lemma join_ne (d name : string) : Fs.join d name ≠ d.
Proof. unfold Fs.join. rewrite app_cons. apply app_cons_ne. Qed.

Lemma rm_rf_other (d p : string) (fs : Fs.t) :
  Fs.under d p = false → Fs.rm_rf d fs !! p = fs !! p.
Proof.
  intros Hp. unfold Fs.rm_rf. destruct (fs !! p) as [x|] eqn:Hx.
  - by apply map_lookup_filter_Some_2.
  - apply map_lookup_filter_None_2. by left.
Qed.

Lemma rm_rf_gone (d p : string) (fs : Fs.t) :
  Fs.under d p = true → Fs.rm_rf d fs !! p = None.
Proof.
  intros Hp. unfold Fs.rm_rf. apply map_lookup_filter_None_2. right.
  intros x _. simpl. by rewrite Hp.
Qed.

End FsFacts.

(** ** Facts about the local store *)

Module UrlFacts.
Import UrlHandler UrlInv.

Implicit Types (m : JsMap.t FileEntry) (st : State) (k : string)
  (e : FileEntry).

Lemma fold_sizes m acc :
  fold_left (λ sum f, sum + size f) (JsMap.values m) acc
  = acc + total_size m.
Proof.
  revert acc. induction m as [|[k e] m IH]; intros acc; simpl; [lia|].
  rewrite IH. lia.
Qed.

Lemma diskUsageBytes_total st : diskUsageBytes st = total_size (files st).
Proof. unfold diskUsageBytes. by rewrite fold_sizes. Qed.

Lemma total_size_nonneg m : sizes_nonneg m → 0 ≤ total_size m.
Proof.
  induction 1 as [|[k e] m He _ IH]; simpl in *; lia.
Qed.

Lemma total_size_delete k e m :
  JsMap.get k m = Some e →
  total_size (JsMap.delete k m) = total_size m - size e.
Proof.
  induction m as [|[k' e'] m IH]; simpl; [done|].
  case_decide.
  - intros [= ->]. lia.
  - intros Hg. simpl. rewrite IH by done. lia.
Qed.

Lemma total_size_sublist m1 m2 :
  m1 `sublist_of` m2 → sizes_nonneg m2 → total_size m1 ≤ total_size m2.
Proof.
  induction 1 as [|[k e] l1 l2 _ IH|[k e] l1 l2 _ IH]; intros HF; [done|..];
    apply Forall_cons in HF as [He HF]; simpl in *; specialize (IH HF); lia.
Qed.

Lemma total_size_set k e m :
  sizes_nonneg m → total_size (JsMap.set k e m) ≤ total_size m + size e.
Proof.
  induction 1 as [|[k' e'] m He _ IH]; simpl in *; [lia|].
  case_decide; simpl; lia.
Qed.

(** *** [removeFile] *)

Lemma removeFile_files k st :
  files (removeFile k st) = JsMap.delete k (files st).
Proof.
  unfold removeFile. destruct (JsMap.get k (files st)) eqn:Hg; simpl; [done|].
  by rewrite JsMapFacts.delete_absent.
Qed.

Lemma removeFile_ready k st : ready (removeFile k st) = ready st.
Proof. unfold removeFile. by destruct (JsMap.get k (files st)). Qed.

Lemma unlink_subseteq p (d d' : Fs.t) : Fs.unlink p d = Some d' → d' ⊆ d.
Proof.
  unfold Fs.unlink. destruct (d !! p) as [[]|]; try done.
  intros [= <-]. apply delete_subseteq.
Qed.

Lemma removeFile_disk_subseteq k st : disk (removeFile k st) ⊆ disk st.
Proof.
  unfold removeFile. destruct (JsMap.get k (files st)); simpl; [|done].
  destruct (Fs.unlink _ _) eqn:Hu; [|done]. by eapply unlink_subseteq.
Qed.

Lemma removeFile_disk_other k st p :
  (∀ e, JsMap.get k (files st) = Some e → filepath e ≠ p) →
  disk (removeFile k st) !! p = disk st !! p.
Proof.
  unfold removeFile. destruct (JsMap.get k (files st)) as [e|]; simpl; [|done].
  intros Hp. specialize (Hp e eq_refl). unfold Fs.unlink.
  destruct (disk st !! filepath e) as [[]|]; try done.
  by rewrite lookup_delete_ne.
Qed.

Lemma keyed_sublist m1 m2 : m1 `sublist_of` m2 → keyed m2 → keyed m1.
Proof.
  intros Hs [HF Hnd]. split.
  - by eapply JsMapFacts.Forall_sublist.
  - eapply sublist_NoDup; [exact Hnd|]. by apply JsMapFacts.keys_sublist.
Qed.

Lemma wf_shrink st st' :
  ready st' = ready st → files st' `sublist_of` files st → wf st → wf st'.
Proof.
  intros Hr Hs (Hready & Hk & Hsz). split_and!.
  - congruence.
  - by eapply keyed_sublist.
  - by eapply JsMapFacts.Forall_sublist.
Qed.

Lemma removeFile_sublist k st :
  files (removeFile k st) `sublist_of` files st.
Proof. rewrite removeFile_files. apply JsMapFacts.delete_sublist. Qed.

Lemma removeFile_wf k st : wf st → wf (removeFile k st).
Proof.
  apply wf_shrink; [apply removeFile_ready | apply removeFile_sublist].
Qed.

(** *** [findLRU] *)

Lemma findLRU_fold_Some (l : list FileEntry) a :
  is_Some (fold_left findLRU_step l (Some a)).
Proof.
  revert a. induction l as [|x l IH]; intros a; simpl; [by eexists|].
  destruct (lastAccessedAt x <? lastAccessedAt a); apply IH.
Qed.

Lemma findLRU_fold_in (l : list FileEntry) acc e :
  fold_left findLRU_step l acc = Some e → e ∈ l ∨ acc = Some e.
Proof.
  revert acc. induction l as [|x l IH]; intros acc; simpl; [by right|].
  intros Hf. apply IH in Hf as [Hin|Hacc]; [left; by right|].
  destruct acc as [a|]; simpl in Hacc.
  - destruct (lastAccessedAt x <? lastAccessedAt a).
    + injection Hacc as ->. left. by left.
    + by right.
  - injection Hacc as ->. left. by left.
Qed.

Lemma findLRU_in st e : findLRU st = Some e → e ∈ JsMap.values (files st).
Proof.
  unfold findLRU. intros Hf. by apply findLRU_fold_in in Hf as [?|?].
Qed.

Lemma findLRU_None st : findLRU st = None → files st = [].
Proof.
  unfold findLRU. destruct (files st) as [|[k e] m]; [done|]. simpl.
  intros Hf. by destruct (findLRU_fold_Some (JsMap.values m) e) as [? ?];
    simplify_eq.
Qed.

(** The entry that [findLRU] returns is the one stored under its [id]. *)
Lemma findLRU_get st e :
  keyed (files st) → findLRU st = Some e →
  JsMap.get (id e) (files st) = Some e.
Proof.
  intros [HF Hnd] Hf. apply findLRU_in in Hf.
  apply list_elem_of_fmap in Hf as ([k e'] & -> & Hin). simpl.
  apply JsMapFacts.elem_of_get; [done|].
  rewrite Forall_forall in HF. specialize (HF _ Hin). simpl in HF.
  by subst.
Qed.

(** *** The eviction loops *)

Lemma shrinks_refl st : shrinks st st.
Proof. by split_and!. Qed.

Lemma shrinks_trans st1 st2 st3 :
  shrinks st1 st2 → shrinks st2 st3 → shrinks st1 st3.
Proof.
  intros (? & ? & ?) (? & ? & ?). split_and!.
  - congruence.
  - by etrans.
  - by etrans.
Qed.

Lemma shrinks_removeFile k st : shrinks st (removeFile k st).
Proof.
  split_and!; [apply removeFile_ready | apply removeFile_sublist
              | apply removeFile_disk_subseteq].
Qed.

Lemma shrinks_wf st st' : shrinks st st' → wf st → wf st'.
Proof. intros (? & ? & ?). by apply wf_shrink. Qed.

Lemma removeFile_lru_length st lru :
  keyed (files st) → findLRU st = Some lru →
  S (length (files (removeFile (id lru) st))) = length (files st).
Proof.
  intros Hk Hf. rewrite removeFile_files.
  eapply JsMapFacts.delete_length. by apply findLRU_get.
Qed.

Lemma removeFile_lru_total st lru :
  keyed (files st) → findLRU st = Some lru →
  total_size (files (removeFile (id lru) st))
  = total_size (files st) - size lru.
Proof.
  intros Hk Hf. rewrite removeFile_files.
  apply total_size_delete. by apply findLRU_get.
Qed.

(** The first loop ends, and ends with room for the incoming file or
    with nothing left to evict. *)
Lemma evict_for_size_spec cfg incoming fuel :
  ∀ st, wf st → (length (files st) ≤ fuel)%nat →
  ∃ st', evict_for_size fuel cfg incoming (total_size (files st)) st
         = (Ok tt, st')
       ∧ shrinks st st'
       ∧ (total_size (files st') + incoming ≤ maxDiskBytes cfg
          ∨ files st' = []).
Proof.
  induction fuel as [|fuel IH]; intros st Hwf Hlen.
  - assert (files st = []) as Hnil by (destruct (files st); simpl in *; [done|lia]).
    exists st. simpl. unfold fileCount. rewrite Hnil. simpl.
    rewrite andb_false_r. split_and!; [done|apply shrinks_refl|by right].
  - simpl.
    destruct ((total_size (files st) + incoming >? maxDiskBytes cfg)
              && (fileCount st >? 0)) eqn:Hcond.
    + apply andb_true_iff in Hcond as [Hbig Hpos].
      destruct (findLRU st) as [lru|] eqn:Hf.
      * pose proof Hwf as (_ & Hk & _).
        rewrite <- (removeFile_lru_total st lru Hk Hf).
        destruct (IH (removeFile (id lru) st)) as (st' & -> & Hsh & Hpost).
        { by apply removeFile_wf. }
        { pose proof (removeFile_lru_length st lru Hk Hf). lia. }
        exists st'. split_and!; [done| |done].
        eapply shrinks_trans; [apply shrinks_removeFile|done].
      * exists st. split_and!; [done|apply shrinks_refl|].
        right. by apply findLRU_None.
    + exists st. split_and!; [done|apply shrinks_refl|].
      apply andb_false_iff in Hcond as [Hc|Hc].
      * left. lia.
      * right. destruct (files st) eqn:Hfs; [done|].
        unfold fileCount, JsMap.size in Hc. rewrite Hfs, length_cons in Hc. exfalso. lia.
Qed.

(** The second loop ends, and ends below the cap or with nothing left. *)
Lemma evict_for_count_spec cfg fuel :
  ∀ st, wf st → (length (files st) ≤ fuel)%nat →
  ∃ st', evict_for_count fuel cfg st = (Ok tt, st')
       ∧ shrinks st st'
       ∧ (fileCount st' < maxFiles cfg ∨ files st' = []).
Proof.
  induction fuel as [|fuel IH]; intros st Hwf Hlen.
  - assert (files st = []) as Hnil by (destruct (files st); simpl in *; [done|lia]).
    exists st. simpl. unfold findLRU. rewrite Hnil. simpl.
    destruct (_ >=? _); (split_and!; [done|apply shrinks_refl|by right]).
  - simpl. destruct (fileCount st >=? maxFiles cfg) eqn:Hcond.
    + destruct (findLRU st) as [lru|] eqn:Hf.
      * pose proof Hwf as (_ & Hk & _).
        destruct (IH (removeFile (id lru) st)) as (st' & -> & Hsh & Hpost).
        { by apply removeFile_wf. }
        { pose proof (removeFile_lru_length st lru Hk Hf). lia. }
        exists st'. split_and!; [done| |done].
        eapply shrinks_trans; [apply shrinks_removeFile|done].
      * exists st. split_and!; [done|apply shrinks_refl|].
        right. by apply findLRU_None.
    + exists st. split_and!; [done|apply shrinks_refl|]. left. lia.
Qed.

(** *** The expiry sweep *)

Lemma remove_all_shrinks (ks : list string) st :
  shrinks st (fold_left (λ s k, removeFile k s) ks st).
Proof.
  revert st. induction ks as [|k ks IH]; intros st; simpl.
  - apply shrinks_refl.
  - eapply shrinks_trans; [apply shrinks_removeFile|apply IH].
Qed.

Lemma cleanup_shrinks now st : shrinks st (cleanup now st).
Proof. apply remove_all_shrinks. Qed.

Lemma cleanup_wf now st : wf st → wf (cleanup now st).
Proof. apply shrinks_wf, cleanup_shrinks. Qed.

(** *** [enforceQuotas] *)

Lemma enforceQuotas_too_large cfg now incoming st :
  incoming > maxDiskBytes cfg →
  enforceQuotas cfg now incoming st
  = (Throw ("File too large: " ++ pretty incoming ++ " bytes"),
     cleanup now st).
Proof.
  intros Hbig. unfold enforceQuotas.
  destruct (incoming >? maxDiskBytes cfg) eqn:Hc; [done|lia].
Qed.

Lemma enforceQuotas_ok cfg now incoming st :
  wf st → incoming ≤ maxDiskBytes cfg →
  ∃ st', enforceQuotas cfg now incoming st = (Ok tt, st')
       ∧ shrinks st st'
       ∧ total_size (files st') + incoming ≤ maxDiskBytes cfg
       ∧ (fileCount st' < maxFiles cfg ∨ files st' = []).
Proof.
  intros Hwf Hfit. unfold enforceQuotas.
  destruct (incoming >? maxDiskBytes cfg) eqn:Hc; [lia|].
  pose proof (cleanup_wf now st Hwf) as Hwf1.
  rewrite diskUsageBytes_total.
  destruct (evict_for_size_spec cfg incoming (loop_fuel (cleanup now st))
              (cleanup now st) Hwf1) as (st2 & -> & Hsh2 & Hroom);
    [unfold loop_fuel; lia|].
  pose proof (shrinks_wf _ _ Hsh2 Hwf1) as Hwf2.
  destruct (evict_for_count_spec cfg (loop_fuel st2) st2 Hwf2)
    as (st3 & -> & Hsh3 & Hcap); [unfold loop_fuel; lia|].
  exists st3. split_and!; [done| |  |done].
  - eapply shrinks_trans; [apply cleanup_shrinks|].
    eapply shrinks_trans; [exact Hsh2|exact Hsh3].
  - destruct Hwf2 as (_ & _ & Hsz2). destruct Hsh3 as (_ & Hsub & _).
    pose proof (total_size_sublist _ _ Hsub Hsz2) as Hle.
    destruct Hroom as [Hroom|Hnil]; [lia|].
    rewrite Hnil in Hle. simpl in Hle. lia.
Qed.

(** *** [store] *)

(** A successful [store] is a successful [enforceQuotas], a successful
    write, and the insertion of the new entry. *)
Lemma store_Ok_inv cfg env file st out st' :
  store cfg env file st = (Ok out, st') →
  ∃ st1 d,
    ready st = true
    ∧ enforceQuotas cfg (now_sweep env) (Z.of_nat (length (buffer file))) st
      = (Ok tt, st1)
    ∧ Fs.writeFile (filepath (new_entry cfg env file)) (buffer file)
                   (disk st1) = Some d
    ∧ st' = {| ready := ready st1;
               files := JsMap.set (uuid env) (new_entry cfg env file)
                                  (files st1);
               disk := d |}
    ∧ or_expiresAt out = expiresAt (new_entry cfg env file).
Proof.
  unfold store. destruct (ready st) eqn:Hr; simpl; [|done].
  destruct (enforceQuotas _ _ _ _) as [[[]| |] st1] eqn:He; try done.
  destruct (write_ok env); [|done].
  destruct (Fs.writeFile _ _ _) as [d|] eqn:Hw; [|done].
  destruct (valid_time _); [|done].
  intros [= <- <-]. exists st1, d. by split_and!.
Qed.

Lemma store_wf cfg env file st r st' :
  wf st → store cfg env file st = (r, st') → wf st' ∧ r ≠ Diverge.
Proof.
  intros Hwf. unfold store. pose proof Hwf as (-> & _). simpl.
  destruct (Z_le_gt_dec (Z.of_nat (length (buffer file))) (maxDiskBytes cfg))
    as [Hfit|Hbig].
  - destruct (enforceQuotas_ok cfg (now_sweep env) _ st Hwf Hfit)
      as (st1 & -> & Hsh & _).
    pose proof (shrinks_wf _ _ Hsh Hwf) as (Hr1 & [HF1 Hnd1] & Hsz1).
    destruct (if write_ok env then _ else _) as [d|].
    + intros Hrun.
      assert (wf st' ∧ ∀ x : outcome OutputResult, r = x → x ≠ Diverge)
        as [? Hr]; [|split; [done|by apply (Hr r)]].
      destruct (valid_time _); injection Hrun as <- <-;
        (split; [|by intros x <-]);
        (split_and!; simpl;
         [done
         |split; [by apply JsMapFacts.set_Forall|by apply JsMapFacts.set_NoDup]
         |apply JsMapFacts.set_Forall; [simpl; lia|done]]).
    + intros [= <- <-]. by split.
  - rewrite enforceQuotas_too_large by done.
    intros [= <- <-]. split; [by apply cleanup_wf|done].
Qed.

(** *** [get_file] *)

Lemma touch_first_keys p now m :
  JsMap.keys (touch_first p now m) = JsMap.keys m.
Proof.
  unfold JsMap.keys. induction m as [|[k e] m IH]; [done|].
  cbn [touch_first]. destruct (p e); cbn [fmap list_fmap fst]; [done|].
  f_equal. exact IH.
Qed.

Lemma touch_first_Forall (P : string * FileEntry → Prop) p now m :
  (∀ k e, P (k, e) → P (k, set_lastAccessedAt now e)) →
  Forall P m → Forall P (touch_first p now m).
Proof.
  intros HP. induction 1 as [|[k e] m He Hm IH]; simpl; [done|].
  destruct (p e); constructor; auto.
Qed.

Lemma get_file_wf sf fname q now1 now2 st r st' :
  wf st → get_file sf fname q now1 now2 st = (r, st') → wf st'.
Proof.
  intros Hwf. unfold get_file.
  destruct (List.find _ _) as [e|]; [|by intros [= <- <-]].
  destruct (negb _); [by intros [= <- <-]|].
  destruct (_ >? _); intros [= <- <-]; [done|].
  destruct Hwf as (Hr & [HF Hnd] & Hsz).
  split_and!; cbn [ready files disk]; [done| |].
  - split; [by apply touch_first_Forall|by rewrite touch_first_keys].
  - by apply touch_first_Forall.
Qed.

(** *** Reachable states are well formed *)

Lemma initialize_wf cfg d : wf (initialize cfg (create d)).
Proof.
  split_and!; simpl; [done| |by constructor].
  split; [by constructor|constructor].
Qed.

Lemma step_wf cfg st st' : step cfg st st' → wf st → wf st'.
Proof.
  destruct 1 as [env file r st st' Hs|sf fname q n1 n2 r st st' Hg|now st];
    intros Hwf.
  - by destruct (store_wf _ _ _ _ _ _ Hwf Hs).
  - by eapply get_file_wf.
  - by apply cleanup_wf.
Qed.

Lemma reachable_wf cfg st : reachable cfg st → wf st.
Proof.
  intros [d Hrtc]. pose proof (initialize_wf cfg d) as Hwf.
  induction Hrtc as [|st1 st2 st3 Hstep _ IH]; [done|].
  apply IH. by eapply step_wf.
Qed.

End UrlFacts.

(** ** Quotas of the local store *)

(** X1. With a cap of at least one file, every successful [store()] on
    a reachable store leaves the tracked bytes within [maxDiskBytes] and
    the tracked files within [maxFiles]. *)
Theorem store_keeps_quotas cfg env file st out st' :
  1 ≤ UrlHandler.maxFiles cfg →
  UrlInv.reachable cfg st →
  UrlHandler.store cfg env file st = (Ok out, st') →
  UrlHandler.diskUsageBytes st' ≤ UrlHandler.maxDiskBytes cfg
  ∧ UrlHandler.fileCount st' ≤ UrlHandler.maxFiles cfg.
Proof.
  intros Hcap Hreach Hstore.
  pose proof (UrlFacts.reachable_wf _ _ Hreach) as Hwf.
  apply UrlFacts.store_Ok_inv in Hstore as (st1 & d & _ & Henf & _ & -> & _).
  set (incoming := Z.of_nat (length (UrlHandler.buffer file))) in *.
  destruct (Z_le_gt_dec incoming (UrlHandler.maxDiskBytes cfg)) as [Hfit|Hbig].
  2:{ by rewrite UrlFacts.enforceQuotas_too_large in Henf. }
  destruct (UrlFacts.enforceQuotas_ok cfg (UrlHandler.now_sweep env)
              incoming st Hwf Hfit) as (st1' & Heq & Hsh & Hroom & Hcount).
  rewrite Heq in Henf. injection Henf as <-.
  pose proof (UrlFacts.shrinks_wf _ _ Hsh Hwf) as (_ & _ & Hsz).
  rewrite UrlFacts.diskUsageBytes_total.
  unfold UrlHandler.fileCount, JsMap.size in *. cbn [UrlHandler.files].
  split.
  - pose proof (UrlFacts.total_size_set (UrlHandler.uuid env)
                  (UrlInv.new_entry cfg env file) _ Hsz) as Hset.
    change (UrlHandler.size (UrlInv.new_entry cfg env file))
      with incoming in Hset. lia.
  - pose proof (JsMapFacts.set_length (UrlHandler.uuid env)
                  (UrlInv.new_entry cfg env file) (UrlHandler.files st1')).
    destruct Hcount as [Hlt|Hnil]; [lia|]. rewrite Hnil in *. simpl in *. lia.
Qed.

Lemma store_keeps_quotas_witness :
  UrlHandler.diskUsageBytes
    (UrlHandler.store (Samples.cfg 1 60) (Samples.env "b" 20) Samples.clip
       (UrlHandler.store (Samples.cfg 1 60) (Samples.env "a" 10) Samples.clip
          (Samples.fresh (Samples.cfg 1 60))).2).2 ≤ 1000
  ∧ UrlHandler.fileCount
      (UrlHandler.store (Samples.cfg 1 60) (Samples.env "b" 20) Samples.clip
         (UrlHandler.store (Samples.cfg 1 60) (Samples.env "a" 10)
            Samples.clip (Samples.fresh (Samples.cfg 1 60))).2).2 ≤ 1.
Proof.
  eapply (store_keeps_quotas (Samples.cfg 1 60) (Samples.env "b" 20)
            Samples.clip).
  - simpl. lia.
  - exists ∅. eapply rtc_l; [|apply rtc_refl].
    eapply (UrlInv.step_store _ (Samples.env "a" 10) Samples.clip).
    apply surjective_pairing.
  - vm_compute. reflexivity.
Defined.

(** C1, at [maxFiles = 0]: a [store()] on the freshly initialized store
    succeeds and leaves one tracked file, one more than the cap. *)
Theorem store_exceeds_zero_cap :
  ∃ out st',
    UrlHandler.store (Samples.cfg 0 60) (Samples.env "a" 10) Samples.clip
                     (Samples.fresh (Samples.cfg 0 60)) = (Ok out, st')
    ∧ UrlHandler.fileCount st' = 1
    ∧ UrlHandler.maxFiles (Samples.cfg 0 60) = 0
    ∧ UrlHandler.diskUsageBytes st' ≤ UrlHandler.maxDiskBytes (Samples.cfg 0 60).
Proof.
  eexists _, _. split; [vm_compute; reflexivity|]. by vm_compute.
Qed.

(** ** Retrieval from the local store *)

Module GetFacts.
Import UrlHandler UrlInv.

Lemma lookup_by_name_None fname st :
  lookup_by_name fname st = None
  ↔ ∀ e, e ∈ JsMap.values (files st) → filename e ≠ fname.
Proof.
  unfold lookup_by_name. rewrite <- Forall_forall.
  induction (JsMap.values (files st)) as [|x l IH]; simpl.
  - split; [by constructor|done].
  - case_bool_decide as Hx.
    + split; [done|]. intros HF. by apply Forall_cons in HF as [? _].
    + rewrite IH. split.
      * intros HF. by constructor.
      * intros HF. by apply Forall_cons in HF as [_ ?].
Qed.

Lemma lookup_by_name_Some fname st e :
  lookup_by_name fname st = Some e →
  e ∈ JsMap.values (files st) ∧ filename e = fname.
Proof.
  unfold lookup_by_name. intros Hf. apply find_some in Hf as [Hin Hb].
  split; [by apply list_elem_of_In|]. by apply bool_decide_eq_true in Hb.
Qed.


Lemma get_file_404 sf fname q now1 now2 st :
  lookup_by_name fname st = None →
  get_file sf fname q now1 now2 st
  = (error_response 404 "File not found", st).
Proof. unfold lookup_by_name, get_file. by intros ->. Qed.

Lemma get_file_403 sf fname q now1 now2 st e :
  lookup_by_name fname st = Some e → token_matches e q = false →
  get_file sf fname q now1 now2 st
  = (error_response 403 "Invalid token", st).
Proof. unfold lookup_by_name, get_file. by intros -> ->. Qed.

Lemma get_file_410 sf fname q now1 now2 st e :
  lookup_by_name fname st = Some e → token_matches e q = true →
  now1 > expiresAt e →
  get_file sf fname q now1 now2 st
  = (error_response 410 "File expired", st).
Proof.
  unfold lookup_by_name, get_file. intros -> -> Hexp. simpl.
  destruct (now1 >? expiresAt e) eqn:Hc; [done|lia].
Qed.

(** Past the three refusals the response is what [res.sendFile] makes
    of the entry's path and the two headers. *)
Lemma get_file_pass sf fname q now1 now2 st e :
  lookup_by_name fname st = Some e → token_matches e q = true →
  now1 ≤ expiresAt e →
  get_file sf fname q now1 now2 st
  = (sf (filepath e) (file_headers e) (disk st),
     {| ready := ready st;
        files := touch_first (λ f, bool_decide (filename f = fname)) now2
                             (files st);
        disk := disk st |}).
Proof.
  unfold lookup_by_name, get_file. intros -> -> Hexp. simpl.
  destruct (now1 >? expiresAt e) eqn:Hc; [lia|done].
Qed.

(** The handler refuses and returns the state it found, or it passes
    an entry on to [res.sendFile]. *)
Lemma get_file_cases sf fname q now1 now2 st :
  (∃ code msg,
     (code = 404 ∨ code = 403 ∨ code = 410)
     ∧ ∀ sf', get_file sf' fname q now1 now2 st
              = (error_response code msg, st))
  ∨ (∃ e, lookup_by_name fname st = Some e
          ∧ token_matches e q = true ∧ now1 ≤ expiresAt e
          ∧ (get_file sf fname q now1 now2 st).1
            = sf (filepath e) (file_headers e) (disk st)).
Proof.
  unfold get_file, lookup_by_name.
  destruct (List.find _ _) as [e|]; [|left; eexists _, _; by split; [left|]].
  destruct (token_matches e q) eqn:Htok; cbn [negb];
    [|left; eexists _, _; by split; [right; left|]].
  destruct (now1 >? expiresAt e) eqn:Hexp;
    [left; eexists _, _; by split; [right; right|]|].
  right. exists e. split_and!; [done|done|lia|done].
Qed.

End GetFacts.

Lemma token_matches_spec e q :
  UrlHandler.token_matches e q = true ↔ q = UrlHandler.QString (UrlHandler.token e).
Proof.
  destruct q as [|s|]; simpl; [done| |done].
  rewrite bool_decide_eq_true. split; [by intros ->|by intros [= ->]].
Qed.

(** ** Tracked files are on disk *)

Module DiskFacts.
Import UrlHandler UrlInv.

Lemma stem_app (k w t : string) :
  stem w = Some t → stem (k ++ w) = Some (k ++ t).
Proof.
  intros Hw. induction k as [|c k IH]; [done|].
  rewrite !FsFacts.app_cons. simpl. by rewrite IH.
Qed.

Lemma stem_getExtension mime : stem (getExtension mime) = Some EmptyString.
Proof. unfold getExtension. by repeat case_decide. Qed.

(** The path of an entry determines its key. *)
Lemma path_key dir k1 k2 mime1 mime2 :
  Fs.join dir (k1 ++ getExtension mime1)
  = Fs.join dir (k2 ++ getExtension mime2) → k1 = k2.
Proof.
  unfold Fs.join. intros Heq%String.app_inj%String.app_inj.
  apply (f_equal stem) in Heq.
  rewrite !(stem_app _ _ EmptyString) in Heq by apply stem_getExtension.
  rewrite !FsFacts.app_nil_r in Heq. by injection Heq.
Qed.

Lemma removeFile_on_disk cfg k st :
  all_on_disk cfg st → all_on_disk cfg (removeFile k st).
Proof.
  intros [Hnd HF]. split.
  { eapply sublist_NoDup; [exact Hnd|].
    apply JsMapFacts.keys_sublist, UrlFacts.removeFile_sublist. }
  unfold removeFile. destruct (JsMap.get k (files st)) as [e|] eqn:Hg; [|done].
  cbn [files disk]. rewrite JsMapFacts.delete_filter by done.
  apply JsMapFacts.get_elem_of in Hg.
  rewrite Forall_forall in HF. pose proof (HF _ Hg) as [Hpe _].
  apply Forall_forall. intros [k' e'] [Hne Hin]%list_elem_of_filter.
  destruct (HF _ Hin) as [Hp (data & Hd & Hsz)]. simpl in *.
  split; [done|]. exists data. split; [|done].
  unfold Fs.unlink. destruct (disk st !! filepath e) as [[]|]; try done.
  rewrite lookup_delete_ne; [done|].
  intros Heq. simpl in Heq. rewrite Hp, Hpe in Heq.
  apply path_key in Heq. congruence.
Qed.

Lemma remove_all_on_disk cfg (ks : list string) st :
  all_on_disk cfg st →
  all_on_disk cfg (fold_left (λ s k, removeFile k s) ks st).
Proof.
  revert st. induction ks as [|k ks IH]; intros st H; simpl; [done|].
  by apply IH, removeFile_on_disk.
Qed.

Lemma evict_for_size_on_disk cfg fuel incoming cur st :
  all_on_disk cfg st →
  all_on_disk cfg (evict_for_size fuel cfg incoming cur st).2.
Proof.
  revert cur st. induction fuel as [|fuel IH]; intros cur st H; simpl.
  - destruct (_ && _); [|done]. by destruct (findLRU st).
  - destruct (_ && _); [|done]. destruct (findLRU st); [|done].
    by apply IH, removeFile_on_disk.
Qed.

Lemma evict_for_count_on_disk cfg fuel st :
  all_on_disk cfg st → all_on_disk cfg (evict_for_count fuel cfg st).2.
Proof.
  revert st. induction fuel as [|fuel IH]; intros st H; simpl.
  - destruct (_ >=? _); [|done]. by destruct (findLRU st).
  - destruct (_ >=? _); [|done]. destruct (findLRU st); [|done].
    by apply IH, removeFile_on_disk.
Qed.

Lemma enforceQuotas_on_disk cfg now incoming st :
  all_on_disk cfg st → all_on_disk cfg (enforceQuotas cfg now incoming st).2.
Proof.
  intros H. unfold enforceQuotas.
  pose proof (remove_all_on_disk cfg (expired_ids now (files st)) st H) as H1.
  fold (cleanup now st) in H1.
  destruct (incoming >? maxDiskBytes cfg); [done|].
  pose proof (evict_for_size_on_disk cfg (loop_fuel (cleanup now st))
                incoming (diskUsageBytes (cleanup now st)) _ H1) as H2.
  destruct (evict_for_size _ _ _ _ _) as [[[]|msg|] st2]; cbn [snd] in *;
    [|done|done].
  by apply evict_for_count_on_disk.
Qed.

Lemma set_on_disk cfg k e m (d : Fs.t) data :
  filepath e = Fs.join (serveDir cfg) (k ++ getExtension (mimeType e)) →
  size e = Z.of_nat (length data) →
  NoDup (JsMap.keys m) →
  Forall (on_disk cfg d) m →
  Forall (on_disk cfg (<[filepath e := Fs.File data]> d)) (JsMap.set k e m).
Proof.
  intros Hpe Hse Hnd HF.
  assert (Hold : Forall (λ kv, kv.1 ≠ k →
                         on_disk cfg (<[filepath e := Fs.File data]> d) kv) m).
  { eapply Forall_impl; [exact HF|]. intros [k' e'] [Hp (data' & Hd & Hsz)] Hne.
    simpl in *. split; [done|]. exists data'. split; [|done].
    rewrite lookup_insert_ne; [done|].
    intros Heq. simpl in Heq. rewrite Hp, Hpe in Heq.
    apply path_key in Heq. congruence. }
  assert (Hnew : on_disk cfg (<[filepath e := Fs.File data]> d) (k, e)).
  { split; [done|]. exists data. by rewrite lookup_insert_eq. }
  clear HF. induction m as [|[k' e'] m IH]; simpl.
  - by constructor.
  - apply Forall_cons in Hold as [Hhd Htl].
    apply NoDup_cons in Hnd as [Hk' Hnd]. case_decide as Hk.
    + subst k'. constructor; [done|].
      rewrite Forall_forall in Htl |- *. intros [k2 e2] Hin.
      apply Htl; [done|]. simpl. intros ->.
      apply Hk'. by eapply JsMapFacts.elem_of_keys.
    + constructor; [by apply Hhd|]. by apply IH.
Qed.

Lemma store_on_disk cfg env file st r st' :
  all_on_disk cfg st → store cfg env file st = (r, st') → all_on_disk cfg st'.
Proof.
  intros H. unfold store. destruct (negb (ready st)); [by intros [= <- <-]|].
  pose proof (enforceQuotas_on_disk cfg (now_sweep env)
                (Z.of_nat (length (buffer file))) st H) as H1.
  destruct (enforceQuotas _ _ _ _) as [[[]|msg|] st1]; cbn [snd] in H1;
    [|by intros [= <- <-]..].
  destruct (write_ok env); [|by intros [= <- <-]].
  unfold Fs.writeFile.
  destruct H1 as [Hnd HF].
  assert (all_on_disk cfg
            {| ready := ready st1;
               files := JsMap.set (uuid env) (new_entry cfg env file)
                                  (files st1);
               disk := <[filepath (new_entry cfg env file)
                         := Fs.File (buffer file)]> (disk st1) |}) as Hnew.
  { split; cbn [files disk].
    - by apply JsMapFacts.set_NoDup.
    - by apply set_on_disk. }
  destruct (disk st1 !! _) as [[|data]|];
    [by intros [= <- <-]| |];
    (destruct (valid_time _); by intros [= <- <-]).
Qed.

Lemma touch_first_in p now m kv :
  kv ∈ touch_first p now m →
  ∃ e, (kv.1, e) ∈ m ∧ (kv.2 = e ∨ kv.2 = set_lastAccessedAt now e).
Proof.
  induction m as [|[k e] m IH]; simpl; [by intros ?%elem_of_nil|].
  destruct (p e).
  - intros [->|Hin]%elem_of_cons.
    + exists e. split; [by left|by right].
    + exists kv.2. split; [right; by destruct kv|by left].
  - intros [->|Hin]%elem_of_cons.
    + exists e. split; [by left|by left].
    + destruct (IH Hin) as (e' & Hin' & He'). exists e'. split; [by right|done].
Qed.

Lemma get_file_on_disk cfg sf fname q now1 now2 st r st' :
  all_on_disk cfg st → get_file sf fname q now1 now2 st = (r, st') →
  all_on_disk cfg st'.
Proof.
  intros H. unfold get_file.
  destruct (List.find _ _) as [e|]; [|by intros [= <- <-]].
  destruct (negb _); [by intros [= <- <-]|].
  destruct (_ >? _); intros [= <- <-]; [done|].
  destruct H as [Hnd HF]. split; cbn [files disk].
  - by rewrite UrlFacts.touch_first_keys.
  - rewrite Forall_forall in HF |- *. intros [k x] Hin.
    apply touch_first_in in Hin as (e' & Hin & [Heq|Heq]);
      simpl in Hin, Heq; subst x.
    + by apply HF.
    + by destruct (HF _ Hin) as [Hp Hd].
Qed.

Lemma reachable_on_disk cfg st : reachable cfg st → all_on_disk cfg st.
Proof.
  intros [d Hrtc].
  assert (all_on_disk cfg (initialize cfg (create d))) as H0.
  { split; simpl; constructor. }
  induction Hrtc as [|st1 st2 st3 Hstep _ IH]; [done|].
  apply IH. destruct Hstep as [env file r st st' Hs|sf fname q n1 n2 r st st' Hg
                              |now st].
  - by eapply store_on_disk.
  - by eapply get_file_on_disk.
  - by apply remove_all_on_disk.
Qed.

(** In a reachable store the file of a tracked entry is on disk, with
    as many bytes as the entry records. *)
Lemma tracked_file_on_disk cfg st fname e :
  reachable cfg st → lookup_by_name fname st = Some e →
  ∃ data, disk st !! filepath e = Some (Fs.File data)
          ∧ size e = Z.of_nat (length data).
Proof.
  intros [_ HF]%reachable_on_disk [Hin _]%GetFacts.lookup_by_name_Some.
  apply list_elem_of_fmap in Hin as ([k x] & -> & Hin).
  rewrite Forall_forall in HF. by destruct (HF _ Hin) as [_ Hd].
Qed.

End DiskFacts.




(** C10. A [GET /files/:filename] that the handler answers with 404,
    403 or 410 (a status that does not depend on what [res.sendFile]
    would do) leaves the whole state of the store as it was: the tracked
    entries with all their fields, and the disk. On a store reached from
    initialization every request that ends in one of these statuses is
    such a refusal, and leaves the state as it was, as long as
    [res.sendFile] answers none of them for a file that is on disk. *)
Theorem failed_get_changes_nothing fname q now1 now2 st :
  ((∀ sendFile,
      UrlHandler.status
        (UrlHandler.get_file sendFile fname q now1 now2 st).1 = 404
      ∨ UrlHandler.status
          (UrlHandler.get_file sendFile fname q now1 now2 st).1 = 403
      ∨ UrlHandler.status
          (UrlHandler.get_file sendFile fname q now1 now2 st).1 = 410) →
   ∀ sendFile, (UrlHandler.get_file sendFile fname q now1 now2 st).2 = st)
  ∧ ∀ cfg sendFile,
      UrlInv.reachable cfg st →
      (∀ path hs d data,
         d !! path = Some (Fs.File data) →
         UrlHandler.status (sendFile path hs d) ≠ 404
         ∧ UrlHandler.status (sendFile path hs d) ≠ 403
         ∧ UrlHandler.status (sendFile path hs d) ≠ 410) →
      UrlHandler.status
        (UrlHandler.get_file sendFile fname q now1 now2 st).1 = 404
      ∨ UrlHandler.status
          (UrlHandler.get_file sendFile fname q now1 now2 st).1 = 403
      ∨ UrlHandler.status
          (UrlHandler.get_file sendFile fname q now1 now2 st).1 = 410 →
      (UrlHandler.get_file sendFile fname q now1 now2 st).2 = st.
Proof.
  split.
  - intros Hfail sendFile.
    set (ok := (λ _ _ _, {| UrlHandler.status := 200;
                            UrlHandler.headers := [];
                            UrlHandler.body := UrlHandler.ErrorPage |})
               : UrlHandler.SendFile).
    destruct (GetFacts.get_file_cases ok fname q now1 now2 st)
      as [(code & msg & _ & Hrefused)|(e & _ & _ & _ & Hpass)].
    + by rewrite Hrefused.
    + specialize (Hfail ok). rewrite Hpass in Hfail.
      by destruct Hfail as [?|[?|?]].
  - intros cfg sendFile Hreach Hsf Hfail.
    destruct (GetFacts.get_file_cases sendFile fname q now1 now2 st)
      as [(code & msg & _ & Hrefused)|(e & He & _ & _ & Hpass)].
    + by rewrite Hrefused.
    + destruct (DiskFacts.tracked_file_on_disk cfg st fname e Hreach He)
        as (data & Hdisk & _).
      rewrite Hpass in Hfail.
      destruct (Hsf (UrlHandler.filepath e) (UrlHandler.file_headers e)
                    (UrlHandler.disk st) data Hdisk) as (H404 & H403 & H410).
      by destruct Hfail as [?|[?|?]].
Qed.

(** An expired clip asked for with its own token: 410, and the entry
    stays tracked. *)
Lemma failed_get_changes_nothing_witness :
  (UrlHandler.get_file Samples.sendFile "a.mp4" (UrlHandler.QString "tok-a")
     5000 5000 Samples.one_clip).2 = Samples.one_clip.
Proof.
  apply (proj1 (failed_get_changes_nothing "a.mp4"
                  (UrlHandler.QString "tok-a") 5000 5000 Samples.one_clip)).
  intros sendFile. right. right. vm_compute. reflexivity.
Defined.

(** ** The expiry sweep, exactly *)

Module SweepFacts.
Import UrlHandler UrlInv.

Lemma filter_ext_in {A} (P Q : A → Prop) `{!∀ x, Decision (P x)}
    `{!∀ x, Decision (Q x)} (l : list A) :
  (∀ x, x ∈ l → P x ↔ Q x) → filter P l = filter Q l.
Proof.
  induction l as [|x l IH]; intros Hext; [done|].
  rewrite !filter_cons.
  rewrite IH by (intros y Hy; apply Hext; by right).
  destruct (decide (P x)) as [HP|HP], (decide (Q x)) as [HQ|HQ]; try done;
    exfalso; apply (Hext x) in HP || apply (Hext x) in HQ; try done; by left.
Qed.

Lemma filter_all {A} (P : A → Prop) `{!∀ x, Decision (P x)} (l : list A) :
  Forall P l → filter P l = l.
Proof.
  induction 1 as [|x l Hx _ IH]; [done|].
  rewrite filter_cons_True by done. by rewrite IH.
Qed.

Lemma remove_all_files (ks : list string) st :
  NoDup (JsMap.keys (files st)) →
  files (fold_left (λ s k, removeFile k s) ks st)
  = filter (λ kv, kv.1 ∉ ks) (files st).
Proof.
  revert st. induction ks as [|k ks IH]; intros st Hnd; simpl.
  - symmetry. apply filter_all. apply Forall_forall. intros x _.
    apply not_elem_of_nil.
  - rewrite IH.
    + rewrite UrlFacts.removeFile_files, JsMapFacts.delete_filter by done.
      rewrite list_filter_filter. apply list_filter_iff. intros [k' e]. simpl.
      rewrite not_elem_of_cons. tauto.
    + eapply sublist_NoDup; [exact Hnd|].
      apply JsMapFacts.keys_sublist, UrlFacts.removeFile_sublist.
Qed.

Lemma elem_of_expired_ids now m k :
  k ∈ expired_ids now m ↔ ∃ e, (k, e) ∈ m ∧ now > expiresAt e.
Proof.
  unfold expired_ids. rewrite list_elem_of_fmap. split.
  - intros ([k' e] & -> & [Hexp Hin]%list_elem_of_filter). by exists e.
  - intros (e & Hin & Hexp). exists (k, e). split; [done|].
    by apply list_elem_of_filter.
Qed.

(** On a map without repeated keys the sweep keeps exactly the entries
    that have not expired. *)
Lemma cleanup_files now st :
  NoDup (JsMap.keys (files st)) →
  files (cleanup now st) = filter (λ kv, ¬ expired now kv) (files st).
Proof.
  intros Hnd. unfold cleanup. rewrite remove_all_files by done.
  apply filter_ext_in. intros [k e] Hin. unfold expired. simpl.
  rewrite elem_of_expired_ids. split.
  - intros Hno Hexp. apply Hno. by exists e.
  - intros Hno (e' & Hin' & Hexp). apply Hno.
    pose proof (JsMapFacts.elem_of_get _ _ _ Hnd Hin) as H1.
    pose proof (JsMapFacts.elem_of_get _ _ _ Hnd Hin') as H2.
    congruence.
Qed.

Lemma remove_all_disk (ks : list string) st p :
  (∀ k e, k ∈ ks → (k, e) ∈ files st → filepath e ≠ p) →
  disk (fold_left (λ s k, removeFile k s) ks st) !! p = disk st !! p.
Proof.
  revert st. induction ks as [|k ks IH]; intros st Hp; simpl; [done|].
  rewrite IH.
  - apply UrlFacts.removeFile_disk_other. intros e He.
    apply (Hp k e); [by left|]. by apply JsMapFacts.get_elem_of.
  - intros k' e Hk' Hin. apply (Hp k' e); [by right|].
    eapply sublist_subseteq; [apply UrlFacts.removeFile_sublist|done].
Qed.

(** The sweep deletes no file but those of expired entries. *)
Lemma cleanup_disk now st p :
  NoDup (JsMap.keys (files st)) →
  (∀ kv, kv ∈ files st → expired now kv → filepath kv.2 ≠ p) →
  disk (cleanup now st) !! p = disk st !! p.
Proof.
  intros Hnd Hp. apply remove_all_disk. intros k e Hk Hin.
  apply elem_of_expired_ids in Hk as (e' & Hin' & Hexp).
  pose proof (JsMapFacts.elem_of_get _ _ _ Hnd Hin) as H1.
  pose proof (JsMapFacts.elem_of_get _ _ _ Hnd Hin') as H2.
  assert (e' = e) as -> by congruence.
  by apply (Hp (k, e)).
Qed.

Lemma cleanup_nothing_expired now st :
  Forall (λ kv, now ≤ expiresAt kv.2) (files st) → cleanup now st = st.
Proof.
  intros HF. unfold cleanup, expired_ids.
  replace (filter _ (files st)) with (@nil (string * FileEntry)); [done|].
  symmetry. induction HF as [|[k e] m He _ IH]; [done|].
  rewrite filter_cons. simpl in *. rewrite decide_False by lia. done.
Qed.

End SweepFacts.

(** C3. A [store()] of more bytes than [maxDiskBytes] throws. The state
    it leaves is the state after the expiry sweep: the tracked entries
    are exactly the ones that had not expired (nothing inserted, no live
    entry evicted), no path of the disk gained or changed content, and
    a path that is not the file of an expired entry is as it was. *)
Theorem store_too_large_is_rejected cfg env file st :
  UrlInv.reachable cfg st →
  Z.of_nat (length (UrlHandler.buffer file)) > UrlHandler.maxDiskBytes cfg →
  ∃ msg st',
    UrlHandler.store cfg env file st = (Throw msg, st')
    ∧ UrlHandler.ready st' = UrlHandler.ready st
    ∧ UrlHandler.files st'
      = filter (λ kv, ¬ UrlInv.expired (UrlHandler.now_sweep env) kv)
               (UrlHandler.files st)
    ∧ UrlHandler.disk st' ⊆ UrlHandler.disk st
    ∧ ∀ p, (∀ kv, kv ∈ UrlHandler.files st
                  → UrlInv.expired (UrlHandler.now_sweep env) kv
                  → UrlHandler.filepath kv.2 ≠ p)
           → UrlHandler.disk st' !! p = UrlHandler.disk st !! p.
Proof.
  intros Hreach Hbig.
  pose proof (UrlFacts.reachable_wf _ _ Hreach) as (Hready & [_ Hnd] & _).
  eexists _, (UrlHandler.cleanup (UrlHandler.now_sweep env) st).
  split_and!.
  - unfold UrlHandler.store. rewrite Hready. cbn [negb].
    by rewrite UrlFacts.enforceQuotas_too_large.
  - apply UrlFacts.cleanup_shrinks.
  - by apply SweepFacts.cleanup_files.
  - apply UrlFacts.cleanup_shrinks.
  - intros p Hp. by apply SweepFacts.cleanup_disk.
Qed.

Lemma one_clip_reachable : UrlInv.reachable (Samples.cfg 3 1) Samples.one_clip.
Proof.
  exists ∅. eapply rtc_l; [|apply rtc_refl].
  eapply (UrlInv.step_store _ (Samples.env "a" 0) Samples.clip).
  apply surjective_pairing.
Qed.

Lemma store_too_large_is_rejected_witness :
  ∃ msg st',
    UrlHandler.store (Samples.cfg 3 1) (Samples.env "b" 5000)
      Samples.big_clip Samples.one_clip = (Throw msg, st')
    ∧ UrlHandler.ready st' = UrlHandler.ready Samples.one_clip
    ∧ UrlHandler.files st'
      = filter (λ kv, ¬ UrlInv.expired 5000 kv)
               (UrlHandler.files Samples.one_clip)
    ∧ UrlHandler.disk st' ⊆ UrlHandler.disk Samples.one_clip
    ∧ ∀ p, (∀ kv, kv ∈ UrlHandler.files Samples.one_clip
                  → UrlInv.expired 5000 kv
                  → UrlHandler.filepath kv.2 ≠ p)
           → UrlHandler.disk st' !! p = UrlHandler.disk Samples.one_clip !! p.
Proof.
  apply (store_too_large_is_rejected (Samples.cfg 3 1)
           (Samples.env "b" 5000) Samples.big_clip Samples.one_clip).
  - apply one_clip_reachable.
  - vm_compute. reflexivity.
Defined.

(** ** Expiry of a stored entry *)

Lemma enforceQuotas_sublist cfg now incoming st st1 :
  UrlInv.wf st →
  UrlHandler.enforceQuotas cfg now incoming st = (Ok tt, st1) →
  UrlInv.shrinks st st1.
Proof.
  intros Hwf Henf.
  destruct (Z_le_gt_dec incoming (UrlHandler.maxDiskBytes cfg)) as [Hfit|Hbig].
  - destruct (UrlFacts.enforceQuotas_ok cfg now incoming st Hwf Hfit)
      as (st1' & Heq & Hsh & _). congruence.
  - by rewrite UrlFacts.enforceQuotas_too_large in Henf.
Qed.

(** After a successful [store()] under a file name that was not in use,
    a lookup by that name finds the new entry. *)
Lemma store_lookup cfg env file st out st' :
  UrlInv.reachable cfg st →
  UrlHandler.store cfg env file st = (Ok out, st') →
  (∀ kv, kv ∈ UrlHandler.files st →
         UrlHandler.filename kv.2
         ≠ UrlHandler.filename (UrlInv.new_entry cfg env file)) →
  UrlInv.lookup_by_name
    (UrlHandler.filename (UrlInv.new_entry cfg env file)) st'
  = Some (UrlInv.new_entry cfg env file).
Proof.
  intros Hreach Hstore Hfresh.
  pose proof (UrlFacts.reachable_wf _ _ Hreach) as Hwf.
  apply UrlFacts.store_Ok_inv in Hstore as (st1 & d & _ & Henf & _ & -> & _).
  apply enforceQuotas_sublist in Henf as (_ & Hsub & _); [|done].
  unfold UrlInv.lookup_by_name. cbn [UrlHandler.files].
  apply JsMapFacts.find_set_fresh; [by apply bool_decide_eq_true|].
  apply Forall_forall. intros kv Hkv. apply bool_decide_eq_false.
  apply Hfresh. by eapply sublist_subseteq.
Qed.

(** C4, as the code has it. The entry of a successful [store()] has
    [expiresAt = createdAt + ttlSeconds * 1000], later than [createdAt]
    when [ttlSeconds > 0]. Whatever the state, a request made at a time
    [now > expiresAt] of the entry found is refused by the handler
    itself, 403 on a wrong token and else 410, without a call of
    [res.sendFile] and with the state left alone. For the stored entry,
    under a fresh file name: a request with its token at a time
    [now ≤ expiresAt] (the instant [expiresAt] included) passes the
    checks, so that the response is the one that [res.sendFile] makes of
    the entry's file, which is on disk; with [ttlSeconds = 1] the file
    is passed on at [createdAt] and the request is answered 410 after
    more than 1000 ms. *)
Theorem stored_entry_expiry cfg env file st out st' :
  UrlInv.reachable cfg st →
  UrlHandler.store cfg env file st = (Ok out, st') →
  (∀ kv, kv ∈ UrlHandler.files st →
         UrlHandler.filename kv.2
         ≠ UrlHandler.filename (UrlInv.new_entry cfg env file)) →
  let e := UrlInv.new_entry cfg env file in
  let get := λ sendFile q now1 now2,
    UrlHandler.get_file sendFile (UrlHandler.filename e) q now1 now2 st' in
  let refused := λ (r : UrlHandler.Response * UrlHandler.State) st2,
    r = (UrlHandler.error_response 403 "Invalid token", st2)
    ∨ r = (UrlHandler.error_response 410 "File expired", st2) in
  let passed := λ (sendFile : UrlHandler.SendFile)
                  (r : UrlHandler.Response * UrlHandler.State),
    r.1 = sendFile (UrlHandler.filepath e) (UrlHandler.file_headers e)
                   (UrlHandler.disk st') in
  UrlInv.lookup_by_name (UrlHandler.filename e) st' = Some e
  ∧ UrlHandler.or_expiresAt out = UrlHandler.expiresAt e
  ∧ UrlHandler.expiresAt e
    = UrlHandler.createdAt e + UrlHandler.ttlSeconds cfg * 1000
  ∧ (0 < UrlHandler.ttlSeconds cfg
     → UrlHandler.createdAt e < UrlHandler.expiresAt e)
  ∧ (∀ sendFile st2 fname q now1 now2 e2,
       UrlInv.lookup_by_name fname st2 = Some e2
       → now1 > UrlHandler.expiresAt e2
       → refused (UrlHandler.get_file sendFile fname q now1 now2 st2) st2)
  ∧ (∀ sendFile q now1 now2, now1 > UrlHandler.expiresAt e
       → refused (get sendFile q now1 now2) st')
  ∧ (∃ data,
       UrlHandler.disk st' !! UrlHandler.filepath e = Some (Fs.File data)
       ∧ UrlHandler.size e = Z.of_nat (length data))
  ∧ (∀ sendFile now1 now2, now1 ≤ UrlHandler.expiresAt e
       → passed sendFile
           (get sendFile (UrlHandler.QString (UrlHandler.token e)) now1 now2))
  ∧ (UrlHandler.ttlSeconds cfg = 1
     → (∀ sendFile now2,
          passed sendFile
            (get sendFile (UrlHandler.QString (UrlHandler.token e))
                 (UrlHandler.createdAt e) now2))
       ∧ ∀ sendFile now1 now2, now1 > UrlHandler.createdAt e + 1000
           → get sendFile (UrlHandler.QString (UrlHandler.token e)) now1 now2
             = (UrlHandler.error_response 410 "File expired", st')).
Proof.
  intros Hreach Hstore Hfresh e get refused passed.
  pose proof (store_lookup _ _ _ _ _ _ Hreach Hstore Hfresh) as Hlook.
  fold e in Hlook.
  assert (Htok : UrlHandler.token_matches e
                   (UrlHandler.QString (UrlHandler.token e)) = true)
    by (by apply token_matches_spec).
  assert (Hrefuse : ∀ sendFile st2 fname q now1 now2 e2,
            UrlInv.lookup_by_name fname st2 = Some e2
            → now1 > UrlHandler.expiresAt e2
            → refused (UrlHandler.get_file sendFile fname q now1 now2 st2)
                      st2).
  { intros sendFile st2 fname q now1 now2 e2 He2 Hexp. subst refused.
    cbn beta. destruct (UrlHandler.token_matches e2 q) eqn:Hm.
    - right. by erewrite GetFacts.get_file_410.
    - left. by erewrite GetFacts.get_file_403. }
  assert (Hreach' : UrlInv.reachable cfg st').
  { destruct Hreach as [d Hrtc]. exists d.
    eapply rtc_r; [exact Hrtc|]. by eapply UrlInv.step_store. }
  split_and!.
  - done.
  - by apply UrlFacts.store_Ok_inv in Hstore as (? & ? & _ & _ & _ & _ & ?).
  - done.
  - simpl. lia.
  - exact Hrefuse.
  - intros sendFile q now1 now2 Hexp. subst get. cbn beta.
    by apply (Hrefuse _ _ _ _ _ _ e).
  - by eapply DiskFacts.tracked_file_on_disk.
  - intros sendFile now1 now2 Hlive. subst get passed. cbn beta.
    by erewrite GetFacts.get_file_pass.
  - intros Httl. split.
    + intros sendFile now2. subst get passed. cbn beta.
      erewrite GetFacts.get_file_pass; [done|done|done|].
      subst e. unfold UrlInv.new_entry.
      cbn [UrlHandler.createdAt UrlHandler.expiresAt]. lia.
    + intros sendFile now1 now2 Hlate. subst get. cbn beta.
      erewrite GetFacts.get_file_410; [done|done|done|].
      subst e. unfold UrlInv.new_entry in *.
      cbn [UrlHandler.createdAt UrlHandler.expiresAt] in *. lia.
Qed.

Lemma stored_entry_expiry_witness :
  UrlInv.lookup_by_name "b.mp4"
    (UrlHandler.store (Samples.cfg 3 1) (Samples.env "b" 500) Samples.clip
                      Samples.one_clip).2
  = Some (UrlInv.new_entry (Samples.cfg 3 1) (Samples.env "b" 500)
                           Samples.clip).
Proof.
  refine (proj1 (stored_entry_expiry (Samples.cfg 3 1) (Samples.env "b" 500)
                   Samples.clip Samples.one_clip _ _
                   one_clip_reachable _ _)).
  - vm_compute. reflexivity.
  - intros kv Hkv. vm_compute in Hkv.
    apply list_elem_of_singleton in Hkv as ->. vm_compute. discriminate.
Defined.

(** C4, as stated, fails at the instant [expiresAt]: the clip stored at
    time [0] with a TTL of one second expires at [1000], and a request
    at time [1000] is not refused: the handler passes the file, which is
    on disk with the stored bytes, to [res.sendFile], and one that sends
    the files it finds answers 200. *)
Lemma served_at_the_expiry_instant :
  ∃ out st',
    UrlHandler.store (Samples.cfg 3 1) (Samples.env "a" 0) Samples.clip
                     (Samples.fresh (Samples.cfg 3 1)) = (Ok out, st')
    ∧ UrlHandler.or_expiresAt out = 1000
    ∧ (1000 >= UrlHandler.or_expiresAt out)%Z
    ∧ UrlHandler.disk st' !! "/srv/a.mp4"
      = Some (Fs.File (UrlHandler.buffer Samples.clip))
    ∧ (∀ sendFile,
         (UrlHandler.get_file sendFile "a.mp4" (UrlHandler.QString "tok-a")
                              1000 1000 st').1
         = sendFile "/srv/a.mp4"
             (UrlHandler.file_headers
                (UrlInv.new_entry (Samples.cfg 3 1) (Samples.env "a" 0)
                                  Samples.clip))
             (UrlHandler.disk st'))
    ∧ UrlHandler.status
        (UrlHandler.get_file Samples.sendFile "a.mp4"
           (UrlHandler.QString "tok-a") 1000 1000 st').1 = 200.
Proof.
  eexists _, _. split; [vm_compute; reflexivity|].
  split_and!; [done|by vm_compute|by vm_compute| |by vm_compute].
  intros sendFile. vm_compute. reflexivity.
Qed.

(** ** Least-recently-used eviction *)

Module LruFacts.
Import UrlHandler UrlInv.

Lemma findLRU_fold_min (l : list FileEntry) acc r :
  fold_left findLRU_step l acc = Some r →
  (∀ a, acc = Some a → lastAccessedAt r ≤ lastAccessedAt a)
  ∧ ∀ x, x ∈ l → lastAccessedAt r ≤ lastAccessedAt x.
Proof.
  revert acc. induction l as [|y l IH]; intros acc Hf; simpl in Hf.
  - split; [|by intros x ?%elem_of_nil]. intros a ->. injection Hf as ->. lia.
  - apply IH in Hf as [Hacc Hl]. destruct acc as [a|]; simpl in Hacc.
    + destruct (lastAccessedAt y <? lastAccessedAt a) eqn:Hc.
      * specialize (Hacc y eq_refl). split.
        -- intros a' [= <-]. lia.
        -- intros x [->|Hx]%elem_of_cons; [lia|auto].
      * specialize (Hacc a eq_refl). split.
        -- by intros a' [= <-].
        -- intros x [->|Hx]%elem_of_cons; [lia|auto].
    + specialize (Hacc y eq_refl). split; [done|].
      intros x [->|Hx]%elem_of_cons; [lia|auto].
Qed.

(** [findLRU] returns an entry that no tracked entry precedes in time
    of last access. *)
Lemma findLRU_min st lru :
  findLRU st = Some lru →
  ∀ x, x ∈ JsMap.values (files st) → lastAccessedAt lru ≤ lastAccessedAt x.
Proof. intros Hf. by apply findLRU_fold_min in Hf as [_ ?]. Qed.

Lemma evict_for_size_fits fuel cfg incoming cur st :
  cur + incoming ≤ maxDiskBytes cfg →
  evict_for_size fuel cfg incoming cur st = (Ok tt, st).
Proof.
  intros Hfit.
  assert ((cur + incoming >? maxDiskBytes cfg) = false) as Hc by lia.
  destruct fuel; simpl; by rewrite Hc.
Qed.

(** With the map exactly at the cap, the second loop evicts the entry
    that [findLRU] names and stops. *)
Lemma evict_for_count_at_cap cfg st lru :
  wf st → 1 ≤ maxFiles cfg → fileCount st = maxFiles cfg →
  findLRU st = Some lru →
  evict_for_count (loop_fuel st) cfg st = (Ok tt, removeFile (id lru) st).
Proof.
  intros (_ & Hk & _) Hcap Hfull Hf.
  pose proof (UrlFacts.removeFile_lru_length st lru Hk Hf) as Hlen.
  unfold loop_fuel. destruct (length (files st)) as [|n] eqn:Hn; [done|].
  cbn [evict_for_count]. rewrite Hf.
  assert ((fileCount st >=? maxFiles cfg) = true) as -> by lia.
  assert ((fileCount (removeFile (id lru) st) >=? maxFiles cfg) = false) as Hc.
  { unfold fileCount, JsMap.size in *. lia. }
  destruct n; simpl; by rewrite Hc.
Qed.

End LruFacts.

(** C9. A reachable store holds exactly A, B and C, last accessed at 1,
    5 and 3, none expired; the cap is three files and the disk quota has
    room. A [store()] under a new id (that writes its file and whose
    expiry is a valid date) then evicts A: the tracked entries become
    B, C and the new file, and A is tracked no more. *)
Theorem lru_evicts_least_recent cfg env file st a b c :
  UrlInv.reachable cfg st →
  UrlHandler.files st
    ≡ₚ [(UrlHandler.id a, a); (UrlHandler.id b, b); (UrlHandler.id c, c)] →
  UrlHandler.lastAccessedAt a = 1 →
  UrlHandler.lastAccessedAt b = 5 →
  UrlHandler.lastAccessedAt c = 3 →
  UrlHandler.maxFiles cfg = 3 →
  UrlHandler.diskUsageBytes st + Z.of_nat (length (UrlHandler.buffer file))
    ≤ UrlHandler.maxDiskBytes cfg →
  Forall (λ kv, UrlHandler.now_sweep env ≤ UrlHandler.expiresAt kv.2)
         (UrlHandler.files st) →
  UrlHandler.uuid env ∉ JsMap.keys (UrlHandler.files st) →
  UrlHandler.write_ok env = true →
  UrlHandler.disk st !! UrlHandler.filepath (UrlInv.new_entry cfg env file)
    = None →
  UrlHandler.valid_time (UrlHandler.expiresAt (UrlInv.new_entry cfg env file))
    = true →
  ∃ out st',
    UrlHandler.store cfg env file st = (Ok out, st')
    ∧ UrlHandler.files st'
        ≡ₚ [(UrlHandler.id b, b); (UrlHandler.id c, c);
            (UrlHandler.uuid env, UrlInv.new_entry cfg env file)]
    ∧ JsMap.get (UrlHandler.id a) (UrlHandler.files st') = None.
Proof.
  intros Hreach Hperm Ha Hb Hc Hcap Hroom Hlive Hnew Hwrite Hpath Htime.
  pose proof (UrlFacts.reachable_wf _ _ Hreach) as Hwf.
  pose proof Hwf as (Hready & [_ Hnd] & Hsz). pose proof Hnd as Hnd0.
  rewrite UrlFacts.diskUsageBytes_total in Hroom.
  pose proof (UrlFacts.total_size_nonneg _ Hsz) as Hpos.
  (* the ids of A, B and C differ, and differ from the new one *)
  assert (Hkeys : JsMap.keys (UrlHandler.files st)
                  ≡ₚ [UrlHandler.id a; UrlHandler.id b; UrlHandler.id c]).
  { unfold JsMap.keys. by rewrite Hperm. }
  rewrite Hkeys in Hnd, Hnew.
  apply NoDup_cons in Hnd as [Hab Hnd]. apply NoDup_cons in Hnd as [Hbc _].
  repeat rewrite not_elem_of_cons in Hab.
  repeat rewrite not_elem_of_cons in Hbc.
  repeat rewrite not_elem_of_cons in Hnew.
  destruct Hab as (Hab & Hac & _), Hbc as (Hbc & _),
    Hnew as (Hna & Hnb & Hnc & _).
  (* findLRU picks A *)
  destruct (UrlHandler.findLRU st) as [lru|] eqn:Hf.
  2:{ apply UrlFacts.findLRU_None in Hf. rewrite Hf in Hperm.
      by apply Permutation_nil_cons in Hperm. }
  assert (lru = a) as ->.
  { pose proof (UrlFacts.findLRU_in _ _ Hf) as Hin.
    pose proof (LruFacts.findLRU_min _ _ Hf) as Hmin.
    unfold JsMap.values in Hin, Hmin. rewrite Hperm in Hin.
    assert (a ∈ (UrlHandler.files st).*2) as Hain
      by (rewrite Hperm; simpl; by left).
    specialize (Hmin a Hain). simpl in Hin.
    repeat (apply elem_of_cons in Hin as [->|Hin]); [done|lia|lia|].
    by apply elem_of_nil in Hin. }
  (* the run of store() *)
  assert (Hcount : UrlHandler.fileCount st = 3).
  { unfold UrlHandler.fileCount, JsMap.size. by rewrite Hperm. }
  set (st2 := UrlHandler.removeFile (UrlHandler.id a) st).
  assert (Henf : UrlHandler.enforceQuotas cfg (UrlHandler.now_sweep env)
                   (Z.of_nat (length (UrlHandler.buffer file))) st
                 = (Ok tt, st2)).
  { unfold UrlHandler.enforceQuotas.
    rewrite SweepFacts.cleanup_nothing_expired by done.
    assert ((Z.of_nat (length (UrlHandler.buffer file))
               >? UrlHandler.maxDiskBytes cfg) = false) as -> by lia.
    rewrite UrlFacts.diskUsageBytes_total.
    rewrite LruFacts.evict_for_size_fits by done.
    apply LruFacts.evict_for_count_at_cap; [done|lia|lia|done]. }
  assert (Hfiles2 : UrlHandler.files st2
                    ≡ₚ [(UrlHandler.id b, b); (UrlHandler.id c, c)]).
  { subst st2. rewrite UrlFacts.removeFile_files.
    rewrite JsMapFacts.delete_filter by done.
    rewrite Hperm. rewrite !filter_cons. simpl.
    rewrite decide_False by (intros Hne; by apply Hne).
    rewrite !decide_True by done. done. }
  assert (Hdisk2 : UrlHandler.disk st2
                   !! UrlHandler.filepath (UrlInv.new_entry cfg env file)
                   = None).
  { eapply lookup_weaken_None; [exact Hpath|].
    apply UrlFacts.removeFile_disk_subseteq. }
  assert (Hnew2 : UrlHandler.uuid env ∉ JsMap.keys (UrlHandler.files st2)).
  { unfold JsMap.keys. rewrite Hfiles2. simpl.
    repeat rewrite not_elem_of_cons.
    split_and!; [done|done|apply not_elem_of_nil]. }
  eexists _, _. split_and!.
  - unfold UrlHandler.store. rewrite Hready. cbn [negb]. rewrite Henf, Hwrite.
    unfold UrlInv.new_entry in Hdisk2, Htime.
    cbn [UrlHandler.filepath UrlHandler.expiresAt] in Hdisk2, Htime.
    unfold Fs.writeFile. rewrite Hdisk2. cbn [UrlHandler.expiresAt].
    rewrite Htime. reflexivity.
  - cbn [UrlHandler.files]. fold (UrlInv.new_entry cfg env file).
    rewrite JsMapFacts.set_fresh by done. rewrite Hfiles2. done.
  - cbn [UrlHandler.files]. fold (UrlInv.new_entry cfg env file).
    apply JsMapFacts.get_None_keys.
    rewrite JsMapFacts.set_fresh by done. unfold JsMap.keys.
    rewrite fmap_app, Hfiles2. simpl.
    repeat rewrite not_elem_of_cons.
    split_and!; [done|done|intros Heq; by apply Hna|apply not_elem_of_nil].
Qed.

Lemma abc_reachable : UrlInv.reachable (Samples.cfg 3 60) Samples.abc.
Proof.
  exists ∅.
  eapply rtc_l.
  { eapply (UrlInv.step_store _ (Samples.env "a" 1) Samples.clip).
    apply surjective_pairing. }
  eapply rtc_l.
  { eapply (UrlInv.step_store _ (Samples.env "b" 2) Samples.clip).
    apply surjective_pairing. }
  eapply rtc_l.
  { eapply (UrlInv.step_store _ (Samples.env "c" 3) Samples.clip).
    apply surjective_pairing. }
  eapply rtc_l; [|apply rtc_refl].
  eapply (UrlInv.step_get _ Samples.sendFile "b.mp4"
                          (UrlHandler.QString "tok-b") 5 5).
  apply surjective_pairing.
Qed.

Lemma abc_files :
  UrlHandler.files Samples.abc
  = [(UrlHandler.id Samples.entry_a, Samples.entry_a);
     (UrlHandler.id Samples.entry_b, Samples.entry_b);
     (UrlHandler.id Samples.entry_c, Samples.entry_c)].
Proof. vm_compute. reflexivity. Qed.

Lemma lru_evicts_least_recent_witness :
  ∃ out st',
    UrlHandler.store (Samples.cfg 3 60) (Samples.env "d" 10) Samples.clip
                     Samples.abc = (Ok out, st')
    ∧ UrlHandler.files st'
        ≡ₚ [(UrlHandler.id Samples.entry_b, Samples.entry_b);
            (UrlHandler.id Samples.entry_c, Samples.entry_c);
            (UrlHandler.uuid (Samples.env "d" 10),
             UrlInv.new_entry (Samples.cfg 3 60) (Samples.env "d" 10)
                              Samples.clip)]
    ∧ JsMap.get (UrlHandler.id Samples.entry_a) (UrlHandler.files st') = None.
Proof.
  apply (lru_evicts_least_recent (Samples.cfg 3 60) (Samples.env "d" 10)
           Samples.clip Samples.abc
           Samples.entry_a Samples.entry_b Samples.entry_c).
  - apply abc_reachable.
  - by rewrite abc_files.
  - reflexivity.
  - reflexivity.
  - reflexivity.
  - reflexivity.
  - vm_compute. discriminate.
  - rewrite abc_files. repeat constructor; vm_compute; discriminate.
  - unfold JsMap.keys. rewrite abc_files. vm_compute.
    intros Hin. repeat (apply elem_of_cons in Hin as [Hin|Hin]; [discriminate|]).
    by apply elem_of_nil in Hin.
  - reflexivity.
  - vm_compute. reflexivity.
  - vm_compute. reflexivity.
Defined.

(** ** The cache key *)

Module HashFacts.
Import DynamicBundler HashSpec.

Lemma toInt32_range z : int32 (toInt32 z).
Proof.
  unfold int32, toInt32.
  pose proof (Z.mod_pos_bound (z + 2 ^ 31) (2 ^ 32) eq_refl). lia.
Qed.

(** [ToInt32] sees its argument modulo [2^32]. *)
Lemma toInt32_congr a b : (a - b) mod 2 ^ 32 = 0 → toInt32 a = toInt32 b.
Proof.
  intros Hab. unfold toInt32. f_equal.
  apply Z.mod_divide in Hab as [k Hk]; [|done].
  replace (a + 2 ^ 31) with (b + 2 ^ 31 + k * 2 ^ 32) by lia.
  by rewrite Z.mod_add.
Qed.

Lemma toInt32_mod_eq z : (toInt32 z - z) mod 2 ^ 32 = 0.
Proof.
  unfold toInt32.
  rewrite (Z.mod_eq (z + 2 ^ 31) (2 ^ 32)) by done.
  replace (z + 2 ^ 31 - 2 ^ 32 * ((z + 2 ^ 31) / 2 ^ 32) - 2 ^ 31 - z)
    with (- ((z + 2 ^ 31) / 2 ^ 32) * 2 ^ 32) by lia.
  apply Z.mod_mul. done.
Qed.

(** One turn of the loop of [hashCode] is [int32(31·hash + char)]. *)
Lemma hash_step_spec hash c :
  hash_step hash c = toInt32 (31 * hash + charCode c).
Proof.
  unfold hash_step. rewrite Z.land_diag.
  apply toInt32_congr. rewrite Z.shiftl_mul_pow2 by done.
  destruct (Z.mod_divide (toInt32 (toInt32 hash * 2 ^ 5) - toInt32 hash * 2 ^ 5)
              (2 ^ 32) ltac:(done)) as [Hd1 _].
  destruct (Hd1 (toInt32_mod_eq _)) as [k1 Hk1].
  destruct (Z.mod_divide (toInt32 hash - hash) (2 ^ 32) ltac:(done))
    as [Hd2 _].
  destruct (Hd2 (toInt32_mod_eq _)) as [k2 Hk2].
  replace (toInt32 (toInt32 hash * 2 ^ 5) - hash + charCode c
           - (31 * hash + charCode c))
    with ((k1 + 32 * k2) * 2 ^ 32) by lia.
  apply Z.mod_mul. done.
Qed.

Lemma hash_fold_spec (l : list Ascii.ascii) h :
  fold_left hash_step l h
  = fold_left (λ h c, toInt32 (31 * h + charCode c)) l h.
Proof.
  revert h. induction l as [|c l IH]; intros h; simpl; [done|].
  by rewrite hash_step_spec, IH.
Qed.

Lemma hashCode_spec str :
  hashCode str = toString16 (Z.abs (rolling_hash32 str)).
Proof. unfold hashCode, rolling_hash32. by rewrite hash_fold_spec. Qed.

Lemma rolling_hash32_range str : int32 (rolling_hash32 str).
Proof.
  unfold rolling_hash32.
  assert (int32 0) as H0 by (unfold int32; lia). revert H0.
  generalize 0. induction (String.list_ascii_of_string str) as [|c l IH];
    intros h Hh; simpl; [done|].
  apply IH, toInt32_range.
Qed.

End HashFacts.

(** C8, as the code has it. The cache key of [bundle()] is the template
    name, a dash, and the hash of the source text alone: the 32-bit
    rolling hash [h ← int32(31·h + code unit)], in absolute value,
    written in base 16. Equal arguments give equal keys. *)
Theorem cacheKey_is_name_dash_hash templateCode templateName :
  DynamicBundler.cacheKey templateCode templateName
  = templateName ++ "-"
    ++ DynamicBundler.toString16 (Z.abs (HashSpec.rolling_hash32 templateCode))
  ∧ HashSpec.int32 (HashSpec.rolling_hash32 templateCode)
  ∧ ∀ templateCode' templateName',
      (templateCode' = templateCode ∧ templateName' = templateName) →
      DynamicBundler.cacheKey templateCode' templateName'
      = DynamicBundler.cacheKey templateCode templateName.
Proof.
  split_and!.
  - unfold DynamicBundler.cacheKey. by rewrite HashFacts.hashCode_spec.
  - apply HashFacts.rolling_hash32_range.
  - by intros ? ? [-> ->].
Qed.

(** C8, as stated, fails: name ab with source c, and name a with source
    bc, concatenate to the same text and get the keys ab-63 and a-c41. *)
Lemma cacheKey_depends_on_the_split :
  "ab" ++ "c" = "a" ++ "bc"
  ∧ DynamicBundler.cacheKey "c" "ab" = "ab-63"
  ∧ DynamicBundler.cacheKey "bc" "a" = "a-c41"
  ∧ bool_decide (DynamicBundler.cacheKey "c" "ab"
                 = DynamicBundler.cacheKey "bc" "a") = false.
Proof. by vm_compute. Qed.

(** ** Facts about the build cache *)

Module BundleFacts.
Import DynamicBundler BundleSpec.

Lemma syscall_quiet name ok op : quiet (syscall name ok op).
Proof.
  intros w r w'. unfold syscall.
  destruct (if ok then op (fs w) else None); by intros [= <- <-].
Qed.

Lemma bind_quiet {A B} (m : M A) (k : A → M B) :
  quiet m → (∀ a, quiet (k a)) → quiet (bind m k).
Proof.
  intros Hm Hk w r w'. unfold bind.
  destruct (m w) as [[a|msg|] w1] eqn:Hmw;
    destruct (Hm _ _ _ Hmw) as [Hc Hb].
  - intros Hkw. destruct (Hk a _ _ _ Hkw). split; congruence.
  - by intros [= <- <-].
  - by intros [= <- <-].
Qed.

Lemma createProjectStructure_quiet b ok projectDir templateCode :
  quiet (createProjectStructure b ok projectDir templateCode).
Proof.
  unfold createProjectStructure.
  repeat (apply bind_quiet; [apply syscall_quiet|intros _]).
  apply syscall_quiet.
Qed.

Lemma rm_quiet_calls ok p w :
  calls (rm_quiet ok p w) = calls w
  ∧ bundleCache (rm_quiet ok p w) = bundleCache w.
Proof. unfold rm_quiet. by destruct ok. Qed.

Lemma run_cleanup_frame c ok w :
  calls (run_cleanup c ok w) = calls w
  ∧ bundleCache (run_cleanup c ok w) = bundleCache w.
Proof. destruct c; [done|apply rm_quiet_calls]. Qed.

Lemma compile_count_frame w w' :
  calls w' = calls w → compile_count w' = compile_count w.
Proof. unfold compile_count. by intros ->. Qed.

(** The probe answers with the cached path exactly on a hit, and calls
    nothing. *)
Lemma probe_cache_inv key w r w0 :
  probe_cache key w = (r, w0) →
  calls w0 = calls w ∧ fs w0 = fs w
  ∧ ((∃ path, r = Ok (Some path) ∧ w0 = w
              ∧ bundleCache w !! key = Some path)
     ∨ r = Ok None).
Proof.
  unfold probe_cache. destruct (bundleCache w !! key) as [path|] eqn:Hc.
  - case_decide; [intros [= <- <-]; split_and!; [done|done|by right]|].
    destruct (Fs.exists_ path (fs w)); intros [= <- <-].
    + split_and!; [done|done|]. left. by exists path.
    + split_and!; [done|done|by right].
  - intros [= <- <-]. split_and!; [done|done|by right].
Qed.

Lemma probe_cache_hit key w path :
  bundleCache w !! key = Some path → path ≠ EmptyString →
  Fs.exists_ path (fs w) = true →
  probe_cache key w = (Ok (Some path), w).
Proof.
  intros Hc Hne Hex. unfold probe_cache. rewrite Hc.
  rewrite decide_False by done. by rewrite Hex.
Qed.

(** A cache hit: the cached path, a no-op release, the world as it was. *)
Lemma bundle_hit b env templateCode templateName w path :
  bundleCache w !! cacheKey templateCode templateName = Some path →
  path ≠ EmptyString →
  Fs.exists_ path (fs w) = true →
  bundle b env templateCode templateName w
  = (Ok {| bundlePath := path; cleanup := KeepCached |}, w).
Proof.
  intros Hc Hne Hex. unfold bundle, bind.
  by rewrite (probe_cache_hit _ _ _ Hc Hne Hex).
Qed.

(** What a successful [bundle] leaves behind. *)
Lemma bundle_Ok_inv b env templateCode templateName w r w' :
  bundle b env templateCode templateName w = (Ok r, w') →
  bundleCache w' !! cacheKey templateCode templateName = Some (bundlePath r)
  ∧ (compile_count w' ≤ S (compile_count w))%nat
  ∧ (cleanup r = KeepCached ∨ cleanup r = RmProject (projectDir b env)).
Proof.
  unfold bundle. set (key := cacheKey templateCode templateName).
  unfold bind at 1.
  destruct (probe_cache key w) as [[hit|msg|] w0] eqn:Hp; [|done|done].
  apply probe_cache_inv in Hp as (Hcalls & _ & [(path & [= ->] & -> & Hc)|[= ->]]).
  - intros [= <- <-]. split_and!; [done|lia|by left].
  - destruct (bundler b) as [m|]; [|done].
    unfold on_error.
    match goal with |- context [bind ?m ?k w0] =>
      destruct (bind m k w0) as [[r0|msg|] w1] eqn:Hbody end; [|done|done].
    intros [= <- <-]. revert Hbody. unfold bind at 1.
    destruct (createProjectStructure _ _ _ _ w0) as [[[]|msg|] wa] eqn:Hps;
      [|done|done].
    apply createProjectStructure_quiet in Hps as [Hca Hba].
    unfold call_bundler, record_call, bind, ret. cbn [fs].
    destruct (bundle_impl m _ _ (fs wa)) as [[path|msg|] d]; [|done|done].
    intros [= <- <-]. cbn. split_and!.
    + by rewrite lookup_insert_eq.
    + unfold compile_count. cbn. rewrite Hca, Hcalls.
      rewrite List.filter_app, length_app. simpl. lia.
    + by right.
Qed.

(** Releasing a bundle leaves what is at or below the bundle output
    directory where it is. *)
Lemma run_cleanup_keeps_bundleDir b env templateCode templateName c ok w p :
  c = KeepCached ∨ c = RmProject (projectDir b env) →
  Fs.under (bundleDir b templateCode templateName) p = true →
  fs (run_cleanup c ok w) !! p = fs w !! p.
Proof.
  intros [->| ->] Hp; [done|]. unfold run_cleanup, rm_quiet.
  destruct ok; [|done]. cbn [fs set_fs]. apply FsFacts.rm_rf_other.
  unfold projectDir, bundleDir in *.
  exact (FsFacts.under_siblings (cacheDir b) "p"%char "b"%char
           ("roject-" ++ project_uuid env)
           ("undle-" ++ cacheKey templateCode templateName) p
           ltac:(done) Hp).
Qed.

End BundleFacts.

(** C5. A [bundle] call succeeds and returns a non-empty path; with or
    without its release in between, the path is on disk when [bundle] is
    called again with the same source and name. Then the second call
    returns the same path with the no-op release and changes nothing, so
    the backend compiled at most once over both calls; the no-op release
    does nothing; and neither release touches the cache table or
    anything at or below the bundle output directory. *)
Theorem bundle_twice_compiles_once b env1 env2 templateCode templateName
    w0 r1 w1 w1' :
  DynamicBundler.bundle b env1 templateCode templateName w0 = (Ok r1, w1) →
  DynamicBundler.bundlePath r1 ≠ EmptyString →
  (w1' = w1
   ∨ ∃ ok, w1' = DynamicBundler.run_cleanup (DynamicBundler.cleanup r1) ok w1) →
  Fs.exists_ (DynamicBundler.bundlePath r1) (fs w1') = true →
  DynamicBundler.bundle b env2 templateCode templateName w1'
  = (Ok {| DynamicBundler.bundlePath := DynamicBundler.bundlePath r1;
           DynamicBundler.cleanup := DynamicBundler.KeepCached |}, w1')
  ∧ (BundleSpec.compile_count w1' ≤ S (BundleSpec.compile_count w0))%nat
  ∧ (∀ ok w, DynamicBundler.run_cleanup DynamicBundler.KeepCached ok w = w)
  ∧ ∀ c ok w,
      c = DynamicBundler.cleanup r1 ∨ c = DynamicBundler.KeepCached →
      bundleCache (DynamicBundler.run_cleanup c ok w) = bundleCache w
      ∧ ∀ p, Fs.under (BundleSpec.bundleDir b templateCode templateName) p
             = true
             → fs (DynamicBundler.run_cleanup c ok w) !! p = fs w !! p.
Proof.
  intros Hfirst Hne Hbetween Hdisk.
  apply BundleFacts.bundle_Ok_inv in Hfirst as (Hcache & Hcount & Hrel).
  assert (calls w1' = calls w1 ∧ bundleCache w1' = bundleCache w1)
    as [Hcalls Hcache'].
  { destruct Hbetween as [->|[ok ->]]; [done|].
    apply BundleFacts.run_cleanup_frame. }
  split_and!.
  - apply BundleFacts.bundle_hit; [by rewrite Hcache'|done|done].
  - by rewrite (BundleFacts.compile_count_frame _ _ Hcalls).
  - done.
  - intros c ok w Hc. split; [apply BundleFacts.run_cleanup_frame|].
    intros p Hp.
    eapply BundleFacts.run_cleanup_keeps_bundleDir; [|exact Hp].
    destruct Hc as [->| ->]; [exact Hrel|by left].
Qed.

Lemma bundle_twice_compiles_once_witness :
  DynamicBundler.bundle Samples.bundler (Samples.bundle_env "p2")
    "export const Main = 1" "universal"
    (DynamicBundler.bundle Samples.bundler (Samples.bundle_env "p1")
       "export const Main = 1" "universal" Samples.empty_world).2
  = (Ok {| DynamicBundler.bundlePath := "/work/bundles/bundle-universal-50e87850";
           DynamicBundler.cleanup := DynamicBundler.KeepCached |},
     (DynamicBundler.bundle Samples.bundler (Samples.bundle_env "p1")
        "export const Main = 1" "universal" Samples.empty_world).2).
Proof.
  refine (proj1 (bundle_twice_compiles_once Samples.bundler
                   (Samples.bundle_env "p1") (Samples.bundle_env "p2")
                   "export const Main = 1" "universal" Samples.empty_world
                   {| DynamicBundler.bundlePath :=
                        "/work/bundles/bundle-universal-50e87850";
                      DynamicBundler.cleanup :=
                        DynamicBundler.RmProject "/work/bundles/project-p1" |}
                   (DynamicBundler.bundle Samples.bundler
                      (Samples.bundle_env "p1") "export const Main = 1"
                      "universal" Samples.empty_world).2
                   _ _ _ _ _)).
  - vm_compute. reflexivity.
  - discriminate.
  - left. reflexivity.
  - vm_compute. reflexivity.
Defined.

(** ** The render job *)

Module RenderFacts.
Import RenderEngine RenderSpec.

Lemma try_finally_run {A} (body : M A) fin w :
  try_finally body fin w = ((body w).1, fin (body w).2).
Proof. unfold try_finally. by destruct (body w). Qed.

Lemma rm_quiet_gone p d w :
  Fs.under d p = true → fs (rm_quiet true d w) !! p = None.
Proof. intros Hp. unfold rm_quiet. cbn [fs set_fs]. by apply FsFacts.rm_rf_gone. Qed.

(** *** The calls a render makes *)












(** The arithmetic is that of doubles. Scenes of 0.1 s and 0.2 s last
    0.30000000000000004 s together and take 4 frames at 10 frames per
    second; 8.3 s at 30 frames per second take 250 frames, and 0.1 s
    takes 3. *)
Lemma double_arithmetic :
  totalDuration [Samples.scene_of 0.1; Samples.scene_of 0.2]
  = 0.30000000000000004%float
  ∧ durationInFrames [Samples.scene_of 0.1; Samples.scene_of 0.2] 10 = 4%float
  ∧ durationInFrames [Samples.scene_of 8.3] 30 = 250%float
  ∧ durationInFrames [Samples.scene_of 0.1] 30 = 3%float
  ∧ durationInFrames [Samples.scene_of 2] 30 = 60%float.
Proof. by vm_compute. Qed.

(** A successful [renderVideo] reports the total duration, the resolved
    frame rate and size, and the MIME type of the format. *)
Lemma renderVideo_Ok_metadata e env params templateCode w r w' :
  renderVideo e env params templateCode w = (Ok r, w') →
  md_duration (rr_metadata r) = Some (totalDuration (scenes params))
  ∧ md_fps (rr_metadata r) = Some (resolved_fps params)
  ∧ rr_mimeType r = getMimeType (resolved_format params)
  ∧ md_width (rr_metadata r) = resolved_width params
  ∧ md_height (rr_metadata r) = resolved_height params.
Proof.
  unfold renderVideo. rewrite try_finally_run. intros [= Hr _].
  revert Hr. unfold bind at 1.
  destruct (syscall _ _ _ w) as [[[]|?|] w1]; [|done|done].
  unfold bind at 1.
  match goal with |- context [match ?body w1 with _ => _ end] =>
    destruct (body w1) as [[[]|?|] w2] end; [|done|done].
  unfold bind, ret. destruct (readFile _ _ w2) as [[buf|?|] w3]; [|done|done].
  by intros [= <-].
Qed.

End RenderFacts.

Module MockFacts.
Import RenderEngine RenderSpec.

(** Mock mode, with the system calls going through and nothing in the
    way of the job directory: the result of [renderVideo]. *)
Lemma renderVideo_mock e env params templateCode w :
  renderer e = None →
  mkdir_ok env = true → write_ok env = true → read_ok env = true →
  (∀ p, Fs.under (job_workDir e env) p = true → fs w !! p = None) →
  renderVideo e env params templateCode w
  = (Ok {| rr_buffer := mock_video e params;
           rr_mimeType := getMimeType (resolved_format params);
           rr_metadata :=
             {| md_duration := Some (totalDuration (scenes params));
                md_width := resolved_width params;
                md_height := resolved_height params;
                md_fps := Some (resolved_fps params) |} |},
     rm_quiet (rm_workDir_ok env) (job_workDir e env)
       (set_fs (<[video_outputPath e env params := Fs.File (mock_video e params)]>
                  (<[job_workDir e env := Fs.Dir]> (fs w))) w)).
Proof.
  intros Hmock Hmk Hwr Hrd Hfree.
  pose proof (Hfree _ (FsFacts.under_refl _)) as Hwd.
  pose proof (Hfree _ (FsFacts.under_join (job_workDir e env)
                         ("output." ++ video_format_name
                                         (resolved_format params)))) as Hout.
  unfold renderVideo. rewrite RenderFacts.try_finally_run, Hmock.
  fold (resolved_format params) (resolved_width params)
       (resolved_height params) (resolved_fps params).
  fold (video_outputPath e env params) in Hout |- *.
  fold (mock_video e params).
  unfold bind, syscall, readFile, ret. rewrite Hmk, Hwr, Hrd.
  unfold Fs.mkdir. rewrite Hwd. cbn [fs set_fs].
  unfold Fs.writeFile.
  rewrite lookup_insert_ne by (symmetry; apply FsFacts.join_ne).
  rewrite Hout. cbn [fs set_fs].
  unfold Fs.readFile. rewrite lookup_insert_eq. reflexivity.
Qed.

End MockFacts.

(** ** The build cache and the backend calls, case by case *)

Module BundleMoreFacts.
Import DynamicBundler BundleSpec BundleMore.

Lemma list_ascii_app (a b : string) :
  String.list_ascii_of_string (a ++ b)
  = (String.list_ascii_of_string a ++ String.list_ascii_of_string b)%list.
Proof.
  induction a as [|c a IH]; [done|]. rewrite FsFacts.app_cons. simpl.
  by rewrite IH.
Qed.

(** The two-letter texts Aa and BB move the hash alike. *)
Lemma rolling_Aa_BB (h : Z) :
  toInt32 (31 * toInt32 (31 * h + 65) + 97)
  = toInt32 (31 * toInt32 (31 * h + 66) + 66).
Proof.
  apply HashFacts.toInt32_congr.
  destruct (Z.mod_divide (toInt32 (31 * h + 65) - (31 * h + 65)) (2 ^ 32)
              ltac:(done)) as [Hd1 _].
  destruct (Hd1 (HashFacts.toInt32_mod_eq _)) as [k1 Hk1].
  destruct (Z.mod_divide (toInt32 (31 * h + 66) - (31 * h + 66)) (2 ^ 32)
              ltac:(done)) as [Hd2 _].
  destruct (Hd2 (HashFacts.toInt32_mod_eq _)) as [k2 Hk2].
  replace (31 * toInt32 (31 * h + 65) + 97
           - (31 * toInt32 (31 * h + 66) + 66))
    with (31 * (k1 - k2) * 2 ^ 32) by lia.
  apply Z.mod_mul. done.
Qed.

Lemma hashCode_Aa_BB (p s : string) :
  hashCode (p ++ "Aa" ++ s) = hashCode (p ++ "BB" ++ s).
Proof.
  unfold hashCode. rewrite !HashFacts.hash_fold_spec.
  rewrite !list_ascii_app, !fold_left_app. do 2 f_equal.
  generalize (fold_left (λ h c, toInt32 (31 * h + charCode c))
                        (String.list_ascii_of_string p) 0).
  intros h. simpl. f_equal. apply rolling_Aa_BB.
Qed.

(** The probe, case by case. *)
Lemma probe_cache_cases key w r w0 :
  probe_cache key w = (r, w0) →
  (∃ path, r = Ok (Some path) ∧ w0 = w
           ∧ bundleCache w !! key = Some path
           ∧ path ≠ EmptyString ∧ Fs.exists_ path (fs w) = true)
  ∨ (r = Ok None ∧ cache_miss key w
     ∧ calls w0 = calls w ∧ fs w0 = fs w
     ∧ (bundleCache w0 = bundleCache w
        ∨ bundleCache w0 = delete key (bundleCache w))).
Proof.
  unfold probe_cache, cache_miss.
  destruct (bundleCache w !! key) as [path|] eqn:Hc.
  - case_decide as Hne.
    + intros [= <- <-]. right. split_and!; [done| |done|done|by left].
      intros ? [= <-]. by left.
    + destruct (Fs.exists_ path (fs w)) eqn:Hex; intros [= <- <-].
      * left. by exists path.
      * right. split_and!; [done| |done|done|by right].
        intros ? [= <-]. by right.
  - intros [= <- <-]. right. split_and!; [done|done|done|done|by left].
Qed.

Lemma rm_rf_None (d p : string) (fs : Fs.t) :
  fs !! p = None → Fs.rm_rf d fs !! p = None.
Proof. intros Hp. apply map_lookup_filter_None_2. by left. Qed.

Lemma rm_quiet_None ok d p w :
  fs w !! p = None → fs (rm_quiet ok d w) !! p = None.
Proof.
  unfold rm_quiet. destruct ok; [|done]. cbn [fs set_fs]. apply rm_rf_None.
Qed.

End BundleMoreFacts.

Module BundleOutcome.
Import DynamicBundler BundleSpec BundleMore.

(** The body of the [try] block of [bundle], run to its end. *)
Lemma try_body_inv b m env templateCode key r w0 w1 :
  bind (createProjectStructure b (scaffold_ok env) (projectDir b env)
                               templateCode)
       (λ _, bind (call_bundler m (entryPoint b env)
                                (Fs.join (cacheDir b) ("bundle-" ++ key)))
                  (λ path,
                     bind (λ w, (Ok tt,
                                 set_cache (<[key := path]> (bundleCache w)) w))
                          (λ _, ret {| bundlePath := path;
                                       cleanup := RmProject (projectDir b env) |})))
       w0 = (r, w1) →
  (∃ path, r = Ok {| bundlePath := path;
                     cleanup := RmProject (projectDir b env) |}
           ∧ calls w1
             = (calls w0
                ++ [CallBundle (entryPoint b env)
                               (Fs.join (cacheDir b) ("bundle-" ++ key))])%list
           ∧ bundleCache w1 = <[key := path]> (bundleCache w0))
  ∨ ((∀ x, r ≠ Ok x)
     ∧ bundleCache w1 = bundleCache w0
     ∧ (calls w1 = calls w0
        ∨ calls w1
          = (calls w0
             ++ [CallBundle (entryPoint b env)
                            (Fs.join (cacheDir b) ("bundle-" ++ key))])%list)).
Proof.
  unfold bind at 1.
  destruct (createProjectStructure _ _ _ _ w0) as [[[]|msg|] wa] eqn:Hps;
    apply BundleFacts.createProjectStructure_quiet in Hps as [Hca Hba].
  2,3: intros [= <- <-]; right; split_and!; [done|done|by left].
  unfold call_bundler, record_call, bind, ret. cbn [fs].
  destruct (bundle_impl m _ _ (fs wa)) as [[path|msg|] d];
    intros [= <- <-]; cbn.
  - left. exists path. by rewrite Hca, Hba.
  - right. rewrite Hca, Hba. split_and!; [done|done|by right].
  - right. rewrite Hca, Hba. split_and!; [done|done|by right].
Qed.

End BundleOutcome.

Module BackedFacts.
Import RenderEngine RenderSpec RenderMore.

Lemma call_selectComposition_calls r url props w res w' :
  call_selectComposition r url props w = (res, w') →
  calls w' = (calls w ++ [CallSelectComposition url "Main"])%list.
Proof.
  unfold call_selectComposition, bind, record_call. cbn [fs].
  destruct (selectComposition_impl r url "Main" props (fs w)) as [x d].
  by intros [= <- <-].
Qed.

Lemma call_renderMedia_calls r c url codec out props conc w res w' :
  call_renderMedia r c url codec out props conc w = (res, w') →
  calls w' = (calls w ++ [CallRenderMedia c url codec out conc])%list.
Proof.
  unfold call_renderMedia, bind, record_call. cbn [fs].
  destruct (renderMedia_impl r c url codec out props conc (fs w)) as [x d].
  by intros [= <- <-].
Qed.

Lemma call_renderStill_calls r c url out frame props format w res w' :
  call_renderStill r c url out frame props format w = (res, w') →
  calls w'
  = (calls w ++ [CallRenderStill c url out frame (image_format_name format)])%list.
Proof.
  unfold call_renderStill, bind, record_call. cbn [fs].
  destruct (renderStill_impl r c url out frame props format (fs w)) as [x d].
  by intros [= <- <-].
Qed.

Lemma bind_Ok {A B} (m : M A) (k : A → M B) w r w' :
  bind m k w = (Ok r, w') → ∃ a w1, m w = (Ok a, w1) ∧ k a w1 = (Ok r, w').
Proof.
  unfold bind. destruct (m w) as [[a|?|] w1]; [|done|done].
  intros Hk. by exists a, w1.
Qed.

Lemma try_finally_Ok {A} (body : M A) fin w r w' :
  try_finally body fin w = (Ok r, w') →
  ∃ w1, body w = (Ok r, w1) ∧ w' = fin w1.
Proof.
  unfold try_finally. destruct (body w) as [r1 w1].
  intros [= -> <-]. by exists w1.
Qed.

(** The calls of a successful [bundle]: none, or the one compile. *)
Lemma bundle_Ok_calls b env code w r w' :
  DynamicBundler.bundle b env code "universal" w = (Ok r, w') →
  ∃ compiled,
    calls w' = (calls w ++ compiled)%list
    ∧ (compiled = []
       ∨ compiled = [CallBundle (BundleMore.entryPoint b env)
                                (BundleSpec.bundleDir b code "universal")]).
Proof.
  unfold DynamicBundler.bundle.
  set (key := DynamicBundler.cacheKey code "universal").
  intros (hit & w0 & Hp & Hrest)%bind_Ok.
  apply BundleMoreFacts.probe_cache_cases in Hp
    as [(path & [= ->] & -> & _)|([= ->] & _ & Hcalls & _)].
  - injection Hrest as _ <-. exists []. split; [by rewrite app_nil_r|by left].
  - destruct (DynamicBundler.bundler b) as [m|]; [|done].
    revert Hrest. unfold on_error.
    match goal with |- context [bind ?a ?k w0] =>
      destruct (bind a k w0) as [r0 w1] eqn:Hbody end.
    apply (BundleOutcome.try_body_inv b m env code key) in Hbody
      as [(path & -> & Hc1 & _)|(Hr & _)].
    + intros [= _ <-]. eexists. split; [by rewrite Hc1, Hcalls|by right].
    + destruct r0 as [x| |]; [by destruct (Hr x)|done|done].
Qed.

Lemma readFile_world ok p w r w' : readFile ok p w = (r, w') → w' = w.
Proof.
  unfold readFile.
  by destruct (if ok then Fs.readFile p (fs w) else None); intros [= <- <-].
Qed.

Lemma syscall_calls name ok op w r w' :
  syscall name ok op w = (r, w') → calls w' = calls w.
Proof. intros H. by apply BundleFacts.syscall_quiet in H as [? _]. Qed.

(** The calls of a successful render with a backend: at most one
    compile, the selection of Main, one [renderMedia]. *)
Lemma renderVideo_Ok_calls e r env params templateCode w res w' :
  renderer e = Some r →
  renderVideo e env params templateCode w = (Ok res, w') →
  ∃ compiled path comp,
    calls w'
    = (calls w ++ compiled
       ++ [CallSelectComposition path "Main";
           CallRenderMedia (video_composition params comp) path
             (getCodec (resolved_format params))
             (video_outputPath e env params)
             (concurrency (config e))])%list
    ∧ (compiled = []
       ∨ compiled
         = [CallBundle
              (BundleMore.entryPoint (bundler e) (bundle_env env))
              (BundleSpec.bundleDir (bundler e)
                 (template_source e templateCode) "universal")]).
Proof.
  intros Hr. unfold renderVideo. rewrite Hr.
  fold (resolved_format params) (resolved_width params)
       (resolved_height params) (resolved_fps params).
  fold (video_outputPath e env params).
  fold (template_source e templateCode).
  intros (w5 & Hbody & ->)%try_finally_Ok.
  apply bind_Ok in Hbody as ([] & w1 & H1 & Hbody).
  apply bind_Ok in Hbody as ([] & w4 & Hmid & Hread).
  apply bind_Ok in Hread as (buf & w4' & Hread & Hret).
  apply readFile_world in Hread as ->.
  unfold ret in Hret. injection Hret as _ <-.
  apply bind_Ok in Hmid as (b & w2 & H2 & Hmid).
  apply try_finally_Ok in Hmid as (w3 & Hmid & ->).
  apply bind_Ok in Hmid as (comp & w2' & H3 & H4).
  apply syscall_calls in H1.
  apply bundle_Ok_calls in H2 as (compiled & H2 & Hcomp).
  apply call_selectComposition_calls in H3.
  apply call_renderMedia_calls in H4.
  exists compiled, (DynamicBundler.bundlePath b), comp. split; [|done].
  destruct (BundleFacts.rm_quiet_calls (rm_workDir_ok env)
              (job_workDir e env)
              (DynamicBundler.run_cleanup (DynamicBundler.cleanup b)
                 (release_rm_ok env) w3)) as [-> _].
  destruct (BundleFacts.run_cleanup_frame (DynamicBundler.cleanup b)
              (release_rm_ok env) w3) as [-> _].
  rewrite H4, H3, H2, H1. by rewrite <- !(assoc_L (++)%list).
Qed.

End BackedFacts.

(** C6. Whatever [renderVideo] or [renderImage] does (return, mock
    return, or an exception from the bundler, the backend or a system
    call), when the final removal goes through nothing is left at or
    below the job's working directory; and whether that removal goes
    through or fails, the result or exception of the call is the same. *)
Theorem render_cleans_workDir e env templateCode w :
  (∀ params,
     (RenderEngine.rm_workDir_ok env = true →
      ∀ p, Fs.under (RenderEngine.job_workDir e env) p = true →
           fs (RenderEngine.renderVideo e env params templateCode w).2 !! p
           = None)
     ∧ ∀ ok,
         (RenderEngine.renderVideo e (RenderSpec.with_rm_workDir_ok ok env)
                                   params templateCode w).1
         = (RenderEngine.renderVideo e env params templateCode w).1)
  ∧ (∀ params,
       (RenderEngine.rm_workDir_ok env = true →
        ∀ p, Fs.under (RenderEngine.job_workDir e env) p = true →
             fs (RenderEngine.renderImage e env params templateCode w).2 !! p
             = None)
       ∧ ∀ ok,
           (RenderEngine.renderImage e (RenderSpec.with_rm_workDir_ok ok env)
                                     params templateCode w).1
           = (RenderEngine.renderImage e env params templateCode w).1).
Proof.
  split; intros params; split.
  - intros Hrm p Hp. unfold RenderEngine.renderVideo.
    rewrite RenderFacts.try_finally_run, Hrm. cbn [snd].
    by apply RenderFacts.rm_quiet_gone.
  - intros ok. unfold RenderEngine.renderVideo.
    by rewrite !RenderFacts.try_finally_run.
  - intros Hrm p Hp. unfold RenderEngine.renderImage.
    rewrite RenderFacts.try_finally_run, Hrm. cbn [snd].
    by apply RenderFacts.rm_quiet_gone.
  - intros ok. unfold RenderEngine.renderImage.
    by rewrite !RenderFacts.try_finally_run.
Qed.

(** The backend throws in the middle of a render, after writing into
    the job directory: the call throws and the directory is gone. *)
Lemma render_cleans_workDir_witness :
  (RenderEngine.renderVideo (Samples.engine (Some Samples.failing_renderer))
     (Samples.render_env "job1") Samples.hi_params None
     Samples.empty_world).1 = Throw "render failed"
  ∧ fs (RenderEngine.renderVideo
          (Samples.engine (Some Samples.failing_renderer))
          (Samples.render_env "job1") Samples.hi_params None
          Samples.empty_world).2 !! "/work/job1/output.mp4" = None.
Proof.
  split; [vm_compute; reflexivity|].
  refine (proj1 (proj1 (render_cleans_workDir
                          (Samples.engine (Some Samples.failing_renderer))
                          (Samples.render_env "job1") None
                          Samples.empty_world) Samples.hi_params) _ _ _).
  - reflexivity.
  - vm_compute. reflexivity.
Defined.



(** * Further properties of the local store *)

Module UrlMoreFacts.
Import UrlHandler UrlInv UrlMore.

(** Whatever [removeFile] preserves, the sweep and both loops do. *)
Lemma remove_all_inv (I : State → Prop) (ks : list string) st :
  (∀ k s, I s → I (removeFile k s)) → I st →
  I (fold_left (λ s k, removeFile k s) ks st).
Proof.
  intros HI. revert st. induction ks as [|k ks IH]; intros st H; simpl; auto.
Qed.

Lemma evict_for_size_inv (I : State → Prop) cfg fuel incoming cur st :
  (∀ k s, I s → I (removeFile k s)) → I st →
  I (evict_for_size fuel cfg incoming cur st).2.
Proof.
  intros HI. revert cur st. induction fuel as [|fuel IH]; intros cur st H; simpl.
  - destruct (_ && _); [|done]. by destruct (findLRU st).
  - destruct (_ && _); [|done]. destruct (findLRU st); [|done]. auto.
Qed.

Lemma evict_for_count_inv (I : State → Prop) cfg fuel st :
  (∀ k s, I s → I (removeFile k s)) → I st →
  I (evict_for_count fuel cfg st).2.
Proof.
  intros HI. revert st. induction fuel as [|fuel IH]; intros st H; simpl.
  - destruct (_ >=? _); [|done]. by destruct (findLRU st).
  - destruct (_ >=? _); [|done]. destruct (findLRU st); [|done]. auto.
Qed.

Lemma enforceQuotas_inv (I : State → Prop) cfg now incoming st :
  (∀ k s, I s → I (removeFile k s)) → I st →
  I (enforceQuotas cfg now incoming st).2.
Proof.
  intros HI H. unfold enforceQuotas.
  pose proof (remove_all_inv I (expired_ids now (files st)) st HI H) as H1.
  fold (cleanup now st) in H1.
  destruct (incoming >? maxDiskBytes cfg); [done|].
  pose proof (evict_for_size_inv I cfg (loop_fuel (cleanup now st))
                incoming (diskUsageBytes (cleanup now st)) _ HI H1) as H2.
  destruct (evict_for_size _ _ _ _ _) as [[[]|msg|] st2]; cbn [snd] in *;
    [|done|done].
  by apply evict_for_count_inv.
Qed.

(** The tracked entries after any [store]: a sub-list of the old ones,
    with or without the new entry set. *)
Lemma store_files cfg env file st r st' :
  store cfg env file st = (r, st') →
  ∃ m, m `sublist_of` files st
       ∧ (files st' = m
          ∨ files st' = JsMap.set (uuid env) (new_entry cfg env file) m).
Proof.
  unfold store. destruct (negb (ready st)).
  { intros [= <- <-]. exists (files st). split; [done|by left]. }
  pose proof (enforceQuotas_inv (λ s, files s `sublist_of` files st) cfg
                (now_sweep env) (Z.of_nat (length (buffer file))) st) as Hsub.
  lapply Hsub.
  2:{ intros k s Hs. etrans; [apply UrlFacts.removeFile_sublist|done]. }
  clear Hsub. intros Hsub. specialize (Hsub (reflexivity _)).
  destruct (enforceQuotas _ _ _ _) as [[[]|msg|] st1]; cbn [snd] in Hsub.
  2,3: intros [= <- <-]; exists (files st1); split; [done|by left].
  destruct (if write_ok env then _ else _) as [d|].
  2:{ intros [= <- <-]. exists (files st1). split; [done|by left]. }
  destruct (valid_time _); intros [= <- <-]; exists (files st1);
    (split; [done|by right]).
Qed.

(** A property of entries that the new entry has and that a touch
    keeps holds of every tracked entry of a reachable store. *)
Lemma reachable_Forall (P : string * FileEntry → Prop) cfg st :
  (∀ env file, P (uuid env, new_entry cfg env file)) →
  (∀ k e now, P (k, e) → P (k, set_lastAccessedAt now e)) →
  reachable cfg st → Forall P (files st).
Proof.
  intros Hnew Htouch [d Hrtc].
  assert (Forall P (files (initialize cfg (create d)))) as H0 by constructor.
  induction Hrtc as [|st1 st2 st3 Hstep _ IH]; [done|].
  apply IH. destruct Hstep as [env file r st st' Hs|sf fname q n1 n2 r st st' Hg
                              |now st].
  - apply store_files in Hs as (m & Hsub & [-> | ->]).
    + by eapply JsMapFacts.Forall_sublist.
    + apply JsMapFacts.set_Forall; [done|].
      by eapply JsMapFacts.Forall_sublist.
  - revert Hg. unfold get_file.
    destruct (List.find _ _) as [e|]; [|by intros [= <- <-]].
    destruct (negb _); [by intros [= <- <-]|].
    destruct (_ >? _); intros [= <- <-]; [done|]. cbn [files].
    apply UrlFacts.touch_first_Forall; [|done]. intros k x. apply Htouch.
  - eapply JsMapFacts.Forall_sublist; [|done]. apply UrlFacts.cleanup_shrinks.
Qed.

Lemma reachable_named cfg st : reachable cfg st → Forall named (files st).
Proof. apply reachable_Forall; [done|]. by intros k e now. Qed.

(** In a reachable store the file name of an entry determines its key. *)
Lemma named_key cfg st k1 e1 k2 e2 :
  reachable cfg st → (k1, e1) ∈ files st → (k2, e2) ∈ files st →
  filename e1 = filename e2 → k1 = k2.
Proof.
  intros Hn%reachable_named H1 H2 Heq. rewrite Forall_forall in Hn.
  pose proof (Hn _ H1) as Hn1. pose proof (Hn _ H2) as Hn2.
  unfold named in *. simpl in *. rewrite Hn1, Hn2 in Heq.
  apply (f_equal stem) in Heq.
  rewrite !(DiskFacts.stem_app _ _ EmptyString) in Heq
    by apply DiskFacts.stem_getExtension.
  rewrite !FsFacts.app_nil_r in Heq. by injection Heq.
Qed.

End UrlMoreFacts.

(** X2. On a store reached from initialization, [store()] comes back:
    both eviction loops of [enforceQuotas] end, and the call returns a
    result or throws, leaving a state that is again reachable. *)
Theorem store_returns_or_throws cfg env file st :
  UrlInv.reachable cfg st →
  ∃ st', ((∃ out, UrlHandler.store cfg env file st = (Ok out, st'))
          ∨ ∃ msg, UrlHandler.store cfg env file st = (Throw msg, st'))
         ∧ UrlInv.reachable cfg st'.
Proof.
  intros Hreach. pose proof (UrlFacts.reachable_wf _ _ Hreach) as Hwf.
  destruct (UrlHandler.store cfg env file st) as [r st'] eqn:Hs.
  exists st'. split.
  - destruct (UrlFacts.store_wf _ _ _ _ _ _ Hwf Hs) as [_ Hr].
    destruct r as [out|msg|]; [left; by exists out|right; by exists msg|done].
  - destruct Hreach as [d Hrtc]. exists d. eapply rtc_r; [exact Hrtc|].
    by eapply UrlInv.step_store.
Qed.

Lemma store_returns_or_throws_witness :
  ∃ st', ((∃ out, UrlHandler.store (Samples.cfg 3 60) (Samples.env "d" 10)
                    Samples.clip Samples.abc = (Ok out, st'))
          ∨ ∃ msg, UrlHandler.store (Samples.cfg 3 60) (Samples.env "d" 10)
                     Samples.clip Samples.abc = (Throw msg, st'))
         ∧ UrlInv.reachable (Samples.cfg 3 60) st'.
Proof.
  apply (store_returns_or_throws (Samples.cfg 3 60) (Samples.env "d" 10)
           Samples.clip Samples.abc), abc_reachable.
Defined.

Module LruMore.
Import UrlHandler UrlInv.

(** The fold of [findLRU] from a running candidate [a]: either [a]
    stays, no later entry being strictly older, or the result splits the
    list at the first entry of least access time. *)
Lemma findLRU_fold_split (m : JsMap.t FileEntry) a r :
  fold_left findLRU_step (JsMap.values m) (Some a) = Some r →
  (r = a ∧ Forall (λ kv, lastAccessedAt a ≤ lastAccessedAt kv.2) m)
  ∨ (lastAccessedAt r < lastAccessedAt a
     ∧ ∃ m1 k m2,
         m = (m1 ++ (k, r) :: m2)%list
         ∧ Forall (λ kv, lastAccessedAt r < lastAccessedAt kv.2) m1
         ∧ Forall (λ kv, lastAccessedAt r ≤ lastAccessedAt kv.2) m2).
Proof.
  revert a. induction m as [|[k x] m IH]; intros a; simpl.
  - intros [= ->]. left. by split.
  - destruct (lastAccessedAt x <? lastAccessedAt a) eqn:Hc; intros Hf;
      apply IH in Hf as [[-> HF]|(Hlt & m1 & k' & m2 & -> & H1 & H2)].
    + right. split; [lia|]. exists [], k, m. split_and!; [done|done|done].
    + right. split; [lia|]. exists ((k, x) :: m1), k', m2.
      split_and!; [done| |done]. constructor; [simpl; lia|done].
    + left. split; [done|]. constructor; [simpl; lia|done].
    + right. split; [done|]. exists ((k, x) :: m1), k', m2.
      split_and!; [done| |done]. constructor; [simpl; lia|done].
Qed.

End LruMore.

(** X3. [findLRU] answers [null] exactly on the empty map; otherwise it
    returns the first entry, in insertion order, among those of least
    [lastAccessedAt]: every entry before it was accessed strictly later,
    every entry after it not earlier. *)
Theorem findLRU_first_least st :
  (UrlHandler.files st = [] → UrlHandler.findLRU st = None)
  ∧ (UrlHandler.findLRU st = None → UrlHandler.files st = [])
  ∧ ∀ lru, UrlHandler.findLRU st = Some lru →
      ∃ m1 k m2,
        UrlHandler.files st = (m1 ++ (k, lru) :: m2)%list
        ∧ Forall (λ kv, UrlHandler.lastAccessedAt lru
                        < UrlHandler.lastAccessedAt kv.2) m1
        ∧ Forall (λ kv, UrlHandler.lastAccessedAt lru
                        ≤ UrlHandler.lastAccessedAt kv.2) m2.
Proof.
  split_and!.
  - unfold UrlHandler.findLRU. by intros ->.
  - apply UrlFacts.findLRU_None.
  - intros lru. unfold UrlHandler.findLRU.
    destruct (UrlHandler.files st) as [|[k x] m]; [done|]. simpl.
    intros [[-> HF]|(Hlt & m1 & k' & m2 & -> & H1 & H2)]%LruMore.findLRU_fold_split.
    + by exists [], k, m.
    + exists ((k, x) :: m1), k', m2. split_and!; [done| |done].
      constructor; [simpl; lia|done].
Qed.

(** X4. The sweep on a reachable store keeps exactly the entries whose
    [expiresAt] is not before [now] (an entry expiring at [now] stays),
    deletes no file but those of the entries it drops, and is
    idempotent. *)
Theorem sweep_is_exact cfg now st :
  UrlInv.reachable cfg st →
  UrlHandler.files (UrlHandler.cleanup now st)
  = filter (λ kv, now ≤ UrlHandler.expiresAt kv.2) (UrlHandler.files st)
  ∧ (∀ p, (∀ kv, kv ∈ UrlHandler.files st → now > UrlHandler.expiresAt kv.2
                 → UrlHandler.filepath kv.2 ≠ p)
          → UrlHandler.disk (UrlHandler.cleanup now st) !! p
            = UrlHandler.disk st !! p)
  ∧ UrlHandler.cleanup now (UrlHandler.cleanup now st)
    = UrlHandler.cleanup now st.
Proof.
  intros Hreach.
  pose proof (UrlFacts.reachable_wf _ _ Hreach) as (_ & [_ Hnd] & _).
  assert (Hfiles : UrlHandler.files (UrlHandler.cleanup now st)
                   = filter (λ kv, now ≤ UrlHandler.expiresAt kv.2)
                            (UrlHandler.files st)).
  { rewrite SweepFacts.cleanup_files by done.
    apply list_filter_iff. intros kv. unfold UrlInv.expired. lia. }
  split_and!; [done| |].
  - intros p Hp. by apply SweepFacts.cleanup_disk.
  - apply SweepFacts.cleanup_nothing_expired. rewrite Hfiles.
    apply Forall_forall. by intros kv [? _]%list_elem_of_filter.
Qed.

Lemma sweep_is_exact_witness :
  UrlHandler.files (UrlHandler.cleanup 1000 Samples.one_clip)
  = filter (λ kv, 1000 ≤ UrlHandler.expiresAt kv.2)
           (UrlHandler.files Samples.one_clip).
Proof.
  exact (proj1 (sweep_is_exact (Samples.cfg 3 1) 1000 Samples.one_clip
                  one_clip_reachable)).
Defined.

Module StatusFacts.
Import UrlHandler UrlInv UrlMore.

Lemma bytes_on_disk_total (d : Fs.t) cfg (m : JsMap.t FileEntry) :
  Forall (on_disk cfg d) m →
  foldr (λ kv acc,
           match d !! filepath kv.2 with
           | Some (Fs.File data) => Z.of_nat (length data) + acc
           | _ => acc
           end) 0 m
  = total_size m.
Proof.
  induction 1 as [|[k e] m [_ (data & Hd & Hsz)] _ IH]; simpl in *; [done|].
  rewrite Hd, IH. lia.
Qed.

Lemma NoDup_pairs (m : JsMap.t FileEntry) : NoDup (JsMap.keys m) → NoDup m.
Proof. apply NoDup_fmap_1. Qed.

End StatusFacts.

(** X5. What [getStatus()] reports on a reachable store is what is on
    the disk: the handler is ready, [diskUsageBytes] is the number of
    bytes that the files of the tracked entries hold, and [fileCount] is
    the number of those files, no two entries sharing a path. *)
Theorem status_reports_the_disk cfg st :
  UrlInv.reachable cfg st →
  UrlMore.os_ready (UrlMore.getStatus cfg st) = true
  ∧ UrlMore.os_diskUsageBytes (UrlMore.getStatus cfg st)
    = UrlMore.bytes_on_disk st
  ∧ NoDup (UrlHandler.filepath <$> JsMap.values (UrlHandler.files st))
  ∧ UrlMore.os_fileCount (UrlMore.getStatus cfg st)
    = Z.of_nat (length (UrlHandler.filepath
                          <$> JsMap.values (UrlHandler.files st))).
Proof.
  intros Hreach.
  pose proof (DiskFacts.reachable_on_disk _ _ Hreach) as [Hnd HF].
  pose proof (UrlFacts.reachable_wf _ _ Hreach) as (Hready & _).
  cbn [UrlMore.getStatus UrlMore.os_ready UrlMore.os_diskUsageBytes
       UrlMore.os_fileCount].
  split_and!.
  - done.
  - rewrite UrlFacts.diskUsageBytes_total. symmetry.
    by eapply StatusFacts.bytes_on_disk_total.
  - unfold JsMap.values. rewrite <- list_fmap_compose.
    apply NoDup_fmap_2_strong; [|by apply StatusFacts.NoDup_pairs].
    intros [k1 e1] [k2 e2] H1 H2 Heq. simpl in Heq.
    rewrite Forall_forall in HF.
    destruct (HF _ H1) as [Hp1 _], (HF _ H2) as [Hp2 _]. simpl in *.
    rewrite Hp1, Hp2 in Heq. apply DiskFacts.path_key in Heq. subst k2.
    f_equal.
    pose proof (JsMapFacts.elem_of_get _ _ _ Hnd H1).
    pose proof (JsMapFacts.elem_of_get _ _ _ Hnd H2). congruence.
  - unfold JsMap.size, JsMap.values. by rewrite !length_fmap.
Qed.

Lemma status_reports_the_disk_witness :
  UrlMore.os_diskUsageBytes (UrlMore.getStatus (Samples.cfg 3 60) Samples.abc)
  = UrlMore.bytes_on_disk Samples.abc.
Proof.
  exact (proj1 (proj2 (status_reports_the_disk (Samples.cfg 3 60) Samples.abc
                         abc_reachable))).
Defined.

Module NameFacts.
Import UrlHandler UrlInv.

Lemma same_name_same_entry cfg st kv1 kv2 :
  reachable cfg st → kv1 ∈ files st → kv2 ∈ files st →
  filename kv1.2 = filename kv2.2 → kv1 = kv2.
Proof.
  intros Hreach H1 H2 Heq. destruct kv1 as [k1 e1], kv2 as [k2 e2].
  pose proof (UrlFacts.reachable_wf _ _ Hreach) as (_ & [_ Hnd] & _).
  simpl in Heq.
  pose proof (UrlMoreFacts.named_key _ _ _ _ _ _ Hreach H1 H2 Heq). subst k2.
  f_equal.
  pose proof (JsMapFacts.elem_of_get _ _ _ Hnd H1).
  pose proof (JsMapFacts.elem_of_get _ _ _ Hnd H2). congruence.
Qed.

Lemma lookup_tracked cfg st e :
  reachable cfg st → e ∈ JsMap.values (files st) →
  lookup_by_name (filename e) st = Some e.
Proof.
  intros Hreach Hin.
  destruct (lookup_by_name (filename e) st) as [e'|] eqn:Hl.
  - apply GetFacts.lookup_by_name_Some in Hl as [Hin' Heq].
    apply list_elem_of_fmap in Hin as ([k x] & -> & Hin).
    apply list_elem_of_fmap in Hin' as ([k' x'] & -> & Hin').
    f_equal. by injection (same_name_same_entry _ _ _ _ Hreach Hin' Hin Heq).
  - exfalso. eapply GetFacts.lookup_by_name_None in Hl; [|exact Hin]. done.
Qed.

End NameFacts.

(** X6. On a reachable store no two tracked entries have the same file
    name, so the look-up of the GET handler is unambiguous: an entry of
    that name is the one the handler finds. *)
Theorem tracked_names_are_unique cfg st :
  UrlInv.reachable cfg st →
  NoDup (UrlHandler.filename <$> JsMap.values (UrlHandler.files st))
  ∧ ∀ e, e ∈ JsMap.values (UrlHandler.files st) →
         UrlInv.lookup_by_name (UrlHandler.filename e) st = Some e.
Proof.
  intros Hreach.
  pose proof (UrlFacts.reachable_wf _ _ Hreach) as (_ & [_ Hnd] & _).
  split.
  - unfold JsMap.values. rewrite <- list_fmap_compose.
    apply NoDup_fmap_2_strong; [|by apply StatusFacts.NoDup_pairs].
    intros kv1 kv2 H1 H2 Heq. by eapply NameFacts.same_name_same_entry.
  - intros e Hin. by eapply NameFacts.lookup_tracked.
Qed.

Lemma tracked_names_are_unique_witness :
  NoDup (UrlHandler.filename <$> JsMap.values (UrlHandler.files Samples.abc)).
Proof.
  exact (proj1 (tracked_names_are_unique (Samples.cfg 3 60) Samples.abc
                  abc_reachable)).
Defined.

Module RoundTrip.
Import UrlHandler UrlInv UrlMore.

(** Setting a key in a map without repeated keys: the other entries
    keep their keys, all different from the one set. *)
Lemma set_elem_of (k : string) (v : FileEntry) (m : JsMap.t FileEntry) kv :
  NoDup (JsMap.keys m) → kv ∈ JsMap.set k v m →
  kv = (k, v) ∨ (kv ∈ m ∧ kv.1 ≠ k).
Proof.
  induction m as [|[k' v'] m IH]; simpl; intros Hnd.
  - intros [->|?%elem_of_nil]%elem_of_cons; [by left|done].
  - apply NoDup_cons in Hnd as [Hk' Hnd]. case_decide as Hk.
    + subst k'. intros [->|Hin]%elem_of_cons; [by left|].
      right. split; [by right|]. intros <-.
      apply Hk'. destruct kv. by eapply JsMapFacts.elem_of_keys.
    + intros [->|Hin]%elem_of_cons.
      * right. split; [by left|done].
      * destruct (IH Hnd Hin) as [->|[Hin' Hne]]; [by left|].
        right. split; [by right|done].
Qed.

Lemma find_in_set (p : FileEntry → bool) k v (m : JsMap.t FileEntry) :
  NoDup (JsMap.keys m) → p v = true →
  (∀ kv, kv ∈ m → kv.1 ≠ k → p kv.2 = false) →
  List.find p (JsMap.values (JsMap.set k v m)) = Some v.
Proof.
  intros Hnd Hv Hother. unfold JsMap.values.
  induction m as [|[k' v'] m IH]; simpl; [by rewrite Hv|].
  apply NoDup_cons in Hnd as [Hk' Hnd]. case_decide as Hk; simpl.
  - by rewrite Hv.
  - pose proof (Hother (k', v') ltac:(by left) Hk) as Hf. simpl in Hf.
    rewrite Hf. apply IH; [done|]. intros kv Hin. apply Hother. by right.
Qed.

Lemma get_set_eq k (v : FileEntry) (m : JsMap.t FileEntry) :
  JsMap.get k (JsMap.set k v m) = Some v.
Proof.
  induction m as [|[k' v'] m IH]; simpl.
  - by rewrite decide_True.
  - case_decide as Hk; simpl.
    + by rewrite decide_True.
    + by rewrite decide_False.
Qed.

End RoundTrip.

(** X7. Store, then fetch. After a successful [store()] on a reachable
    store, of a file whose MIME type is one of the five of the extension
    table, the URL returned is the base, the path /files/ with the new
    file name, and the new token as query; a GET of that name with that
    token, at any time up to the reported expiry, passes the handler's
    checks: with [Content-Type] set to the MIME type of the stored file
    it is handed to [res.sendFile], on a path that holds exactly the
    bytes that were stored, and the response is the one [res.sendFile]
    makes of it. *)
Theorem store_then_get cfg sendFile env file st out st' now1 now2 :
  UrlInv.reachable cfg st →
  UrlMore.mapped_type (UrlHandler.fd_mimeType file) →
  UrlHandler.store cfg env file st = (Ok out, st') →
  now1 ≤ UrlHandler.or_expiresAt out →
  let e := UrlInv.new_entry cfg env file in
  let r := UrlHandler.get_file sendFile (UrlHandler.filename e)
             (UrlHandler.QString (UrlHandler.token e)) now1 now2 st' in
  UrlHandler.url out
  = UrlMore.url_base cfg ++ "/files/" ++ UrlHandler.filename e
    ++ "?token=" ++ UrlHandler.token e
  ∧ r.1 = sendFile (UrlHandler.filepath e) (UrlHandler.file_headers e)
                   (UrlHandler.disk st')
  ∧ UrlInv.header "Content-Type" (UrlHandler.file_headers e)
    = Some (UrlHandler.fd_mimeType file)
  ∧ UrlHandler.disk st' !! UrlHandler.filepath e
    = Some (Fs.File (UrlHandler.buffer file))
  ∧ UrlHandler.disk r.2 = UrlHandler.disk st'.
Proof.
  intros Hreach _ Hstore Hlive e r.
  pose proof (UrlFacts.reachable_wf _ _ Hreach) as Hwf.
  assert (Hreach' : UrlInv.reachable cfg st').
  { destruct Hreach as [d Hrtc]. exists d. eapply rtc_r; [exact Hrtc|].
    by eapply UrlInv.step_store. }
  pose proof Hstore as Hinv.
  apply UrlFacts.store_Ok_inv in Hinv as (st1 & d & _ & Henf & Hw & -> & Hexp).
  pose proof (enforceQuotas_sublist _ _ _ _ _ Hwf Henf) as Hsh.
  pose proof (UrlFacts.shrinks_wf _ _ Hsh Hwf) as (_ & [_ Hnd1] & _).
  assert (Hurl : UrlHandler.url out
                 = UrlMore.url_base cfg ++ "/files/" ++ UrlHandler.filename e
                   ++ "?token=" ++ UrlHandler.token e).
  { revert Hstore. unfold UrlHandler.store.
    destruct (negb _); [done|]. rewrite Henf.
    destruct (if UrlHandler.write_ok env then _ else _); [|done].
    destruct (UrlHandler.valid_time _); [|done]. by intros [= <- _]. }
  assert (Hlook : UrlInv.lookup_by_name (UrlHandler.filename e)
                    {| UrlHandler.ready := UrlHandler.ready st1;
                       UrlHandler.files :=
                         JsMap.set (UrlHandler.uuid env) e
                                   (UrlHandler.files st1);
                       UrlHandler.disk := d |} = Some e).
  { unfold UrlInv.lookup_by_name. cbn [UrlHandler.files].
    apply RoundTrip.find_in_set; [done|by apply bool_decide_eq_true|].
    intros [k x] Hin Hne. apply bool_decide_eq_false. intros Heq. apply Hne.
    eapply (UrlMoreFacts.named_key cfg _ k x (UrlHandler.uuid env) e Hreach');
      cbn [UrlHandler.files]; [| |done].
    - assert ((k, x) ∈ JsMap.set (UrlHandler.uuid env) e
                                   (UrlHandler.files st1)) as Hin'; [|done].
      clear -Hin Hne. induction (UrlHandler.files st1) as [|[k' v'] m IH];
        [by apply elem_of_nil in Hin|]. simpl.
      apply elem_of_cons in Hin as [[= <- <-]|Hin].
      + rewrite decide_False by done. by left.
      + case_decide; right; [done|by apply IH].
    - apply JsMapFacts.get_elem_of, RoundTrip.get_set_eq. }
  assert (Htok : UrlHandler.token_matches e
                   (UrlHandler.QString (UrlHandler.token e)) = true)
    by (by apply token_matches_spec).
  fold e in Hexp.
  subst r. rewrite (GetFacts.get_file_pass _ _ _ _ _ _ e Hlook Htok) by lia.
  cbn [fst snd UrlHandler.disk].
  split_and!; [done|done|done| |done].
  revert Hw. unfold Fs.writeFile. fold e.
  destruct (UrlHandler.disk st1 !! UrlHandler.filepath e) as [[|?]|];
    [done|intros [= <-]..]; by rewrite lookup_insert_eq.
Qed.

Lemma store_then_get_witness :
  UrlHandler.disk Samples.one_clip
  !! UrlHandler.filepath
       (UrlInv.new_entry (Samples.cfg 3 1) (Samples.env "a" 0) Samples.clip)
  = Some (Fs.File (UrlHandler.buffer Samples.clip)).
Proof.
  refine (proj1 (proj2 (proj2 (proj2
            (store_then_get (Samples.cfg 3 1) Samples.sendFile
               (Samples.env "a" 0) Samples.clip
               (Samples.fresh (Samples.cfg 3 1))
               {| UrlHandler.url :=
                    "http://localhost:8081/files/a.mp4?token=tok-a";
                  UrlHandler.or_metadata := None;
                  UrlHandler.or_expiresAt := 1000 |}
               Samples.one_clip 1000 1001 _ _ _ _))))).
  - exists ∅. apply rtc_refl.
  - apply list_elem_of_here.
  - vm_compute. reflexivity.
  - simpl. lia.
Defined.

Module PressureFacts.
Import UrlHandler UrlInv UrlMore.

Lemma enforceQuotas_no_pressure cfg now incoming st :
  wf st → all_live now st → 0 ≤ incoming →
  diskUsageBytes st + incoming ≤ maxDiskBytes cfg →
  fileCount st < maxFiles cfg →
  enforceQuotas cfg now incoming st = (Ok tt, st).
Proof.
  intros (_ & _ & Hsz) Hlive Hinc Hroom Hcount. unfold enforceQuotas.
  rewrite SweepFacts.cleanup_nothing_expired by done.
  pose proof (UrlFacts.total_size_nonneg _ Hsz) as Hpos.
  rewrite UrlFacts.diskUsageBytes_total in *.
  assert ((incoming >? maxDiskBytes cfg) = false) as -> by lia.
  rewrite LruFacts.evict_for_size_fits by done.
  assert ((fileCount st >=? maxFiles cfg) = false) as Hc by lia.
  destruct (loop_fuel st); simpl; by rewrite Hc.
Qed.

Lemma enforceQuotas_at_cap cfg now incoming st lru :
  wf st → all_live now st → 0 ≤ incoming →
  diskUsageBytes st + incoming ≤ maxDiskBytes cfg →
  fileCount st = maxFiles cfg → 1 ≤ maxFiles cfg →
  findLRU st = Some lru →
  enforceQuotas cfg now incoming st = (Ok tt, removeFile (id lru) st).
Proof.
  intros Hwf Hlive Hinc Hroom Hcount Hcap Hf. unfold enforceQuotas.
  rewrite SweepFacts.cleanup_nothing_expired by done.
  pose proof Hwf as (_ & _ & Hsz).
  pose proof (UrlFacts.total_size_nonneg _ Hsz) as Hpos.
  rewrite UrlFacts.diskUsageBytes_total in *.
  assert ((incoming >? maxDiskBytes cfg) = false) as -> by lia.
  rewrite LruFacts.evict_for_size_fits by done.
  by apply LruFacts.evict_for_count_at_cap.
Qed.

(** The rest of [store] once [enforceQuotas] has returned. *)
Lemma store_after_enforce cfg env file st st1 d :
  ready st = true →
  enforceQuotas cfg (now_sweep env) (Z.of_nat (length (buffer file))) st
  = (Ok tt, st1) →
  write_ok env = true →
  Fs.writeFile (filepath (new_entry cfg env file)) (buffer file) (disk st1)
  = Some d →
  valid_time (expiresAt (new_entry cfg env file)) = true →
  store cfg env file st
  = (Ok {| url := url_base cfg ++ "/files/"
                  ++ filename (new_entry cfg env file)
                  ++ "?token=" ++ rand_token env;
           or_metadata := fd_metadata file;
           or_expiresAt := expiresAt (new_entry cfg env file) |},
     {| ready := ready st1;
        files := JsMap.set (uuid env) (new_entry cfg env file) (files st1);
        disk := d |}).
Proof.
  intros Hr Henf Hok Hw Ht. unfold store. rewrite Hr. cbn [negb].
  rewrite Henf, Hok. unfold new_entry in Hw, Ht.
  cbn [filepath expiresAt] in Hw, Ht. rewrite Hw. cbn [expiresAt].
  by rewrite Ht.
Qed.

End PressureFacts.

(** X8. Without pressure nothing is evicted. On a reachable store with
    nothing expired, room for the incoming bytes and fewer files than
    the cap, a [store()] whose write goes through keeps every tracked
    entry and every file: the new state is the old one with the new
    entry set and the new file written. *)
Theorem store_without_pressure_keeps_all cfg env file st d :
  UrlInv.reachable cfg st →
  UrlMore.all_live (UrlHandler.now_sweep env) st →
  UrlHandler.diskUsageBytes st + Z.of_nat (length (UrlHandler.buffer file))
    ≤ UrlHandler.maxDiskBytes cfg →
  UrlHandler.fileCount st < UrlHandler.maxFiles cfg →
  UrlHandler.write_ok env = true →
  Fs.writeFile (UrlHandler.filepath (UrlInv.new_entry cfg env file))
               (UrlHandler.buffer file) (UrlHandler.disk st) = Some d →
  UrlHandler.valid_time (UrlHandler.expiresAt (UrlInv.new_entry cfg env file))
    = true →
  ∃ out,
    UrlHandler.store cfg env file st
    = (Ok out,
       {| UrlHandler.ready := true;
          UrlHandler.files :=
            JsMap.set (UrlHandler.uuid env) (UrlInv.new_entry cfg env file)
                      (UrlHandler.files st);
          UrlHandler.disk := d |}).
Proof.
  intros Hreach Hlive Hroom Hcount Hok Hw Ht.
  pose proof (UrlFacts.reachable_wf _ _ Hreach) as Hwf.
  pose proof Hwf as (Hr & _). eexists.
  erewrite PressureFacts.store_after_enforce; [by rewrite Hr|done| |done|done|done].
  apply PressureFacts.enforceQuotas_no_pressure; [done|done|lia|done|done].
Qed.

Lemma store_without_pressure_keeps_all_witness :
  ∃ out,
    UrlHandler.store (Samples.cfg 3 60) (Samples.env "b" 2) Samples.clip
                     Samples.abc_1
    = (Ok out,
       {| UrlHandler.ready := true;
          UrlHandler.files :=
            JsMap.set "b" (UrlInv.new_entry (Samples.cfg 3 60)
                                            (Samples.env "b" 2) Samples.clip)
                      (UrlHandler.files Samples.abc_1);
          UrlHandler.disk := UrlHandler.disk Samples.abc_2 |}).
Proof.
  apply (store_without_pressure_keeps_all (Samples.cfg 3 60)
           (Samples.env "b" 2) Samples.clip Samples.abc_1).
  - exists ∅. eapply rtc_l; [|apply rtc_refl].
    eapply (UrlInv.step_store _ (Samples.env "a" 1) Samples.clip).
    apply surjective_pairing.
  - repeat constructor; vm_compute; discriminate.
  - vm_compute. discriminate.
  - vm_compute. reflexivity.
  - reflexivity.
  - vm_compute. reflexivity.
  - vm_compute. reflexivity.
Defined.

(** X9. At the cap exactly one entry goes. On a reachable store with
    nothing expired, room for the incoming bytes and as many files as
    the cap allows, a [store()] that returns has evicted the entry that
    [findLRU] names and no other: the new map is the old one without
    that key and with the new entry set. On the disk the new file holds
    the stored bytes, the evicted entry's file is gone or, where its
    unlink did not go through, left as it was, and no other path has
    changed. *)
Theorem store_at_cap_evicts_one cfg env file st lru out st' :
  UrlInv.reachable cfg st →
  UrlMore.all_live (UrlHandler.now_sweep env) st →
  UrlHandler.diskUsageBytes st + Z.of_nat (length (UrlHandler.buffer file))
    ≤ UrlHandler.maxDiskBytes cfg →
  UrlHandler.fileCount st = UrlHandler.maxFiles cfg →
  1 ≤ UrlHandler.maxFiles cfg →
  UrlHandler.findLRU st = Some lru →
  UrlHandler.store cfg env file st = (Ok out, st') →
  let e := UrlInv.new_entry cfg env file in
  UrlHandler.files st'
  = JsMap.set (UrlHandler.uuid env) e
              (JsMap.delete (UrlHandler.id lru) (UrlHandler.files st))
  ∧ UrlHandler.disk st' !! UrlHandler.filepath e
    = Some (Fs.File (UrlHandler.buffer file))
  ∧ (UrlHandler.filepath lru ≠ UrlHandler.filepath e →
     UrlHandler.disk st' !! UrlHandler.filepath lru = None
     ∨ UrlHandler.disk st' !! UrlHandler.filepath lru
       = UrlHandler.disk st !! UrlHandler.filepath lru)
  ∧ ∀ p, p ≠ UrlHandler.filepath lru → p ≠ UrlHandler.filepath e →
         UrlHandler.disk st' !! p = UrlHandler.disk st !! p.
Proof.
  intros Hreach Hlive Hroom Hcount Hcap Hf Hstore e.
  pose proof (UrlFacts.reachable_wf _ _ Hreach) as Hwf.
  pose proof Hwf as (Hr & Hk & _).
  pose proof (UrlFacts.findLRU_get _ _ Hk Hf) as Hget.
  apply UrlFacts.store_Ok_inv in Hstore as (st1 & d & _ & Henf & Hw & -> & _).
  rewrite (PressureFacts.enforceQuotas_at_cap cfg _ _ st lru) in Henf
    by (done || lia).
  injection Henf as <-. fold e in Hw. cbn [UrlHandler.files UrlHandler.disk].
  assert (Hd : ∀ p, p ≠ UrlHandler.filepath e →
                    d !! p
                    = UrlHandler.disk
                        (UrlHandler.removeFile (UrlHandler.id lru) st) !! p).
  { intros p Hp. revert Hw. unfold Fs.writeFile.
    destruct (_ !! UrlHandler.filepath e) as [[|?]|];
      [done|intros [= <-]..]; by rewrite lookup_insert_ne. }
  split_and!.
  - by rewrite UrlFacts.removeFile_files.
  - revert Hw. unfold Fs.writeFile.
    destruct (_ !! UrlHandler.filepath e) as [[|?]|];
      [done|intros [= <-]..]; by rewrite lookup_insert_eq.
  - intros Hne. rewrite Hd by done.
    unfold UrlHandler.removeFile. rewrite Hget. cbn [UrlHandler.disk].
    unfold Fs.unlink.
    destruct (UrlHandler.disk st !! UrlHandler.filepath lru) as [[|data]|]
      eqn:Hl; [by right| |by right].
    left. apply lookup_delete_eq.
  - intros p Hp1 Hp2. rewrite Hd by done.
    apply UrlFacts.removeFile_disk_other.
    intros x Hx. rewrite Hget in Hx. by injection Hx as <-.
Qed.

Lemma store_at_cap_evicts_one_witness :
  UrlHandler.files
    (UrlHandler.store (Samples.cfg 3 60) (Samples.env "d" 10) Samples.clip
                      Samples.abc).2
  = JsMap.set (UrlHandler.uuid (Samples.env "d" 10))
      (UrlInv.new_entry (Samples.cfg 3 60) (Samples.env "d" 10) Samples.clip)
      (JsMap.delete (UrlHandler.id Samples.entry_a)
                    (UrlHandler.files Samples.abc)).
Proof.
  refine (proj1 (store_at_cap_evicts_one (Samples.cfg 3 60)
                   (Samples.env "d" 10) Samples.clip Samples.abc
                   Samples.entry_a
                   {| UrlHandler.url :=
                        "http://localhost:8081/files/d.mp4?token=tok-d";
                      UrlHandler.or_metadata := None;
                      UrlHandler.or_expiresAt := 60010 |}
                   _ _ _ _ _ _ _ _)).
  - apply abc_reachable.
  - unfold UrlMore.all_live. rewrite abc_files.
    repeat constructor; vm_compute; discriminate.
  - vm_compute. discriminate.
  - vm_compute. reflexivity.
  - vm_compute. discriminate.
  - vm_compute. reflexivity.
  - vm_compute. reflexivity.
Defined.

(** X10. The evicted file is gone for its readers. After a [store()]
    on a reachable store with nothing expired, room for the incoming
    bytes and as many files as the cap allows, under a new id other than
    the one of the entry that [findLRU] named, a GET of that entry's
    file name is answered 404 whatever the token, and changes nothing. *)
Theorem evicted_file_is_not_found cfg sendFile env file st out st' lru q
    now1 now2 :
  UrlInv.reachable cfg st →
  UrlMore.all_live (UrlHandler.now_sweep env) st →
  UrlHandler.diskUsageBytes st + Z.of_nat (length (UrlHandler.buffer file))
    ≤ UrlHandler.maxDiskBytes cfg →
  UrlHandler.fileCount st = UrlHandler.maxFiles cfg →
  1 ≤ UrlHandler.maxFiles cfg →
  UrlHandler.findLRU st = Some lru →
  UrlHandler.uuid env ≠ UrlHandler.id lru →
  UrlHandler.store cfg env file st = (Ok out, st') →
  UrlHandler.get_file sendFile (UrlHandler.filename lru) q now1 now2 st'
  = (UrlHandler.error_response 404 "File not found", st').
Proof.
  intros Hreach Hlive Hroom Hcount Hcap Hf Hne Hstore.
  pose proof (UrlFacts.reachable_wf _ _ Hreach) as Hwf.
  pose proof Hwf as (_ & [Hkey Hnd] & _).
  pose proof (UrlFacts.findLRU_get _ _ (conj Hkey Hnd) Hf) as Hget.
  apply JsMapFacts.get_elem_of in Hget.
  apply UrlFacts.store_Ok_inv in Hstore as (st1 & d & _ & Henf & _ & -> & _).
  rewrite (PressureFacts.enforceQuotas_at_cap cfg _ _ st lru) in Henf
    by (done || lia).
  injection Henf as <-.
  apply GetFacts.get_file_404, GetFacts.lookup_by_name_None.
  cbn [UrlHandler.files]. rewrite UrlFacts.removeFile_files.
  intros e [[k x] [-> Hin]]%list_elem_of_fmap Heq. simpl in Heq.
  assert (Hnd' : NoDup (JsMap.keys (JsMap.delete (UrlHandler.id lru)
                                                 (UrlHandler.files st)))).
  { eapply sublist_NoDup; [exact Hnd|].
    apply JsMapFacts.keys_sublist, JsMapFacts.delete_sublist. }
  apply RoundTrip.set_elem_of in Hin as [[= -> ->]|[Hin Hk]]; [| |done].
  - (* the new entry has another name *)
    pose proof (UrlMoreFacts.reachable_named _ _ Hreach) as Hn.
    rewrite Forall_forall in Hn. specialize (Hn _ Hget).
    unfold UrlMore.named in Hn. simpl in Hn, Heq. rewrite Hn in Heq.
    apply (f_equal UrlInv.stem) in Heq.
    rewrite !(DiskFacts.stem_app _ _ EmptyString) in Heq
      by apply DiskFacts.stem_getExtension.
    rewrite !FsFacts.app_nil_r in Heq. by injection Heq.
  - (* an old entry of that name would be the evicted one *)
    rewrite JsMapFacts.delete_filter in Hin by done.
    apply list_elem_of_filter in Hin as [Hkx Hin]. simpl in Hkx.
    pose proof (NameFacts.same_name_same_entry cfg st (k, x)
                  (UrlHandler.id lru, lru) Hreach Hin Hget Heq) as Hsame.
    by injection Hsame as -> _.
Qed.

Lemma evicted_file_is_not_found_witness :
  UrlHandler.status
    (UrlHandler.get_file Samples.sendFile (UrlHandler.filename Samples.entry_a)
       (UrlHandler.QString "tok-a") 20 20
       (UrlHandler.store (Samples.cfg 3 60) (Samples.env "d" 10) Samples.clip
                         Samples.abc).2).1 = 404.
Proof.
  rewrite (evicted_file_is_not_found (Samples.cfg 3 60) Samples.sendFile
             (Samples.env "d" 10) Samples.clip Samples.abc
             {| UrlHandler.url :=
                  "http://localhost:8081/files/d.mp4?token=tok-d";
                UrlHandler.or_metadata := None;
                UrlHandler.or_expiresAt := 60010 |}
             (UrlHandler.store (Samples.cfg 3 60) (Samples.env "d" 10)
                               Samples.clip Samples.abc).2
             Samples.entry_a (UrlHandler.QString "tok-a") 20 20).
  - reflexivity.
  - apply abc_reachable.
  - unfold UrlMore.all_live. rewrite abc_files.
    repeat constructor; vm_compute; discriminate.
  - vm_compute. discriminate.
  - vm_compute. reflexivity.
  - vm_compute. discriminate.
  - vm_compute. reflexivity.
  - vm_compute. discriminate.
  - vm_compute. reflexivity.
Defined.

(** * Further properties of the build cache *)


(** X11. Sources of equal hash share a bundle. After a successful
    [bundle] of one source, present on disk, a [bundle] under the same
    template name of any source with the same [hashCode] is a cache hit:
    it returns the first source's bundle and compiles nothing. Such
    sources exist: putting BB for Aa anywhere in a text keeps its
    hash. *)
Theorem colliding_source_gets_cached_bundle b env1 env2 code1 code2
    templateName w0 r1 w1 :
  DynamicBundler.hashCode code1 = DynamicBundler.hashCode code2 →
  DynamicBundler.bundle b env1 code1 templateName w0 = (Ok r1, w1) →
  DynamicBundler.bundlePath r1 ≠ EmptyString →
  Fs.exists_ (DynamicBundler.bundlePath r1) (fs w1) = true →
  DynamicBundler.bundle b env2 code2 templateName w1
  = (Ok {| DynamicBundler.bundlePath := DynamicBundler.bundlePath r1;
           DynamicBundler.cleanup := DynamicBundler.KeepCached |}, w1)
  ∧ ∀ p s, DynamicBundler.hashCode (p ++ "Aa" ++ s)
           = DynamicBundler.hashCode (p ++ "BB" ++ s).
Proof.
  intros Hhash Hfirst Hne Hdisk. split; [|apply BundleMoreFacts.hashCode_Aa_BB].
  apply BundleFacts.bundle_Ok_inv in Hfirst as (Hcache & _ & _).
  apply BundleFacts.bundle_hit; [|done|done].
  unfold DynamicBundler.cacheKey in *. by rewrite <- Hhash.
Qed.

Lemma colliding_source_gets_cached_bundle_witness :
  DynamicBundler.bundle Samples.bundler (Samples.bundle_env "p2")
    "export const BB = 1" "universal"
    (DynamicBundler.bundle Samples.bundler (Samples.bundle_env "p1")
       "export const Aa = 1" "universal" Samples.empty_world).2
  = (Ok {| DynamicBundler.bundlePath :=
             DynamicBundler.bundlePath
               {| DynamicBundler.bundlePath :=
                    BundleSpec.bundleDir Samples.bundler
                      "export const Aa = 1" "universal";
                  DynamicBundler.cleanup :=
                    DynamicBundler.RmProject
                      (BundleSpec.projectDir Samples.bundler
                                             (Samples.bundle_env "p1")) |};
           DynamicBundler.cleanup := DynamicBundler.KeepCached |},
     (DynamicBundler.bundle Samples.bundler (Samples.bundle_env "p1")
        "export const Aa = 1" "universal" Samples.empty_world).2).
Proof.
  refine (proj1 (colliding_source_gets_cached_bundle Samples.bundler
                   (Samples.bundle_env "p1") (Samples.bundle_env "p2")
                   "export const Aa = 1" "export const BB = 1" "universal"
                   Samples.empty_world _ _ _ _ _ _)).
  - vm_compute. reflexivity.
  - vm_compute. reflexivity.
  - vm_compute. discriminate.
  - vm_compute. reflexivity.
Defined.


(** X12. A failed build leaves nothing behind. When [bundle] throws
    with the bundler module loaded, whatever failed (the scaffold or the
    backend), the cache table has gained no entry; and for each of the
    two removals of the catch block that goes through, nothing is left
    at or below the project directory, respectively the bundle
    directory. *)
Theorem failed_bundle_cleans_up b m env templateCode templateName w msg w' :
  DynamicBundler.bundler b = Some m →
  DynamicBundler.bundle b env templateCode templateName w = (Throw msg, w') →
  (bundleCache w' = bundleCache w
   ∨ bundleCache w'
     = delete (DynamicBundler.cacheKey templateCode templateName)
              (bundleCache w))
  ∧ (DynamicBundler.rm_project_ok env = true →
     ∀ p, Fs.under (BundleSpec.projectDir b env) p = true → fs w' !! p = None)
  ∧ (DynamicBundler.rm_bundle_ok env = true →
     ∀ p, Fs.under (BundleSpec.bundleDir b templateCode templateName) p = true
          → fs w' !! p = None).
Proof.
  intros Hm. unfold DynamicBundler.bundle.
  set (key := DynamicBundler.cacheKey templateCode templateName).
  unfold bind at 1.
  destruct (DynamicBundler.probe_cache key w) as [[hit|?|] w0] eqn:Hp.
  2,3: by apply BundleMoreFacts.probe_cache_cases in Hp
         as [(? & ? & _)|(? & _)].
  apply BundleMoreFacts.probe_cache_cases in Hp
    as [(path & [= ->] & _)|([= ->] & _ & _ & _ & Hcache)]; [done|].
  rewrite Hm. unfold on_error.
  match goal with |- context [bind ?a ?k w0] =>
    destruct (bind a k w0) as [r w1] eqn:Hbody end.
  apply (BundleOutcome.try_body_inv b m env templateCode key) in Hbody
    as [(path & -> & _)|(Hr & Hc1 & _)]; [done|].
  destruct r as [x| |]; [by destruct (Hr x)| |done].
  intros [= <- <-].
  destruct (BundleFacts.rm_quiet_calls (DynamicBundler.rm_bundle_ok env)
              (Fs.join (DynamicBundler.cacheDir b) ("bundle-" ++ key))
              (rm_quiet (DynamicBundler.rm_project_ok env)
                        (BundleSpec.projectDir b env) w1)) as [_ Hb1].
  destruct (BundleFacts.rm_quiet_calls (DynamicBundler.rm_project_ok env)
              (BundleSpec.projectDir b env) w1) as [_ Hb2].
  split_and!.
  - unfold BundleSpec.projectDir in *. rewrite Hb1, Hb2, Hc1. exact Hcache.
  - intros -> p Hp. apply BundleMoreFacts.rm_quiet_None.
    by apply RenderFacts.rm_quiet_gone.
  - intros -> p Hp. by apply RenderFacts.rm_quiet_gone.
Qed.

(** X13. Without the bundler module only a cache hit succeeds. With
    [@remotion/bundler] not loaded, [bundle] touches neither the disk
    nor the backend; it returns a cached path with the no-op release, or
    throws Bundler not available. *)
Theorem bundle_without_bundler_module b env templateCode templateName w r w' :
  DynamicBundler.bundler b = None →
  DynamicBundler.bundle b env templateCode templateName w = (r, w') →
  fs w' = fs w ∧ calls w' = calls w
  ∧ ((∃ path,
        r = Ok {| DynamicBundler.bundlePath := path;
                  DynamicBundler.cleanup := DynamicBundler.KeepCached |}
        ∧ bundleCache w
          !! DynamicBundler.cacheKey templateCode templateName = Some path
        ∧ Fs.exists_ path (fs w) = true)
     ∨ r = Throw "Bundler not available").
Proof.
  intros Hm. unfold DynamicBundler.bundle.
  set (key := DynamicBundler.cacheKey templateCode templateName).
  unfold bind at 1.
  destruct (DynamicBundler.probe_cache key w) as [[hit|?|] w0] eqn:Hp.
  2,3: by apply BundleMoreFacts.probe_cache_cases in Hp
         as [(? & ? & _)|(? & _)].
  apply BundleMoreFacts.probe_cache_cases in Hp
    as [(path & [= ->] & -> & Hc & _ & Hex)
       |([= ->] & _ & Hcalls & Hfs & _)].
  - intros [= <- <-]. split_and!; [done|done|]. left. by exists path.
  - rewrite Hm. intros [= <- <-]. split_and!; [done|done|by right].
Qed.

(** X14. A successful [bundle] is a pure cache hit or exactly one
    compile. Either the cache held a non-empty path that is on disk:
    that path is returned with the no-op release and nothing changes.
    Or it held none: the backend was called once, on the entry point of
    the new scaffold and the directory bundle-key; the path it returned
    is what is returned and what the cache now holds for the key; and
    the release removes the scaffold. *)
Theorem successful_bundle_cases b env templateCode templateName w r w' :
  DynamicBundler.bundle b env templateCode templateName w = (Ok r, w') →
  (DynamicBundler.cleanup r = DynamicBundler.KeepCached
   ∧ w' = w
   ∧ bundleCache w !! DynamicBundler.cacheKey templateCode templateName
     = Some (DynamicBundler.bundlePath r)
   ∧ Fs.exists_ (DynamicBundler.bundlePath r) (fs w) = true)
  ∨ (DynamicBundler.cleanup r
     = DynamicBundler.RmProject (BundleSpec.projectDir b env)
     ∧ BundleMore.cache_miss
         (DynamicBundler.cacheKey templateCode templateName) w
     ∧ calls w'
       = (calls w
          ++ [CallBundle (BundleMore.entryPoint b env)
                (BundleSpec.bundleDir b templateCode templateName)])%list
     ∧ bundleCache w'
       = <[DynamicBundler.cacheKey templateCode templateName
           := DynamicBundler.bundlePath r]> (bundleCache w)).
Proof.
  unfold DynamicBundler.bundle.
  set (key := DynamicBundler.cacheKey templateCode templateName).
  unfold bind at 1.
  destruct (DynamicBundler.probe_cache key w) as [[hit|?|] w0] eqn:Hp.
  2,3: by apply BundleMoreFacts.probe_cache_cases in Hp
         as [(? & ? & _)|(? & _)].
  apply BundleMoreFacts.probe_cache_cases in Hp
    as [(path & [= ->] & -> & Hc & _ & Hex)
       |([= ->] & Hmiss & Hcalls & Hfs & Hcache)].
  - intros [= <- <-]. by left.
  - destruct (DynamicBundler.bundler b) as [m|]; [|done].
    unfold on_error.
    match goal with |- context [bind ?a ?k w0] =>
      destruct (bind a k w0) as [r0 w1] eqn:Hbody end.
    apply (BundleOutcome.try_body_inv b m env templateCode key) in Hbody
      as [(path & -> & Hc1 & Hb1)|(Hr & _)].
    + intros [= <- <-]. right. cbn. split_and!; [done|done| |].
      * by rewrite Hc1, Hcalls.
      * rewrite Hb1. destruct Hcache as [-> | ->]; [done|].
        apply insert_delete_eq.
    + destruct r0 as [x| |]; [by destruct (Hr x)|done|done].
Qed.

Lemma failed_bundle_cleans_up_witness :
  fs (DynamicBundler.bundle MoreSamples.broken_bundler
        (Samples.bundle_env "p1") "export const Main = 1" "universal"
        Samples.empty_world).2
  !! Fs.join (BundleSpec.bundleDir MoreSamples.broken_bundler
                "export const Main = 1" "universal") "index.html"
  = None.
Proof.
  refine (proj2 (proj2 (failed_bundle_cleans_up MoreSamples.broken_bundler
            MoreSamples.failing_backend (Samples.bundle_env "p1")
            "export const Main = 1" "universal" Samples.empty_world
            "bundle failed" _ _ _)) _ _ _).
  - reflexivity.
  - vm_compute. reflexivity.
  - reflexivity.
  - vm_compute. reflexivity.
Defined.

Lemma bundle_without_bundler_module_witness :
  fs (DynamicBundler.bundle MoreSamples.absent_bundler
        (Samples.bundle_env "p1") "export const Main = 1" "universal"
        Samples.empty_world).2 = fs Samples.empty_world
  ∧ calls (DynamicBundler.bundle MoreSamples.absent_bundler
             (Samples.bundle_env "p1") "export const Main = 1" "universal"
             Samples.empty_world).2 = calls Samples.empty_world
  ∧ ((∃ path,
        (DynamicBundler.bundle MoreSamples.absent_bundler
           (Samples.bundle_env "p1") "export const Main = 1" "universal"
           Samples.empty_world).1
        = Ok {| DynamicBundler.bundlePath := path;
                DynamicBundler.cleanup := DynamicBundler.KeepCached |}
        ∧ bundleCache Samples.empty_world
          !! DynamicBundler.cacheKey "export const Main = 1" "universal"
          = Some path
        ∧ Fs.exists_ path (fs Samples.empty_world) = true)
     ∨ (DynamicBundler.bundle MoreSamples.absent_bundler
          (Samples.bundle_env "p1") "export const Main = 1" "universal"
          Samples.empty_world).1 = Throw "Bundler not available").
Proof.
  apply (bundle_without_bundler_module MoreSamples.absent_bundler
           (Samples.bundle_env "p1") "export const Main = 1" "universal"
           Samples.empty_world).
  - reflexivity.
  - vm_compute. reflexivity.
Defined.

Lemma successful_bundle_cases_witness :
  calls (DynamicBundler.bundle Samples.bundler (Samples.bundle_env "p1")
           "export const Main = 1" "universal" Samples.empty_world).2
  = [CallBundle "/work/bundles/project-p1/src/index.ts"
                (BundleSpec.bundleDir Samples.bundler
                   "export const Main = 1" "universal")].
Proof.
  destruct (successful_bundle_cases Samples.bundler (Samples.bundle_env "p1")
              "export const Main = 1" "universal" Samples.empty_world
              {| DynamicBundler.bundlePath :=
                   BundleSpec.bundleDir Samples.bundler
                     "export const Main = 1" "universal";
                 DynamicBundler.cleanup :=
                   DynamicBundler.RmProject
                     (BundleSpec.projectDir Samples.bundler
                                            (Samples.bundle_env "p1")) |}
              (DynamicBundler.bundle Samples.bundler (Samples.bundle_env "p1")
                 "export const Main = 1" "universal" Samples.empty_world).2)
    as [(Hk & _)|(_ & _ & Hcalls & _)].
  - vm_compute. reflexivity.
  - discriminate Hk.
  - exact Hcalls.
Defined.

Module ConfinedFacts.
Import RenderEngine RenderSpec RenderMore.

Lemma set_fs_same w : set_fs (fs w) w = w.
Proof. by destruct w. Qed.

Lemma confined_ret {A} d (a : A) : confined d (ret a).
Proof. by intros w r w' [= <- <-]. Qed.

Lemma confined_bind {A B} d (m : M A) (k : A → M B) :
  confined d m → (∀ a, confined d (k a)) → confined d (bind m k).
Proof.
  intros Hm Hk w r w'. unfold bind.
  destruct (m w) as [[a|msg|] w1] eqn:Hmw;
    destruct (Hm _ _ _ Hmw) as (Hc & Hb & Hf).
  - intros Hkw. destruct (Hk a _ _ _ Hkw) as (Hc2 & Hb2 & Hf2).
    split_and!; [congruence|congruence|].
    intros p Hp. by rewrite Hf2, Hf.
  - by intros [= <- <-].
  - by intros [= <- <-].
Qed.

Lemma confined_mkdir d ok q :
  Fs.under d q = true → confined d (syscall "mkdir" ok (Fs.mkdir q)).
Proof.
  intros Hq w r w'. unfold syscall, Fs.mkdir.
  destruct ok; [|by intros [= <- <-]].
  destruct (fs w !! q) as [[|data]|] eqn:Hl; intros [= <- <-];
    split_and!; try done.
  intros p Hp. cbn [fs set_fs]. apply lookup_insert_ne. by intros ->; congruence.
Qed.

Lemma confined_writeFile d ok q data :
  Fs.under d q = true →
  confined d (syscall "writeFile" ok (Fs.writeFile q data)).
Proof.
  intros Hq w r w'. unfold syscall, Fs.writeFile.
  destruct ok; [|by intros [= <- <-]].
  destruct (fs w !! q) as [[|old]|] eqn:Hl; intros [= <- <-];
    split_and!; try done.
  all: intros p Hp; cbn [fs set_fs]; apply lookup_insert_ne;
    by intros ->; congruence.
Qed.

Lemma confined_readFile d ok q : confined d (readFile ok q).
Proof.
  intros w r w'. unfold readFile.
  by destruct (if ok then Fs.readFile q (fs w) else None); intros [= <- <-].
Qed.

Lemma confined_try_finally {A} d (body : M A) ok :
  confined d body → confined d (try_finally body (rm_quiet ok d)).
Proof.
  intros Hb w r w'. rewrite RenderFacts.try_finally_run. intros [= <- <-].
  destruct (Hb w (body w).1 (body w).2) as (Hc & Hbc & Hf);
    [by destruct (body w)|].
  destruct (BundleFacts.rm_quiet_calls ok d (body w).2) as [-> ->].
  split_and!; [done|done|].
  intros p Hp. rewrite <- Hf by done. unfold rm_quiet.
  destruct ok; [|done]. cbn [fs set_fs]. by apply FsFacts.rm_rf_other.
Qed.

Lemma renderVideo_confined e env params templateCode :
  renderer e = None →
  confined (job_workDir e env) (renderVideo e env params templateCode).
Proof.
  intros Hmock. unfold renderVideo. rewrite Hmock.
  apply confined_try_finally.
  apply confined_bind; [apply confined_mkdir, FsFacts.under_refl|]. intros _.
  apply confined_bind; [apply confined_writeFile, FsFacts.under_join|].
  intros _. apply confined_bind; [apply confined_readFile|].
  intros buf. apply confined_ret.
Qed.

Lemma renderImage_confined e env params templateCode :
  renderer e = None →
  confined (job_workDir e env) (renderImage e env params templateCode).
Proof.
  intros Hmock. unfold renderImage. rewrite Hmock.
  apply confined_try_finally.
  apply confined_bind; [apply confined_mkdir, FsFacts.under_refl|]. intros _.
  apply confined_bind; [apply confined_writeFile, FsFacts.under_join|].
  intros _. apply confined_bind; [apply confined_readFile|].
  intros buf. apply confined_ret.
Qed.

(** Removing a directory that was not there before, with one file
    written into it, gives back the old tree. *)
Lemma rm_rf_restores d name x (t : Fs.t) :
  (∀ p, Fs.under d p = true → t !! p = None) →
  Fs.rm_rf d (<[Fs.join d name := x]> (<[d := Fs.Dir]> t)) = t.
Proof.
  intros Hfree. apply map_eq. intros p.
  destruct (Fs.under d p) eqn:Hp.
  - rewrite FsFacts.rm_rf_gone by done. symmetry. by apply Hfree.
  - rewrite FsFacts.rm_rf_other by done.
    rewrite lookup_insert_ne.
    2:{ intros <-. by rewrite FsFacts.under_join in Hp. }
    rewrite lookup_insert_ne; [done|].
    intros <-. by rewrite FsFacts.under_refl in Hp.
Qed.

Lemma renderImage_mock e env params templateCode w :
  renderer e = None →
  mkdir_ok env = true → write_ok env = true → read_ok env = true →
  (∀ p, Fs.under (job_workDir e env) p = true → fs w !! p = None) →
  renderImage e env params templateCode w
  = (Ok {| rr_buffer := mock_image e params;
           rr_mimeType := image_mimeType (resolved_image_format params);
           rr_metadata :=
             {| md_duration := None;
                md_width := resolved_image_width params;
                md_height := resolved_image_height params;
                md_fps := None |} |},
     rm_quiet (rm_workDir_ok env) (job_workDir e env)
       (set_fs (<[image_outputPath e env params := Fs.File (mock_image e params)]>
                  (<[job_workDir e env := Fs.Dir]> (fs w))) w)).
Proof.
  intros Hmock Hmk Hwr Hrd Hfree.
  pose proof (Hfree _ (FsFacts.under_refl _)) as Hwd.
  pose proof (Hfree _ (FsFacts.under_join (job_workDir e env)
                         ("output." ++ image_format_name
                                         (resolved_image_format params)))) as Hout.
  unfold renderImage. rewrite RenderFacts.try_finally_run, Hmock.
  fold (resolved_image_format params) (resolved_image_width params)
       (resolved_image_height params).
  fold (image_outputPath e env params) in Hout |- *.
  fold (mock_image e params).
  fold (image_mimeType (resolved_image_format params)).
  unfold bind, syscall, readFile, ret. rewrite Hmk, Hwr, Hrd.
  unfold Fs.mkdir. rewrite Hwd. cbn [fs set_fs].
  unfold Fs.writeFile.
  rewrite lookup_insert_ne by (symmetry; apply FsFacts.join_ne).
  rewrite Hout. cbn [fs set_fs].
  unfold Fs.readFile. rewrite lookup_insert_eq. reflexivity.
Qed.

Lemma rm_quiet_restores d name x w :
  (∀ p, Fs.under d p = true → fs w !! p = None) →
  rm_quiet true d (set_fs (<[Fs.join d name := x]> (<[d := Fs.Dir]> (fs w))) w)
  = w.
Proof.
  intros Hfree. unfold rm_quiet. cbn [fs set_fs].
  rewrite rm_rf_restores by done. destruct w; reflexivity.
Qed.

End ConfinedFacts.

(** X15. A mock render stays inside its job directory. Without a
    rendering backend, on a file system where the engine's work
    directory exists (as after [initialize()]), whatever [renderVideo]
    or [renderImage] returns or throws, it has called no backend, has
    left the bundle cache table as it was, and has changed no path
    outside the job's working directory. *)
Theorem mock_render_is_confined e env templateCode w :
  RenderEngine.renderer e = None →
  fs w !! RenderEngine.workDir (RenderEngine.config e) = Some Fs.Dir →
  (∀ params r w',
     RenderEngine.renderVideo e env params templateCode w = (r, w') →
     calls w' = calls w ∧ bundleCache w' = bundleCache w
     ∧ ∀ p, Fs.under (RenderEngine.job_workDir e env) p = false →
            fs w' !! p = fs w !! p)
  ∧ (∀ params r w',
       RenderEngine.renderImage e env params templateCode w = (r, w') →
       calls w' = calls w ∧ bundleCache w' = bundleCache w
       ∧ ∀ p, Fs.under (RenderEngine.job_workDir e env) p = false →
              fs w' !! p = fs w !! p).
Proof.
  intros Hmock _. split; intros params r w' Hrun.
  - by apply (ConfinedFacts.renderVideo_confined e env params templateCode
                Hmock w r w').
  - by apply (ConfinedFacts.renderImage_confined e env params templateCode
                Hmock w r w').
Qed.

(** X16. The mock still. Without a rendering backend, with the system
    calls going through and nothing in the way of the job directory,
    [renderImage] returns the text Mock image, colon, space and the JSON
    of the request as bytes, MIME type image/jpeg for the jpeg format
    and image/png otherwise, the width and height of the settings (1920
    and 1080 where missing, zero or NaN) and neither duration nor frame
    rate;
    and, the engine's work directory being there, both [renderImage] and
    [renderVideo] leave the file system, the cache table and the call
    log exactly as they found them. *)
Theorem mock_image_result e env w :
  RenderEngine.renderer e = None →
  fs w !! RenderEngine.workDir (RenderEngine.config e) = Some Fs.Dir →
  RenderEngine.mkdir_ok env = true →
  RenderEngine.write_ok env = true →
  RenderEngine.read_ok env = true →
  RenderEngine.rm_workDir_ok env = true →
  (∀ p, Fs.under (RenderEngine.job_workDir e env) p = true → fs w !! p = None) →
  (∀ params templateCode,
     RenderEngine.renderImage e env params templateCode w
     = (Ok {| RenderEngine.rr_buffer :=
                String.list_byte_of_string
                  ("Mock image: " ++ RenderEngine.stringify_image e params);
              RenderEngine.rr_mimeType :=
                match RenderMore.resolved_image_format params with
                | RenderEngine.jpeg => "image/jpeg"
                | RenderEngine.png => "image/png"
                end;
              RenderEngine.rr_metadata :=
                {| RenderEngine.md_duration := None;
                   RenderEngine.md_width :=
                     RenderEngine.num_or
                       (RenderEngine.ri_settings params
                          ≫= RenderEngine.is_width) 1920;
                   RenderEngine.md_height :=
                     RenderEngine.num_or
                       (RenderEngine.ri_settings params
                          ≫= RenderEngine.is_height) 1080;
                   RenderEngine.md_fps := None |} |}, w))
  ∧ (∀ params templateCode,
       (RenderEngine.renderVideo e env params templateCode w).2 = w).
Proof.
  intros Hmock _ Hmk Hwr Hrd Hrm Hfree. split; intros params templateCode.
  - rewrite ConfinedFacts.renderImage_mock by done. rewrite Hrm.
    unfold RenderMore.image_outputPath.
    by rewrite ConfinedFacts.rm_quiet_restores.
  - rewrite MockFacts.renderVideo_mock by done. rewrite Hrm.
    unfold RenderSpec.video_outputPath. cbn [snd].
    by rewrite ConfinedFacts.rm_quiet_restores.
Qed.

Lemma mock_render_is_confined_witness :
  calls (RenderEngine.renderVideo (Samples.engine None)
           (Samples.render_env "job1") Samples.hi_params None
           MoreSamples.work_world).2 = calls MoreSamples.work_world
  ∧ bundleCache (RenderEngine.renderVideo (Samples.engine None)
                   (Samples.render_env "job1") Samples.hi_params None
                   MoreSamples.work_world).2
    = bundleCache MoreSamples.work_world
  ∧ fs (RenderEngine.renderVideo (Samples.engine None)
          (Samples.render_env "job1") Samples.hi_params None
          MoreSamples.work_world).2 !! "/work"
    = fs MoreSamples.work_world !! "/work".
Proof.
  destruct (proj1 (mock_render_is_confined (Samples.engine None)
                     (Samples.render_env "job1") None MoreSamples.work_world
                     eq_refl eq_refl)
              Samples.hi_params
              (RenderEngine.renderVideo (Samples.engine None)
                 (Samples.render_env "job1") Samples.hi_params None
                 MoreSamples.work_world).1
              (RenderEngine.renderVideo (Samples.engine None)
                 (Samples.render_env "job1") Samples.hi_params None
                 MoreSamples.work_world).2) as (Hc & Hb & Hf).
  - vm_compute. reflexivity.
  - split_and!; [exact Hc|exact Hb|]. apply Hf. vm_compute. reflexivity.
Defined.

Lemma mock_image_result_witness :
  RenderEngine.renderImage (Samples.engine None) (Samples.render_env "job1")
    MoreSamples.hi_still None MoreSamples.work_world
  = (Ok {| RenderEngine.rr_buffer :=
             String.list_byte_of_string
               ("Mock image: "
                ++ RenderEngine.stringify_image (Samples.engine None)
                     MoreSamples.hi_still);
           RenderEngine.rr_mimeType :=
             match RenderMore.resolved_image_format MoreSamples.hi_still with
             | RenderEngine.jpeg => "image/jpeg"
             | RenderEngine.png => "image/png"
             end;
           RenderEngine.rr_metadata :=
             {| RenderEngine.md_duration := None;
                RenderEngine.md_width :=
                  RenderEngine.num_or
                    (RenderEngine.ri_settings MoreSamples.hi_still
                       ≫= RenderEngine.is_width) 1920;
                RenderEngine.md_height :=
                  RenderEngine.num_or
                    (RenderEngine.ri_settings MoreSamples.hi_still
                       ≫= RenderEngine.is_height) 1080;
                RenderEngine.md_fps := None |} |}, MoreSamples.work_world).
Proof.
  refine (proj1 (mock_image_result (Samples.engine None)
                   (Samples.render_env "job1") MoreSamples.work_world
                   _ _ _ _ _ _ _) MoreSamples.hi_still None);
    try reflexivity.
  intros p Hp. apply lookup_singleton_None. intros <-. discriminate Hp.
Defined.


(** X17. The backend calls of a successful video render. With a
    rendering backend loaded, a [renderVideo] that returns has called the
    bundler at most once (on the scaffold entry point and the bundle
    directory of the template source), then [selectComposition] once for
    the composition Main, then [renderMedia] once, in this order and
    nothing else. The [renderMedia] call carries the selected
    composition with width, height and frame rate replaced by the
    resolved ones and the frame count by
    [Math.ceil(totalDuration * fps)], a sum and a product of doubles;
    it names the codec of the format, the output path in the job
    directory and the configured concurrency; both calls are served
    from the same bundle path. The result carries the MIME type of the
    format and the resolved width and height. *)
Theorem backed_video_render_calls e r env params templateCode w res w' :
  RenderEngine.renderer e = Some r →
  RenderEngine.renderVideo e env params templateCode w = (Ok res, w') →
  ∃ compiled path comp,
    calls w'
    = (calls w ++ compiled
       ++ [CallSelectComposition path "Main";
           CallRenderMedia (RenderMore.video_composition params comp) path
             (RenderEngine.getCodec (RenderSpec.resolved_format params))
             (RenderSpec.video_outputPath e env params)
             (RenderEngine.concurrency (RenderEngine.config e))])%list
    ∧ (compiled = []
       ∨ compiled
         = [CallBundle
              (BundleMore.entryPoint (RenderEngine.bundler e)
                                     (RenderEngine.bundle_env env))
              (BundleSpec.bundleDir (RenderEngine.bundler e)
                 (RenderMore.template_source e templateCode) "universal")])
    ∧ comp_durationInFrames (RenderMore.video_composition params comp)
      = JsNumber.Math_ceil
          (fold_left (λ sum s, (sum + RenderEngine.duration s)%float)
                     (RenderEngine.scenes params) 0%float
           * RenderSpec.resolved_fps params)%float
    ∧ RenderEngine.rr_mimeType res
      = RenderEngine.getMimeType (RenderSpec.resolved_format params)
    ∧ RenderEngine.md_width (RenderEngine.rr_metadata res)
      = RenderSpec.resolved_width params
    ∧ RenderEngine.md_height (RenderEngine.rr_metadata res)
      = RenderSpec.resolved_height params.
Proof.
  intros Hr Hrun.
  destruct (BackedFacts.renderVideo_Ok_calls e r env params templateCode
              w res w' Hr Hrun) as (compiled & path & comp & Hcalls & Hcomp).
  apply RenderFacts.renderVideo_Ok_metadata in Hrun
    as (_ & _ & Hmime & Hwidth & Hheight).
  exists compiled, path, comp. by split_and!.
Qed.

Lemma backed_video_render_calls_witness :
  ∃ compiled path comp,
    calls (RenderEngine.renderVideo (Samples.engine (Some MoreSamples.renderer))
             (Samples.render_env "job1") Samples.hi_params None
             Samples.empty_world).2
    = (calls Samples.empty_world ++ compiled
       ++ [CallSelectComposition path "Main";
           CallRenderMedia
             (RenderMore.video_composition Samples.hi_params comp) path
             (RenderEngine.getCodec
                (RenderSpec.resolved_format Samples.hi_params))
             (RenderSpec.video_outputPath
                (Samples.engine (Some MoreSamples.renderer))
                (Samples.render_env "job1") Samples.hi_params)
             (RenderEngine.concurrency
                (RenderEngine.config
                   (Samples.engine (Some MoreSamples.renderer))))])%list
    ∧ (compiled = []
       ∨ compiled
         = [CallBundle
              (BundleMore.entryPoint
                 (RenderEngine.bundler
                    (Samples.engine (Some MoreSamples.renderer)))
                 (RenderEngine.bundle_env (Samples.render_env "job1")))
              (BundleSpec.bundleDir
                 (RenderEngine.bundler
                    (Samples.engine (Some MoreSamples.renderer)))
                 (RenderMore.template_source
                    (Samples.engine (Some MoreSamples.renderer)) None)
                 "universal")])
    ∧ comp_durationInFrames
        (RenderMore.video_composition Samples.hi_params comp)
      = JsNumber.Math_ceil
          (fold_left (λ sum s, (sum + RenderEngine.duration s)%float)
                     (RenderEngine.scenes Samples.hi_params) 0%float
           * RenderSpec.resolved_fps Samples.hi_params)%float
    ∧ "video/mp4"
      = RenderEngine.getMimeType (RenderSpec.resolved_format Samples.hi_params)
    ∧ 1920%float = RenderSpec.resolved_width Samples.hi_params
    ∧ 1080%float = RenderSpec.resolved_height Samples.hi_params.
Proof.
  apply (backed_video_render_calls
           (Samples.engine (Some MoreSamples.renderer)) MoreSamples.renderer
           (Samples.render_env "job1") Samples.hi_params None
           Samples.empty_world
           {| RenderEngine.rr_buffer := [x01%byte];
              RenderEngine.rr_mimeType := "video/mp4";
              RenderEngine.rr_metadata :=
                {| RenderEngine.md_duration :=
                     Some (RenderEngine.totalDuration
                             (RenderEngine.scenes Samples.hi_params));
                   RenderEngine.md_width := 1920%float;
                   RenderEngine.md_height := 1080%float;
                   RenderEngine.md_fps := Some 30%float |} |}).
  - reflexivity.
  - vm_compute. reflexivity.
Defined.

(** X18. The backend calls of a successful still render. With a
    rendering backend loaded, a [renderImage] that returns has called
    the bundler at most once, then [selectComposition] once for the
    composition Main, then [renderStill] once, in this order and nothing
    else. The [renderStill] call carries the selected composition with
    the resolved width and height, 30 frames per second and
    [Math.ceil(duration * 30)] frames, a product of doubles; it asks for
    the requested frame, frame
    15 when none is given (a requested frame 0 stays 0), in the resolved
    image format, written to the output path in the job directory. The
    result carries image/jpeg for jpeg and image/png otherwise, the
    resolved width and height, and neither duration nor frame rate. *)
Theorem backed_still_render_calls e r env params templateCode w res w' :
  RenderEngine.renderer e = Some r →
  RenderEngine.renderImage e env params templateCode w = (Ok res, w') →
  ∃ compiled path comp,
    calls w'
    = (calls w ++ compiled
       ++ [CallSelectComposition path "Main";
           CallRenderStill (RenderMore.still_composition params comp) path
             (RenderMore.image_outputPath e env params)
             (match RenderEngine.ri_frame params with
              | Some frame => frame
              | None => 15
              end)
             (RenderEngine.image_format_name
                (RenderMore.resolved_image_format params))])%list
    ∧ (compiled = []
       ∨ compiled
         = [CallBundle
              (BundleMore.entryPoint (RenderEngine.bundler e)
                                     (RenderEngine.bundle_env env))
              (BundleSpec.bundleDir (RenderEngine.bundler e)
                 (RenderMore.template_source e templateCode) "universal")])
    ∧ comp_durationInFrames (RenderMore.still_composition params comp)
      = JsNumber.Math_ceil
          (RenderEngine.duration (RenderEngine.scene params) * 30)%float
    ∧ comp_fps (RenderMore.still_composition params comp) = 30%float
    ∧ RenderEngine.rr_mimeType res
      = RenderMore.image_mimeType (RenderMore.resolved_image_format params)
    ∧ RenderEngine.rr_metadata res
      = {| RenderEngine.md_duration := None;
           RenderEngine.md_width := RenderMore.resolved_image_width params;
           RenderEngine.md_height := RenderMore.resolved_image_height params;
           RenderEngine.md_fps := None |}.
Proof.
  intros Hr. unfold RenderEngine.renderImage. rewrite Hr.
  fold (RenderMore.resolved_image_format params)
       (RenderMore.resolved_image_width params)
       (RenderMore.resolved_image_height params).
  fold (RenderMore.image_outputPath e env params).
  fold (RenderMore.template_source e templateCode).
  intros (w5 & Hbody & ->)%BackedFacts.try_finally_Ok.
  apply BackedFacts.bind_Ok in Hbody as ([] & w1 & H1 & Hbody).
  apply BackedFacts.bind_Ok in Hbody as ([] & w4 & Hmid & Hread).
  apply BackedFacts.bind_Ok in Hread as (buf & w4' & Hread & Hret).
  apply BackedFacts.readFile_world in Hread as ->.
  unfold ret in Hret. injection Hret as <- <-.
  apply BackedFacts.bind_Ok in Hmid as (b & w2 & H2 & Hmid).
  apply BackedFacts.try_finally_Ok in Hmid as (w3 & Hmid & ->).
  apply BackedFacts.bind_Ok in Hmid as (comp & w2' & H3 & H4).
  apply BackedFacts.syscall_calls in H1.
  apply BackedFacts.bundle_Ok_calls in H2 as (compiled & H2 & Hcomp).
  apply BackedFacts.call_selectComposition_calls in H3.
  apply BackedFacts.call_renderStill_calls in H4.
  exists compiled, (DynamicBundler.bundlePath b), comp.
  split; [|by split_and!].
  destruct (BundleFacts.rm_quiet_calls (RenderEngine.rm_workDir_ok env)
              (RenderEngine.job_workDir e env)
              (DynamicBundler.run_cleanup (DynamicBundler.cleanup b)
                 (RenderEngine.release_rm_ok env) w3)) as [-> _].
  destruct (BundleFacts.run_cleanup_frame (DynamicBundler.cleanup b)
              (RenderEngine.release_rm_ok env) w3) as [-> _].
  rewrite H4, H3, H2, H1. rewrite <- !(assoc_L (++)%list).
  by destruct (RenderEngine.ri_frame params).
Qed.

Lemma backed_still_render_calls_witness :
  ∃ compiled path comp,
    calls (RenderEngine.renderImage (Samples.engine (Some MoreSamples.renderer))
             (Samples.render_env "job1") MoreSamples.hi_still None
             Samples.empty_world).2
    = (calls Samples.empty_world ++ compiled
       ++ [CallSelectComposition path "Main";
           CallRenderStill
             (RenderMore.still_composition MoreSamples.hi_still comp) path
             (RenderMore.image_outputPath
                (Samples.engine (Some MoreSamples.renderer))
                (Samples.render_env "job1") MoreSamples.hi_still)
             (match RenderEngine.ri_frame MoreSamples.hi_still with
              | Some frame => frame
              | None => 15
              end)
             (RenderEngine.image_format_name
                (RenderMore.resolved_image_format MoreSamples.hi_still))])%list
    ∧ (compiled = []
       ∨ compiled
         = [CallBundle
              (BundleMore.entryPoint
                 (RenderEngine.bundler
                    (Samples.engine (Some MoreSamples.renderer)))
                 (RenderEngine.bundle_env (Samples.render_env "job1")))
              (BundleSpec.bundleDir
                 (RenderEngine.bundler
                    (Samples.engine (Some MoreSamples.renderer)))
                 (RenderMore.template_source
                    (Samples.engine (Some MoreSamples.renderer)) None)
                 "universal")])
    ∧ comp_durationInFrames
        (RenderMore.still_composition MoreSamples.hi_still comp)
      = JsNumber.Math_ceil
          (RenderEngine.duration (RenderEngine.scene MoreSamples.hi_still)
           * 30)%float
    ∧ comp_fps (RenderMore.still_composition MoreSamples.hi_still comp)
      = 30%float
    ∧ "image/jpeg"
      = RenderMore.image_mimeType
          (RenderMore.resolved_image_format MoreSamples.hi_still)
    ∧ {| RenderEngine.md_duration := None;
         RenderEngine.md_width := 640%float;
         RenderEngine.md_height := 1080%float;
         RenderEngine.md_fps := None |}
      = {| RenderEngine.md_duration := None;
           RenderEngine.md_width :=
             RenderMore.resolved_image_width MoreSamples.hi_still;
           RenderEngine.md_height :=
             RenderMore.resolved_image_height MoreSamples.hi_still;
           RenderEngine.md_fps := None |}.
Proof.
  apply (backed_still_render_calls
           (Samples.engine (Some MoreSamples.renderer)) MoreSamples.renderer
           (Samples.render_env "job1") MoreSamples.hi_still None
           Samples.empty_world
           {| RenderEngine.rr_buffer := [x02%byte];
              RenderEngine.rr_mimeType := "image/jpeg";
              RenderEngine.rr_metadata :=
                {| RenderEngine.md_duration := None;
                   RenderEngine.md_width := 640%float;
                   RenderEngine.md_height := 1080%float;
                   RenderEngine.md_fps := None |} |}).
  - reflexivity.
  - vm_compute. reflexivity.
Defined.

Module StorageFacts.
Import StorageHandler.

Lemma inv_create cfg : inv cfg (create cfg).
Proof. unfold inv, create. cbn. split_and!; done. Qed.

(** Sending one more request that is addressed as configured, on a
    handler that has a client. *)
Lemma inv_fetch cfg remote rq st :
  inv cfg st → is_Some (client st) → addressed cfg rq →
  (ready st = false → is_health_check rq) →
  inv cfg (fetch remote rq st).2.
Proof.
  intros (Hcfg & Hcl & Haddr & Hhc) [c Hc] Hrq Hrq_hc.
  unfold inv, fetch. cbn. rewrite Hc in Hcl |- *.
  destruct Hcl as (-> & Hep & Hkey & rq0 & rest & Hsent & Hfirst).
  split_and!; [done|done|done|done| | |].
  - exists rq0, (rest ++ [rq])%list. by rewrite Hsent.
  - apply Forall_app. split; [done|]. by constructor.
  - intros Hnr. apply Forall_app. split; [by apply Hhc|].
    constructor; [by apply Hrq_hc|done].
Qed.

Lemma fetch_fields remote rq st :
  config (fetch remote rq st).2 = config st
  ∧ client (fetch remote rq st).2 = client st
  ∧ ready (fetch remote rq st).2 = ready st
  ∧ error (fetch remote rq st).2 = error st
  ∧ sent (fetch remote rq st).2 = (sent st ++ [rq])%list
  ∧ (fetch remote rq st).1 = remote rq.
Proof. done. Qed.

Lemma callTool_state c now remote name params st :
  (callTool c now remote name params st).2
  = (fetch remote (mk_request c now (ToolsCall name params)) st).2.
Proof.
  unfold callTool.
  destruct (fetch remote _ st) as [[response|msg|] st1]; [|done|done].
  destruct (negb (rs_ok response)); [done|].
  by destruct (rs_json response).
Qed.

Lemma healthCheck_state c now remote st :
  (healthCheck c now remote st).2
  = (fetch remote (mk_request c now ToolsList) st).2.
Proof.
  unfold healthCheck.
  by destruct (fetch remote _ st) as [[response|msg|] st1].
Qed.

Lemma inv_set_error cfg msg st : inv cfg st → inv cfg (set_error msg st).
Proof. done. Qed.

Lemma inv_set_ready cfg st :
  inv cfg st → is_Some (client st) → inv cfg (set_ready st).
Proof.
  intros (Hcfg & Hcl & Haddr & Hhc) [c Hc]. unfold inv, set_ready. cbn.
  rewrite Hc in Hcl |- *. destruct Hcl as (? & ? & ? & ?).
  split_and!; done.
Qed.

(** A first client, or the same client again, keeps the invariant up
    to the first request, which the health check then sends. *)
Lemma inv_health cfg now remote st :
  inv cfg st →
  endpoint cfg ≠ EmptyString → apiKey cfg ≠ EmptyString →
  inv cfg (fetch remote
             (mk_request {| cl_endpoint := endpoint cfg;
                            cl_apiKey := apiKey cfg |} now ToolsList)
             (set_client {| cl_endpoint := endpoint cfg;
                            cl_apiKey := apiKey cfg |} st)).2.
Proof.
  intros (Hcfg & Hcl & Haddr & Hhc) Hep Hkey. unfold inv, fetch. cbn.
  split_and!; [done|done|done|done| | |].
  - destruct (client st) as [c|].
    + destruct Hcl as (_ & _ & _ & rq0 & rest & Hs & Hfirst).
      eexists rq0, (rest ++ [_])%list. by rewrite Hs.
    + destruct Hcl as [Hs _]. eexists _, []. by rewrite Hs.
  - apply Forall_app. split; [done|]. by constructor.
  - intros Hnr. apply Forall_app. split; [by apply Hhc|]. by constructor.
Qed.

Lemma initialize_inv cfg now remote st r st' :
  inv cfg st → initialize now remote st = (r, st') → inv cfg st'.
Proof.
  intros Hinv. pose proof Hinv as (Hcfg & _). unfold initialize.
  rewrite Hcfg. case_decide as Hep.
  { intros [= <- <-]. by apply inv_set_error. }
  case_decide as Hkey.
  { intros [= <- <-]. by apply inv_set_error. }
  pose proof (inv_health cfg now remote st Hinv Hep Hkey) as Hinv1.
  rewrite <- healthCheck_state in Hinv1.
  destruct (healthCheck _ now remote _) as [[healthy|msg|] st1] eqn:Hh;
    cbn [snd] in Hinv1.
  - destruct healthy; cbn [negb]; intros [= <- <-].
    + apply inv_set_ready; [done|].
      replace st1 with (healthCheck {| cl_endpoint := endpoint cfg;
                                       cl_apiKey := apiKey cfg |} now remote
                          (set_client {| cl_endpoint := endpoint cfg;
                                         cl_apiKey := apiKey cfg |} st)).2
        by (by rewrite Hh).
      rewrite healthCheck_state. by eexists.
    + by apply inv_set_error.
  - by intros [= <- <-].
  - by intros [= <- <-].
Qed.

Lemma store_state now remote file st :
  (store now remote file st).2
  = match ready st, client st with
    | true, Some c =>
        (fetch remote (mk_request c now
                         (ToolsCall "storage_store" (store_arguments file)))
               st).2
    | _, _ => st
    end.
Proof.
  unfold store. destruct (ready st); [|done].
  destruct (client st) as [c|]; [|done].
  rewrite <- callTool_state.
  by destruct (callTool c now remote _ _ st) as [[u|msg|] st1].
Qed.

Lemma store_inv cfg now remote file st r st' :
  inv cfg st → store now remote file st = (r, st') → inv cfg st'.
Proof.
  intros Hinv Hrun.
  replace st' with (store now remote file st).2 by (by rewrite Hrun).
  rewrite store_state.
  destruct (ready st) eqn:Hr; [|done].
  destruct (client st) as [c|] eqn:Hc; [|done].
  apply inv_fetch; [done|by rewrite Hc| |by rewrite Hr].
  destruct Hinv as (_ & Hcl & _). rewrite Hc in Hcl.
  by destruct Hcl as (-> & _).
Qed.

Lemma step_inv cfg st st' : inv cfg st → step st st' → inv cfg st'.
Proof.
  intros Hinv Hstep. destruct Hstep.
  - by eapply initialize_inv.
  - by eapply store_inv.
Qed.

Lemma reachable_inv cfg st : reachable cfg st → inv cfg st.
Proof.
  unfold reachable. intros Hr.
  pose proof (inv_create cfg) as H0. revert H0.
  induction Hr as [|x y z Hstep _ IH]; [done|].
  intros Hx. apply IH. by eapply step_inv.
Qed.

End StorageFacts.

(** X20. What the remote handler sends. In every state that a
    [StorageHandler] can reach from its constructor by [initialize()]
    and [store()] calls, against any service: every request it has sent
    went to the configured endpoint with the configured key as bearer
    token; with no endpoint or no key configured it has sent nothing and
    is not ready; the first request it ever sent was a health check; and
    as long as it is not ready it has sent health checks only, so no
    file has left the process. *)
Theorem storage_traffic_invariant cfg st :
  StorageHandler.reachable cfg st →
  Forall (StorageHandler.addressed cfg) (StorageHandler.sent st)
  ∧ (StorageHandler.endpoint cfg = EmptyString
     ∨ StorageHandler.apiKey cfg = EmptyString →
     StorageHandler.sent st = [] ∧ StorageHandler.ready st = false)
  ∧ (∀ rq rest, StorageHandler.sent st = rq :: rest →
                StorageHandler.is_health_check rq)
  ∧ (StorageHandler.ready st = false →
     Forall StorageHandler.is_health_check (StorageHandler.sent st)).
Proof.
  intros (Hcfg & Hcl & Haddr & Hhc)%StorageFacts.reachable_inv.
  split_and!; [done| | |done].
  - intros Hmissing. destruct (StorageHandler.client st) as [c|]; [|done].
    destruct Hcl as (_ & Hep & Hkey & _). by destruct Hmissing.
  - intros rq rest Hsent. destruct (StorageHandler.client st) as [c|].
    + destruct Hcl as (_ & _ & _ & rq0 & rest0 & Hsent0 & Hfirst).
      rewrite Hsent in Hsent0. by injection Hsent0 as -> _.
    + destruct Hcl as [Hnil _]. by rewrite Hsent in Hnil.
Qed.

Lemma storage_uploaded_reachable :
  StorageHandler.reachable StorageSamples.cfg
    (StorageHandler.store 2 StorageSamples.service StorageSamples.clip
       StorageSamples.connected).2.
Proof.
  eapply rtc_l; [by eapply (StorageHandler.step_initialize 1
                              StorageSamples.service)|].
  eapply rtc_l; [|apply rtc_refl].
  by eapply (StorageHandler.step_store 2 StorageSamples.service
               StorageSamples.clip).
Qed.

Lemma storage_traffic_invariant_witness :
  Forall (StorageHandler.addressed StorageSamples.cfg)
    (StorageHandler.sent
       (StorageHandler.store 2 StorageSamples.service StorageSamples.clip
          StorageSamples.connected).2).
Proof.
  exact (proj1 (storage_traffic_invariant StorageSamples.cfg _
                  storage_uploaded_reachable)).
Defined.

Module StorageResult.
Import StorageHandler.

Lemma extract_url_Ok result u :
  extract_url result = Ok u →
  rp_error result = None
  ∧ ∃ items item,
      rp_result result ≫= content = Some items
      ∧ first_text items = Some item
      ∧ ci_text item = Some u ∧ u ≠ EmptyString.
Proof.
  unfold extract_url, first_text.
  destruct (rp_error result) as [message|]; [done|].
  destruct (rp_result result ≫= content) as [[|i items]|] eqn:Hc;
    [done| |done].
  destruct (List.find _ (i :: items)) as [item|] eqn:Hf; [|done].
  destruct (ci_text item) as [text|] eqn:Ht; [|done].
  case_decide as Hne; [done|]. intros [= <-].
  split; [done|]. by exists (i :: items), item.
Qed.

Lemma ready_step st st' : step st st' → ready st = true → ready st' = true.
Proof.
  intros Hstep Hr. destruct Hstep as [now remote r st st' Hrun
                                     |now remote file r st st' Hrun].
  - revert Hrun. unfold initialize, healthCheck, fetch. cbn.
    repeat case_decide; try (by intros [= <- <-]).
    destruct (remote _) as [response|msg|];
      [destruct (rs_ok response)|..]; cbn; by intros [= <- <-].
  - replace st' with (store now remote file st).2 by (by rewrite Hrun).
    rewrite StorageFacts.store_state, Hr.
    by destruct (client st).
Qed.

Lemma initialize_fresh cfg now remote :
  (initialize now remote (create cfg)).1 = Ok tt
  ↔ endpoint cfg ≠ EmptyString ∧ apiKey cfg ≠ EmptyString
    ∧ ∃ response, remote (health_request cfg now) = Ok response
                  ∧ rs_ok response = true.
Proof.
  unfold initialize, healthCheck, fetch, mk_request, health_request. cbn.
  case_decide as Hep; [cbn; split; [done|by intros (? & _)]|].
  case_decide as Hkey; [cbn; split; [done|by intros (_ & ? & _)]|].
  destruct (remote _) as [response|msg|]; cbn.
  - destruct (rs_ok response) eqn:Hok; cbn.
    + split; [|done]. intros _. split_and!; [done|done|by exists response].
    + split; [done|]. intros (_ & _ & resp & [= <-] & Hok'). congruence.
  - split; [done|]. by intros (_ & _ & resp & ? & _).
  - split; [done|]. by intros (_ & _ & resp & ? & _).
Qed.

Lemma initialize_fresh_ready cfg now remote :
  ready (initialize now remote (create cfg)).2 = true
  ↔ (initialize now remote (create cfg)).1 = Ok tt.
Proof.
  unfold initialize, healthCheck, fetch. cbn.
  repeat case_decide; try done.
  destruct (remote _) as [response|msg|]; cbn; [|done|done].
  by destruct (rs_ok response).
Qed.

End StorageResult.

(** X21. What a stored file came back with. When [store] of a reachable
    handler returns, the handler was ready and has sent exactly one more
    request: the upload of the file (tool storage_store with the buffer
    as base64, the MIME type and the file name) to the configured
    endpoint. The service answered it with an ok status and a body that
    parsed, carried no error and had content; the URL returned is the
    text, which is not empty, of the first content item of type text.
    The metadata of the file is passed through and there is no expiry. *)
Theorem storage_store_result cfg now remote file st out st' :
  StorageHandler.reachable cfg st →
  StorageHandler.store now remote file st = (Ok out, st') →
  StorageHandler.ready st = true
  ∧ StorageHandler.sent st'
    = (StorageHandler.sent st ++ [StorageHandler.upload cfg now file])%list
  ∧ (∃ response result items item,
       remote (StorageHandler.upload cfg now file) = Ok response
       ∧ StorageHandler.rs_ok response = true
       ∧ StorageHandler.rs_json response = Ok result
       ∧ StorageHandler.rp_error result = None
       ∧ StorageHandler.rp_result result ≫= StorageHandler.content
         = Some items
       ∧ StorageHandler.first_text items = Some item
       ∧ StorageHandler.ci_text item = Some (StorageHandler.url out)
       ∧ StorageHandler.url out ≠ EmptyString)
  ∧ StorageHandler.or_metadata out = StorageHandler.metadata file
  ∧ StorageHandler.or_expiresAt out = None.
Proof.
  intros (Hcfg & Hcl & _)%StorageFacts.reachable_inv.
  unfold StorageHandler.store.
  destruct (StorageHandler.ready st); [|done].
  destruct (StorageHandler.client st) as [c|]; [|done].
  destruct Hcl as (-> & _).
  unfold StorageHandler.callTool, StorageHandler.fetch,
    StorageHandler.mk_request. cbn.
  fold (StorageHandler.upload cfg now file).
  destruct (remote (StorageHandler.upload cfg now file))
    as [response|msg|] eqn:Hremote; [|done|done].
  destruct (StorageHandler.rs_ok response) eqn:Hok; cbn; [|done].
  destruct (StorageHandler.rs_json response) as [result|msg|] eqn:Hjson;
    [|done|done].
  destruct (StorageHandler.extract_url result) as [u|msg|] eqn:Hurl;
    [|done|done].
  intros [= <- <-]. cbn.
  apply StorageResult.extract_url_Ok in Hurl
    as (Herr & items & item & Hitems & Hfirst & Htext & Hne).
  split_and!; [done|done| |done|done].
  by exists response, result, items, item.
Qed.

Lemma storage_store_result_witness :
  StorageHandler.sent
    (StorageHandler.store 2 StorageSamples.service StorageSamples.clip
       StorageSamples.connected).2
  = (StorageHandler.sent StorageSamples.connected
     ++ [StorageHandler.upload StorageSamples.cfg 2 StorageSamples.clip])%list.
Proof.
  refine (proj1 (proj2 (storage_store_result StorageSamples.cfg 2
            StorageSamples.service StorageSamples.clip
            StorageSamples.connected
            {| StorageHandler.url := "https://files.example/1";
               StorageHandler.or_metadata := None;
               StorageHandler.or_expiresAt := None |} _ _ _))).
  - eapply rtc_l; [|apply rtc_refl].
    by eapply (StorageHandler.step_initialize 1 StorageSamples.service).
  - vm_compute. reflexivity.
Defined.

(** X22. When the remote handler accepts files. [initialize()] of a new
    handler returns exactly when an endpoint and a key are configured
    and the health check is answered with an ok status; a missing
    setting, a status that is not ok and a network error all make it
    throw, and the handler is ready exactly when it returned. A handler
    that is not ready refuses every [store] with StorageHandler not
    initialized and sends nothing. A handler that is ready stays ready
    whatever happens later, also when a later [initialize()] fails. *)
Theorem storage_ready_protocol cfg :
  (∀ now remote,
     ((StorageHandler.initialize now remote (StorageHandler.create cfg)).1
      = Ok tt
      ↔ StorageHandler.endpoint cfg ≠ EmptyString
        ∧ StorageHandler.apiKey cfg ≠ EmptyString
        ∧ ∃ response,
            remote (StorageHandler.health_request cfg now) = Ok response
            ∧ StorageHandler.rs_ok response = true)
     ∧ (StorageHandler.ready
          (StorageHandler.initialize now remote
             (StorageHandler.create cfg)).2 = true
        ↔ (StorageHandler.initialize now remote
             (StorageHandler.create cfg)).1 = Ok tt))
  ∧ (∀ st now remote file,
       StorageHandler.ready st = false →
       StorageHandler.store now remote file st
       = (Throw "StorageHandler not initialized", st))
  ∧ (∀ st st',
       StorageHandler.ready st = true →
       rtc StorageHandler.step st st' →
       StorageHandler.ready st' = true).
Proof.
  split_and!.
  - intros now remote. split.
    + apply StorageResult.initialize_fresh.
    + apply StorageResult.initialize_fresh_ready.
  - intros st now remote file Hr. unfold StorageHandler.store. by rewrite Hr.
  - intros st st' Hr Hsteps. induction Hsteps as [|x y z Hstep _ IH]; [done|].
    apply IH. by eapply StorageResult.ready_step.
Qed.
